(** * OrbitUnlimitedControls: a shallow embedding over the real numbers

    The controller of [src/OrbitUnlimitedControls.js] turns pointer, wheel
    and key events into updates of a camera orbiting a target.  JavaScript
    numbers are read here as real numbers (exact arithmetic).  A division
    whose divisor is zero gives [NaN] or an infinity in JavaScript; neither
    is a real number, so the embedding stops there with [DivisionByZero].
    The only infinite value the controller is configured with,
    [maxDistance = Infinity], is kept as a [Bound]. *)

From Stdlib Require Import Reals Lra Lia ZArith List Bool.
Import ListNotations.
Local Open Scope R_scope.

(** ** Results of fallible arithmetic *)

Inductive error : Set := DivisionByZero.

Inductive result (A : Type) : Type :=
| Ok (a : A)
| Err (e : error).
Arguments Ok {A} a.
Arguments Err {A} e.

Definition bind {A B : Type} (m : result A) (k : A -> result B) : result B :=
  match m with
  | Ok a => k a
  | Err e => Err e
  end.

Notation "x <- m ;; k" := (bind m (fun x => k))
  (at level 61, m at next level, right associativity).

(** [a / b] of JavaScript, defined when the divisor is a nonzero real. *)
Definition div (a b : R) : result R :=
  if Req_dec_T b 0 then Err DivisionByZero else Ok (a / b).

(** [a || 1] on numbers: the left operand unless it is zero. *)
Definition orOne (a : R) : R := if Req_dec_T a 0 then 1 else a.

(** A distance bound that may be [Infinity]. *)
Inductive Bound : Set :=
| Finite (r : R)
| Infinity.

Module Bound.
(** [b - r] *)
Definition minus (b : Bound) (r : R) : Bound :=
  match b with
  | Finite m => Finite (m - r)
  | Infinity => Infinity
  end.

(** [Math.min(b, r)], a real because [r] is. *)
Definition min (b : Bound) (r : R) : R :=
  match b with
  | Finite m => Rmin m r
  | Infinity => r
  end.

(** [r <= b] *)
Definition le (r : R) (b : Bound) : Prop :=
  match b with
  | Finite m => r <= m
  | Infinity => True
  end.

Definition le_dec (r : R) (b : Bound) : {le r b} + {~ le r b} :=
  match b with
  | Finite m => Rle_dec r m
  | Infinity => left I
  end.
End Bound.

(** ** The parts of THREE the controller calls *)

Module Vector2.
Record t : Set := mk { x : R; y : R }.

Definition subVectors (a b : t) : t := mk (x a - x b) (y a - y b).

Definition multiplyScalar (v : t) (s : R) : t := mk (x v * s) (y v * s).

Definition manhattanDistanceTo (v w : t) : R :=
  Rabs (x v - x w) + Rabs (y v - y w).
End Vector2.

Module Matrix4.
(** Entries by row and column, the order of [Matrix4.set]. *)
Record t : Set := mk {
  n11 : R; n12 : R; n13 : R; n14 : R;
  n21 : R; n22 : R; n23 : R; n24 : R;
  n31 : R; n32 : R; n33 : R; n34 : R;
  n41 : R; n42 : R; n43 : R; n44 : R }.

Definition makeTranslation (x y z : R) : t :=
  mk 1 0 0 x
     0 1 0 y
     0 0 1 z
     0 0 0 1.

Definition multiplyMatrices (a b : t) : t :=
  mk (n11 a * n11 b + n12 a * n21 b + n13 a * n31 b + n14 a * n41 b)
     (n11 a * n12 b + n12 a * n22 b + n13 a * n32 b + n14 a * n42 b)
     (n11 a * n13 b + n12 a * n23 b + n13 a * n33 b + n14 a * n43 b)
     (n11 a * n14 b + n12 a * n24 b + n13 a * n34 b + n14 a * n44 b)
     (n21 a * n11 b + n22 a * n21 b + n23 a * n31 b + n24 a * n41 b)
     (n21 a * n12 b + n22 a * n22 b + n23 a * n32 b + n24 a * n42 b)
     (n21 a * n13 b + n22 a * n23 b + n23 a * n33 b + n24 a * n43 b)
     (n21 a * n14 b + n22 a * n24 b + n23 a * n34 b + n24 a * n44 b)
     (n31 a * n11 b + n32 a * n21 b + n33 a * n31 b + n34 a * n41 b)
     (n31 a * n12 b + n32 a * n22 b + n33 a * n32 b + n34 a * n42 b)
     (n31 a * n13 b + n32 a * n23 b + n33 a * n33 b + n34 a * n43 b)
     (n31 a * n14 b + n32 a * n24 b + n33 a * n34 b + n34 a * n44 b)
     (n41 a * n11 b + n42 a * n21 b + n43 a * n31 b + n44 a * n41 b)
     (n41 a * n12 b + n42 a * n22 b + n43 a * n32 b + n44 a * n42 b)
     (n41 a * n13 b + n42 a * n23 b + n43 a * n33 b + n44 a * n43 b)
     (n41 a * n14 b + n42 a * n24 b + n43 a * n34 b + n44 a * n44 b).

(** [this.premultiply(m)]: [this] becomes [m * this]. *)
Definition premultiply (this m : t) : t := multiplyMatrices m this.
End Matrix4.

Module Vector3.
Record t : Set := mk { x : R; y : R; z : R }.

Definition zero : t := mk 0 0 0.

Definition subVectors (a b : t) : t := mk (x a - x b) (y a - y b) (z a - z b).

Definition addVectors (a b : t) : t := mk (x a + x b) (y a + y b) (z a + z b).

(** [this.add(v)] and [this.sub(v)], returning the new [this]. *)
Definition add (this v : t) : t := addVectors this v.
Definition sub (this v : t) : t := subVectors this v.

Definition crossVectors (a b : t) : t :=
  mk (y a * z b - z a * y b)
     (z a * x b - x a * z b)
     (x a * y b - y a * x b).

Definition dot (a b : t) : R := x a * x b + y a * y b + z a * z b.

Definition lengthSq (v : t) : R := x v * x v + y v * y v + z v * z v.

Definition length (v : t) : R := sqrt (lengthSq v).

Definition multiplyScalar (v : t) (s : R) : t := mk (x v * s) (y v * s) (z v * s).

(** [divideScalar(s)] is [multiplyScalar(1 / s)]. *)
Definition divideScalar (v : t) (s : R) : result t :=
  k <- div 1 s ;; Ok (multiplyScalar v k).

(** [normalize()] is [divideScalar(length() || 1)]; the divisor is never
    zero, so the function is written total (see [normalize_divideScalar]). *)
Definition normalize (v : t) : t := multiplyScalar v (1 / orOne (length v)).

(** [makeBasis] lives here because it reads vectors. *)
Definition makeBasis (xAxis yAxis zAxis : t) : Matrix4.t :=
  Matrix4.mk (x xAxis) (x yAxis) (x zAxis) 0
             (y xAxis) (y yAxis) (y zAxis) 0
             (z xAxis) (z yAxis) (z zAxis) 0
             0 0 0 1.

(** [applyMatrix4(m)], with its perspective divide. *)
Definition applyMatrix4 (v : t) (m : Matrix4.t) : result t :=
  w <- div 1 (Matrix4.n41 m * x v + Matrix4.n42 m * y v
              + Matrix4.n43 m * z v + Matrix4.n44 m) ;;
  Ok (mk ((Matrix4.n11 m * x v + Matrix4.n12 m * y v + Matrix4.n13 m * z v
           + Matrix4.n14 m) * w)
         ((Matrix4.n21 m * x v + Matrix4.n22 m * y v + Matrix4.n23 m * z v
           + Matrix4.n24 m) * w)
         ((Matrix4.n31 m * x v + Matrix4.n32 m * y v + Matrix4.n33 m * z v
           + Matrix4.n34 m) * w)).
End Vector3.

(** ** The controller's data *)

(** The states of the interaction's finite state machine. *)
Inductive State : Set :=
| INACTIVE
| INDETERMINATE
| ROTATING
| DOLLYING
| PANNING.

Definition State_eq_dec (a b : State) : {a = b} + {a <> b}.
Proof. decide equality. Defined.

Definition ClickThreshold : R := 2.

(** The camera, [this.object]: the fields the controller reads and writes.
    Its orientation quaternion is written by [lookAt] and never read back
    by the controller; it is left out of the record. *)
Record Camera : Set := mkCamera {
  position : Vector3.t;
  up : Vector3.t;
  fov : R }.

(** [this.domElement]: the size of the viewport in pixels. *)
Record DomElement : Set := mkDomElement {
  clientWidth : R;
  clientHeight : R }.

Record Keys : Set := mkKeys { LEFT : Z; UP : Z; RIGHT : Z; DOWN : Z }.

(** What a handler did besides writing fields: it called [fixUp], or it
    dispatched the change event to the listeners. *)
Inductive Effect : Set :=
| FixUpCall
| ChangeEvent.

(** The fields of [this].  [prev], [radius] and [basisMatrix] are undefined
    in JavaScript until their first assignment; every read of them in the
    source comes after one.  [listening] tells whether the document's
    mousemove and mouseup listeners are attached; [trace] lists the effects
    so far, the latest first. *)
Record Controls : Type := mkControls {
  object : Camera;
  domElement : DomElement;
  keyPanSpeed : R;
  keys : Keys;
  maxDistance : Bound;
  minDistance : R;
  rotateSpeed : R;
  target : Vector3.t;
  zoomSpeed : R;
  clicked : bool;
  usePanModAlt : bool;
  usePanModShift : bool;
  usePanModCtrl : bool;
  usePanModMeta : bool;
  state : State;
  prev : Vector2.t;
  radius : R;
  basisMatrix : Matrix4.t;
  target0 : Vector3.t;
  position0 : Vector3.t;
  listening : bool;
  trace : list Effect }.

(** *** Field assignments *)

Definition with_object (c : Controls) (o : Camera) : Controls :=
  mkControls o (domElement c) (keyPanSpeed c) (keys c) (maxDistance c)
    (minDistance c) (rotateSpeed c) (target c) (zoomSpeed c) (clicked c)
    (usePanModAlt c) (usePanModShift c) (usePanModCtrl c) (usePanModMeta c)
    (state c) (prev c) (radius c) (basisMatrix c) (target0 c) (position0 c)
    (listening c) (trace c).

Definition with_position (c : Controls) (p : Vector3.t) : Controls :=
  with_object c (mkCamera p (up (object c)) (fov (object c))).

Definition with_up (c : Controls) (u : Vector3.t) : Controls :=
  with_object c (mkCamera (position (object c)) u (fov (object c))).

Definition with_target (c : Controls) (t : Vector3.t) : Controls :=
  mkControls (object c) (domElement c) (keyPanSpeed c) (keys c) (maxDistance c)
    (minDistance c) (rotateSpeed c) t (zoomSpeed c) (clicked c)
    (usePanModAlt c) (usePanModShift c) (usePanModCtrl c) (usePanModMeta c)
    (state c) (prev c) (radius c) (basisMatrix c) (target0 c) (position0 c)
    (listening c) (trace c).

Definition with_clicked (c : Controls) (b : bool) : Controls :=
  mkControls (object c) (domElement c) (keyPanSpeed c) (keys c) (maxDistance c)
    (minDistance c) (rotateSpeed c) (target c) (zoomSpeed c) b
    (usePanModAlt c) (usePanModShift c) (usePanModCtrl c) (usePanModMeta c)
    (state c) (prev c) (radius c) (basisMatrix c) (target0 c) (position0 c)
    (listening c) (trace c).

Definition with_state (c : Controls) (s : State) : Controls :=
  mkControls (object c) (domElement c) (keyPanSpeed c) (keys c) (maxDistance c)
    (minDistance c) (rotateSpeed c) (target c) (zoomSpeed c) (clicked c)
    (usePanModAlt c) (usePanModShift c) (usePanModCtrl c) (usePanModMeta c)
    s (prev c) (radius c) (basisMatrix c) (target0 c) (position0 c)
    (listening c) (trace c).

Definition with_prev (c : Controls) (p : Vector2.t) : Controls :=
  mkControls (object c) (domElement c) (keyPanSpeed c) (keys c) (maxDistance c)
    (minDistance c) (rotateSpeed c) (target c) (zoomSpeed c) (clicked c)
    (usePanModAlt c) (usePanModShift c) (usePanModCtrl c) (usePanModMeta c)
    (state c) p (radius c) (basisMatrix c) (target0 c) (position0 c)
    (listening c) (trace c).

Definition with_radius (c : Controls) (r : R) : Controls :=
  mkControls (object c) (domElement c) (keyPanSpeed c) (keys c) (maxDistance c)
    (minDistance c) (rotateSpeed c) (target c) (zoomSpeed c) (clicked c)
    (usePanModAlt c) (usePanModShift c) (usePanModCtrl c) (usePanModMeta c)
    (state c) (prev c) r (basisMatrix c) (target0 c) (position0 c)
    (listening c) (trace c).

Definition with_basisMatrix (c : Controls) (m : Matrix4.t) : Controls :=
  mkControls (object c) (domElement c) (keyPanSpeed c) (keys c) (maxDistance c)
    (minDistance c) (rotateSpeed c) (target c) (zoomSpeed c) (clicked c)
    (usePanModAlt c) (usePanModShift c) (usePanModCtrl c) (usePanModMeta c)
    (state c) (prev c) (radius c) m (target0 c) (position0 c)
    (listening c) (trace c).

Definition with_listening (c : Controls) (b : bool) : Controls :=
  mkControls (object c) (domElement c) (keyPanSpeed c) (keys c) (maxDistance c)
    (minDistance c) (rotateSpeed c) (target c) (zoomSpeed c) (clicked c)
    (usePanModAlt c) (usePanModShift c) (usePanModCtrl c) (usePanModMeta c)
    (state c) (prev c) (radius c) (basisMatrix c) (target0 c) (position0 c)
    b (trace c).

Definition record (c : Controls) (e : Effect) : Controls :=
  mkControls (object c) (domElement c) (keyPanSpeed c) (keys c) (maxDistance c)
    (minDistance c) (rotateSpeed c) (target c) (zoomSpeed c) (clicked c)
    (usePanModAlt c) (usePanModShift c) (usePanModCtrl c) (usePanModMeta c)
    (state c) (prev c) (radius c) (basisMatrix c) (target0 c) (position0 c)
    (listening c) (e :: trace c).

(** Comparisons as the conditions of the source's [if]s. *)
Definition gtb (a b : R) : bool := if Rgt_dec a b then true else false.
Definition leb (a b : R) : bool := if Rle_dec a b then true else false.
Definition leb_bound (a : R) (b : Bound) : bool :=
  if Bound.le_dec a b then true else false.

(** ** The events *)

Record MouseEvent : Set := mkMouseEvent {
  clientX : R;
  clientY : R;
  buttons : Z;
  shiftKey : bool;
  altKey : bool;
  ctrlKey : bool;
  metaKey : bool }.

Record WheelEvent : Set := mkWheelEvent { deltaY : R }.

Record KeyboardEvent : Set := mkKeyboardEvent { keyCode : Z }.

(** ** The methods *)

(** [Object3D.lookAt] turns the camera towards the target by rewriting its
    quaternion; position, up and field of view are not touched. *)
Definition lookAt (o : Camera) (t : Vector3.t) : Camera := o.

Definition dispatchEvent (c : Controls) : Controls := record c ChangeEvent.

Definition fixUp (c : Controls) : Controls :=
  let c := record c FixUpCall in
  let view :=
    Vector3.normalize (Vector3.subVectors (target c) (position (object c))) in
  let side := Vector3.normalize (Vector3.crossVectors view (up (object c))) in
  let up' := Vector3.normalize (Vector3.crossVectors side view) in
  with_up c up'.

Definition update (c : Controls) : Controls :=
  let c := with_object c (lookAt (object c) (target c)) in
  let c := if State_eq_dec (state c) ROTATING then c else fixUp c in
  dispatchEvent c.

Definition reset (c : Controls) : Controls :=
  let c := with_target c (target0 c) in
  let c := with_position c (position0 c) in
  update c.

(** The constructor, for a camera and a viewport. *)
Definition constructor (o : Camera) (d : DomElement) : Controls :=
  update
    (mkControls o d 7 (mkKeys 37 38 39 40) Infinity 0 1 Vector3.zero 1 false
       true false false false
       INACTIVE (Vector2.mk 0 0) 0 (Matrix4.makeTranslation 0 0 0)
       Vector3.zero (position o) false []).

Definition onMouseDown (c : Controls) (event : MouseEvent) : Controls :=
  let c := with_state c INDETERMINATE in
  let c := with_prev c (Vector2.mk (clientX event) (clientY event)) in
  with_listening c true.

Definition eventHasPanModifier (c : Controls) (event : MouseEvent) : bool :=
  (shiftKey event && usePanModShift c)
  || (altKey event && usePanModAlt c)
  || (ctrlKey event && usePanModCtrl c)
  || (metaKey event && usePanModMeta c).

Definition onMouseUp (c : Controls) : Controls :=
  let c1 := if State_eq_dec (state c) ROTATING then fixUp c else c in
  let c2 :=
    with_clicked c1
      (if State_eq_dec (state c1) INDETERMINATE then true else false) in
  let c3 := with_state c2 INACTIVE in
  with_listening c3 false.

(** The test on the pointer's travel that [rotate], [dolly] and [pan] start
    with: an indeterminate press becomes the gesture [s] once the pointer
    is more than [ClickThreshold] away from [prev]. *)
Definition promote (c : Controls) (curr : Vector2.t) (s : State) : Controls :=
  if State_eq_dec (state c) INDETERMINATE then
    let distance := Vector2.manhattanDistanceTo curr (prev c) in
    if gtb distance ClickThreshold then with_state c s else c
  else c.

(** The basis matrix and the radius [rotate] prepares when the drag is
    confirmed. *)
Definition captureFrame (c : Controls) : result Controls :=
  let zAxis0 := Vector3.subVectors (position (object c)) (target c) in
  let radius := Vector3.length zAxis0 in
  let c := with_radius c radius in
  zAxis <- Vector3.divideScalar zAxis0 radius ;;
  let yAxis := up (object c) in
  let xAxis := Vector3.normalize (Vector3.crossVectors yAxis zAxis) in
  let m := Vector3.makeBasis xAxis yAxis zAxis in
  let tr :=
    Matrix4.makeTranslation
      (Vector3.x (target c)) (Vector3.y (target c)) (Vector3.z (target c)) in
  Ok (with_basisMatrix c (Matrix4.premultiply m tr)).

(** The azimuth and the inclination [rotate] computes for the pointer at
    [curr]. *)
Definition rotateDelta (c : Controls) (curr : Vector2.t) : Vector2.t :=
  let delta := Vector2.subVectors curr (prev c) in
  let speed := 2 * rotateSpeed c in
  Vector2.multiplyScalar delta speed.

Definition rotatePhi (c : Controls) (curr : Vector2.t) : result R :=
  k <- div PI (clientWidth (domElement c)) ;;
  Ok (- Vector2.x (rotateDelta c curr) * k).

Definition eps : R := 1 / 100.

Definition rotateTheta (c : Controls) (curr : Vector2.t) : result R :=
  k <- div PI (clientHeight (domElement c)) ;;
  let theta := - Vector2.y (rotateDelta c curr) * k + PI / 2 in
  let theta := Rmax theta eps in
  let theta := Rmin theta (PI - eps) in
  Ok theta.

(** The camera position in the default orientation, before the basis
    matrix is applied. *)
Definition sphericalPos (radius theta phi : R) : Vector3.t :=
  Vector3.mk (radius * sin theta * sin phi)
             (radius * cos theta)
             (radius * sin theta * cos phi).

Definition rotate (c : Controls) (x y : R) : result Controls :=
  let curr := Vector2.mk x y in
  c <- (if State_eq_dec (state c) INDETERMINATE then
          let distance := Vector2.manhattanDistanceTo curr (prev c) in
          if gtb distance ClickThreshold
          then captureFrame (with_state c ROTATING)
          else Ok c
        else Ok c) ;;
  if State_eq_dec (state c) ROTATING then
    phi <- rotatePhi c curr ;;
    theta <- rotateTheta c curr ;;
    pos <- Vector3.applyMatrix4 (sphericalPos (radius c) theta phi)
             (basisMatrix c) ;;
    Ok (update (with_position c pos))
  else Ok c.

(** The locals of [dolly]. *)
Definition distToTarget (c : Controls) : R :=
  Vector3.length (Vector3.subVectors (target c) (position (object c))).

Definition dollyDelta (c : Controls) (y : R) : result R :=
  let distLimit := 2 * distToTarget c in
  let distForFullDrag :=
    Bound.min (Bound.minus (maxDistance c) (minDistance c)) distLimit in
  let heightPx := clientHeight (domElement c) in
  pxToWorld <- div distForFullDrag heightPx ;;
  let speed := zoomSpeed c * pxToWorld in
  let deltaY := Vector2.y (prev c) - y in
  Ok (speed * deltaY).

(** The condition under which [dolly] moves the camera. *)
Definition dollyAccepts (c : Controls) (delta : R) : bool :=
  leb (minDistance c) (distToTarget c + delta)
  && leb_bound (distToTarget c + delta) (maxDistance c).

Definition dolly (c : Controls) (x y : R) : result Controls :=
  let curr := Vector2.mk x y in
  let c := promote c curr DOLLYING in
  if State_eq_dec (state c) DOLLYING then
    let toTarget := Vector3.subVectors (target c) (position (object c)) in
    delta <- dollyDelta c y ;;
    if dollyAccepts c delta then
      k <- div delta (distToTarget c) ;;
      let deltaToTarget := Vector3.multiplyScalar toTarget k in
      let c := with_position c (Vector3.sub (position (object c)) deltaToTarget) in
      let c := update c in
      Ok (with_prev c curr)
    else Ok c
  else Ok c.

Definition pan (c : Controls) (x y : R) : result Controls :=
  let curr := Vector2.mk x y in
  let c := promote c curr PANNING in
  if State_eq_dec (state c) PANNING then
    let zAxis0 := Vector3.subVectors (target c) (position (object c)) in
    let distToTarget := Vector3.length zAxis0 in
    zAxis <- Vector3.divideScalar zAxis0 distToTarget ;;
    let yAxis := up (object c) in
    let xAxis := Vector3.normalize (Vector3.crossVectors yAxis zAxis) in
    let halfHeightWorld := tan ((fov (object c) / 2) * (PI / 360)) * distToTarget in
    let halfHeightPx := clientHeight (domElement c) / 2 in
    pxToWorld <- div halfHeightWorld halfHeightPx ;;
    let delta := Vector2.subVectors curr (prev c) in
    let deltaX := Vector3.multiplyScalar xAxis (Vector2.x delta * pxToWorld) in
    let deltaY := Vector3.multiplyScalar yAxis (Vector2.y delta * pxToWorld) in
    let c := with_position c (Vector3.add (position (object c)) deltaX) in
    let c := with_position c (Vector3.add (position (object c)) deltaY) in
    let toTarget := Vector3.multiplyScalar zAxis distToTarget in
    let target := Vector3.addVectors (position (object c)) toTarget in
    let c := with_target c target in
    let c := update c in
    Ok (with_prev c curr)
  else Ok c.

Definition onMouseWheel (c : Controls) (event : WheelEvent) : result Controls :=
  let c := with_state c DOLLYING in
  let c := with_prev c (Vector2.mk 0 0) in
  dolly c 0 (- deltaY event).

Definition onMouseMove (c : Controls) (event : MouseEvent) : result Controls :=
  if Z.eqb (buttons event) 1 then
    if eventHasPanModifier c event
    then pan c (clientX event) (clientY event)
    else rotate c (clientX event) (clientY event)
  else if Z.eqb (buttons event) 2 then pan c (clientX event) (clientY event)
  else if Z.eqb (buttons event) 4 then dolly c (clientX event) (clientY event)
  else Ok c.

Definition onKeyDown (c : Controls) (event : KeyboardEvent) : result Controls :=
  let xy : option (R * R) :=
    if Z.eqb (keyCode event) (UP (keys c)) then Some (0, keyPanSpeed c)
    else if Z.eqb (keyCode event) (DOWN (keys c)) then Some (0, - keyPanSpeed c)
    else if Z.eqb (keyCode event) (LEFT (keys c)) then Some (keyPanSpeed c, 0)
    else if Z.eqb (keyCode event) (RIGHT (keys c)) then Some (- keyPanSpeed c, 0)
    else None in
  match xy with
  | Some (x, y) =>
      let c := with_state c PANNING in
      let c := with_prev c (Vector2.mk 0 0) in
      pan c x y
  | None => Ok c
  end.

(** ** Event delivery *)

(** The document's mousemove and mouseup listeners exist between a
    mousedown and the next mouseup; the other listeners always do. *)
Inductive Event : Set :=
| MouseDown (event : MouseEvent)
| MouseMove (event : MouseEvent)
| MouseUp
| Wheel (event : WheelEvent)
| KeyDown (event : KeyboardEvent)
| ContextMenu.

Definition handle (c : Controls) (e : Event) : result Controls :=
  match e with
  | MouseDown event => Ok (onMouseDown c event)
  | MouseMove event => if listening c then onMouseMove c event else Ok c
  | MouseUp => if listening c then Ok (onMouseUp c) else Ok c
  | Wheel event => onMouseWheel c event
  | KeyDown event => onKeyDown c event
  | ContextMenu => Ok c
  end.

Fixpoint run (c : Controls) (es : list Event) : result Controls :=
  match es with
  | [] => Ok c
  | e :: es => c' <- handle c e ;; run c' es
  end.

(** How often each effect occurs in a trace. *)
Fixpoint fixUpCalls (t : list Effect) : nat :=
  match t with
  | [] => 0
  | FixUpCall :: t => S (fixUpCalls t)
  | ChangeEvent :: t => fixUpCalls t
  end.

Fixpoint changeEvents (t : list Effect) : nat :=
  match t with
  | [] => 0
  | ChangeEvent :: t => S (changeEvents t)
  | FixUpCall :: t => changeEvents t
  end.

(** The up vector [fixUp] writes, as a function of the offset from the
    camera to the target and of the old up vector. *)
Definition stabilized (d u : Vector3.t) : Vector3.t :=
  let view := Vector3.normalize d in
  let side := Vector3.normalize (Vector3.crossVectors view u) in
  Vector3.normalize (Vector3.crossVectors side view).

(** The distance from the camera to the target lies within the bounds. *)
Definition withinBounds (c : Controls) : Prop :=
  minDistance c <= distToTarget c /\ Bound.le (distToTarget c) (maxDistance c).

(** A controller as the constructor leaves it for a camera at [(0, 0, 5)]
    with up [(0, 1, 0)] and a field of view of 50 degrees, in a viewport of
    320 by 320 pixels: the target is the origin and the limits are the
    defaults. *)
Definition sample : Controls :=
  mkControls
    (mkCamera (Vector3.mk 0 0 5) (Vector3.mk 0 1 0) 50)
    (mkDomElement 320 320)
    7 (mkKeys 37 38 39 40) Infinity 0 1 Vector3.zero 1 false
    true false false false
    INACTIVE (Vector2.mk 0 0) 0 (Matrix4.makeTranslation 0 0 0)
    Vector3.zero (Vector3.mk 0 0 5) false [ChangeEvent; FixUpCall].

(** The matrix [rotate] stores: the basis of the three axes followed by
    the translation to [t]. *)
Definition frameMatrix (t xAxis yAxis zAxis : Vector3.t) : Matrix4.t :=
  Matrix4.premultiply (Vector3.makeBasis xAxis yAxis zAxis)
    (Matrix4.makeTranslation (Vector3.x t) (Vector3.y t) (Vector3.z t)).

(** The point with coordinates [p] in the frame of origin [t] and axes
    [xAxis], [yAxis], [zAxis]. *)
Definition placed (t xAxis yAxis zAxis p : Vector3.t) : Vector3.t :=
  Vector3.mk
    (Vector3.x t + (Vector3.x p * Vector3.x xAxis + Vector3.y p * Vector3.x yAxis
                    + Vector3.z p * Vector3.x zAxis))
    (Vector3.y t + (Vector3.x p * Vector3.y xAxis + Vector3.y p * Vector3.y yAxis
                    + Vector3.z p * Vector3.y zAxis))
    (Vector3.z t + (Vector3.x p * Vector3.z xAxis + Vector3.y p * Vector3.z yAxis
                    + Vector3.z p * Vector3.z zAxis)).

(** A move that [onMouseMove] hands to [rotate]: primary button, no pan
    modifier. *)
Definition isRotateMove (c : Controls) (event : MouseEvent) : Prop :=
  buttons event = 1%Z /\ eventHasPanModifier c event = false.

(** The settings a gesture reads and never writes. *)
Definition sameSettings (c c0 : Controls) : Prop :=
  domElement c = domElement c0
  /\ rotateSpeed c = rotateSpeed c0
  /\ zoomSpeed c = zoomSpeed c0
  /\ minDistance c = minDistance c0
  /\ maxDistance c = maxDistance c0
  /\ usePanModShift c = usePanModShift c0
  /\ usePanModAlt c = usePanModAlt c0
  /\ usePanModCtrl c = usePanModCtrl c0
  /\ usePanModMeta c = usePanModMeta c0.

(** The axes [rotate] captures for a camera at [p] with up vector [u]
    looking at [t], and the controller after the capture. *)
Definition viewAxis (p t : Vector3.t) : Vector3.t :=
  Vector3.multiplyScalar (Vector3.subVectors p t)
    (1 / Vector3.length (Vector3.subVectors p t)).

Definition rightAxis (p t u : Vector3.t) : Vector3.t :=
  Vector3.normalize (Vector3.crossVectors u (viewAxis p t)).

Definition captured (c : Controls) : Controls :=
  let p := position (object c) in
  let t := target c in
  let u := up (object c) in
  with_basisMatrix
    (with_radius (with_state c ROTATING)
       (Vector3.length (Vector3.subVectors p t)))
    (frameMatrix t (rightAxis p t u) u (viewAxis p t)).

(** Where a rotate gesture stands: [c0] is the controller at the press,
    [press] the pointer position of the press, [c] the controller now.
    Either the drag is not confirmed yet and the camera has not moved, or
    the frame of [c0]'s camera is stored and the camera sits at spherical
    coordinates of that frame whose inclination is within the clamp. *)
Definition rotateGesture (c0 : Controls) (press : Vector2.t) (c : Controls) : Prop :=
  let p0 := position (object c0) in
  let t0 := target c0 in
  let u0 := up (object c0) in
  listening c = true
  /\ sameSettings c c0
  /\ prev c = press
  /\ target c = t0
  /\ up (object c) = u0
  /\ ((state c = INDETERMINATE /\ position (object c) = p0
       /\ trace c = trace c0)
      \/ (state c = ROTATING
          /\ basisMatrix c = frameMatrix t0 (rightAxis p0 t0 u0) u0 (viewAxis p0 t0)
          /\ radius c = Vector3.length (Vector3.subVectors p0 t0)
          /\ exists theta phi,
               eps <= theta <= PI - eps
               /\ position (object c)
                  = placed t0 (rightAxis p0 t0 u0) u0 (viewAxis p0 t0)
                      (sphericalPos (Vector3.length (Vector3.subVectors p0 t0))
                         theta phi))).

(** A press at [(100, 100)] and a move of the pointer to [(x, y)] with the
    buttons [b] held and no modifier key. *)
Definition pressAt100 : MouseEvent :=
  mkMouseEvent 100 100 1 false false false false.

Definition moveTo (x y : R) (b : Z) : MouseEvent :=
  mkMouseEvent x y b false false false false.

(** The controller after [dolly] has accepted a step of [delta] for the
    pointer at [curr]. *)
Definition dollied (c : Controls) (delta : R) (curr : Vector2.t) : Controls :=
  with_prev
    (update
       (with_position c
          (Vector3.sub (position (object c))
             (Vector3.multiplyScalar
                (Vector3.subVectors (target c) (position (object c)))
                (delta / distToTarget c)))))
    curr.

(** The distance [dolly] adds for a pointer travel of [pixels]: the travel
    times [zoomSpeed] times the usable range per pixel of viewport height. *)
Definition scaledDelta (c : Controls) (pixels : R) : R :=
  zoomSpeed c
  * (Bound.min (Bound.minus (maxDistance c) (minDistance c)) (2 * distToTarget c)
     / clientHeight (domElement c))
  * pixels.

(** What [onMouseWheel] does before it calls [dolly]. *)
Definition wheelStart (c : Controls) : Controls :=
  with_prev (with_state c DOLLYING) (Vector2.mk 0 0).

(** The events that make [dolly] run: a wheel tick, or a move with the
    wheel button held. *)
Definition isDollyStep (e : Event) : Prop :=
  match e with
  | Wheel _ => True
  | MouseMove event => buttons event = 4%Z
  | _ => False
  end.

(** The controller after [pan] has moved the camera and the target for
    the pointer at [curr]. *)
Definition panned (c : Controls) (curr : Vector2.t) : Controls :=
  let zAxis0 := Vector3.subVectors (target c) (position (object c)) in
  let distToTarget := Vector3.length zAxis0 in
  let zAxis := Vector3.multiplyScalar zAxis0 (1 / distToTarget) in
  let yAxis := up (object c) in
  let xAxis := Vector3.normalize (Vector3.crossVectors yAxis zAxis) in
  let halfHeightWorld := tan ((fov (object c) / 2) * (PI / 360)) * distToTarget in
  let halfHeightPx := clientHeight (domElement c) / 2 in
  let pxToWorld := halfHeightWorld / halfHeightPx in
  let delta := Vector2.subVectors curr (prev c) in
  let deltaX := Vector3.multiplyScalar xAxis (Vector2.x delta * pxToWorld) in
  let deltaY := Vector3.multiplyScalar yAxis (Vector2.y delta * pxToWorld) in
  let p := Vector3.add (Vector3.add (position (object c)) deltaX) deltaY in
  let toTarget := Vector3.multiplyScalar zAxis distToTarget in
  with_prev
    (update (with_target (with_position c p) (Vector3.addVectors p toTarget)))
    curr.


(** The key codes [onKeyDown] pans for. *)
Definition isPanKey (c : Controls) (event : KeyboardEvent) : Prop :=
  keyCode event = UP (keys c) \/ keyCode event = DOWN (keys c)
  \/ keyCode event = LEFT (keys c) \/ keyCode event = RIGHT (keys c).

(** The gesture [onMouseMove] hands a move to, by buttons and modifier
    keys; [None] for the combinations it ignores. *)
Definition gestureOf (c : Controls) (event : MouseEvent) : option State :=
  if Z.eqb (buttons event) 1 then
    if eventHasPanModifier c event then Some PANNING else Some ROTATING
  else if Z.eqb (buttons event) 2 then Some PANNING
  else if Z.eqb (buttons event) 4 then Some DOLLYING
  else None.

(** The pointer of [event] is more than [ClickThreshold] away from
    [press], in the sum of the absolute differences per axis. *)
Definition exceeds (press : Vector2.t) (event : MouseEvent) : bool :=
  gtb (Vector2.manhattanDistanceTo
         (Vector2.mk (clientX event) (clientY event)) press)
    ClickThreshold.

(** A confirmed rotate or pan gesture whose next move cannot fail: the
    listeners are attached, the viewport has a size, and either a frame
    around the target is stored or the camera is away from the target. *)
Definition dragging (c : Controls) : Prop :=
  listening c = true
  /\ clientWidth (domElement c) <> 0
  /\ clientHeight (domElement c) <> 0
  /\ ((state c = ROTATING
       /\ exists xAxis yAxis zAxis,
            basisMatrix c = frameMatrix (target c) xAxis yAxis zAxis)
      \/ (state c = PANNING /\ distToTarget c <> 0)).

(** The translation [pan] applies to the camera for a pointer travel of
    [(dx, dy)] pixels, from the offset [d] to the target, the up vector
    [u], the field of view and the viewport height. *)
Definition panOffset (d u : Vector3.t) (fovDeg height dx dy : R) : Vector3.t :=
  let distToTarget := Vector3.length d in
  let zAxis := Vector3.multiplyScalar d (1 / distToTarget) in
  let xAxis := Vector3.normalize (Vector3.crossVectors u zAxis) in
  let halfHeightWorld := tan ((fovDeg / 2) * (PI / 360)) * distToTarget in
  let pxToWorld := halfHeightWorld / (height / 2) in
  Vector3.addVectors (Vector3.multiplyScalar xAxis (dx * pxToWorld))
    (Vector3.multiplyScalar u (dy * pxToWorld)).

(** What [onKeyDown] does before it calls [pan]. *)
Definition keyStart (c : Controls) : Controls :=
  with_prev (with_state c PANNING) (Vector2.mk 0 0).

(** The pointer position [onKeyDown] hands to [pan] for a key code, by the
    cases of its [switch] in their order. *)
Definition keyDelta (c : Controls) (code : Z) : option (R * R) :=
  if Z.eqb code (UP (keys c)) then Some (0, keyPanSpeed c)
  else if Z.eqb code (DOWN (keys c)) then Some (0, - keyPanSpeed c)
  else if Z.eqb code (LEFT (keys c)) then Some (keyPanSpeed c, 0)
  else if Z.eqb code (RIGHT (keys c)) then Some (- keyPanSpeed c, 0)
  else None.

(** The inclination and the azimuth [rotate] computes, as real numbers. *)
Definition thetaAt (c : Controls) (curr : Vector2.t) : R :=
  Rmin (Rmax (- Vector2.y (rotateDelta c curr)
              * (PI / clientHeight (domElement c)) + PI / 2) eps)
    (PI - eps).

Definition phiAt (c : Controls) (curr : Vector2.t) : R :=
  - Vector2.x (rotateDelta c curr) * (PI / clientWidth (domElement c)).

(** The camera position of a rotate gesture that started at [press] from
    the controller [c0], for the pointer at [curr]. *)
Definition rotatedPosition (c0 : Controls) (press curr : Vector2.t) : Vector3.t :=
  let p0 := position (object c0) in
  let t0 := target c0 in
  let u0 := up (object c0) in
  placed t0 (rightAxis p0 t0 u0) u0 (viewAxis p0 t0)
    (sphericalPos (Vector3.length (Vector3.subVectors p0 t0))
       (thetaAt (with_prev c0 press) curr) (phiAt (with_prev c0 press) curr)).

(** What no handler writes: the settings, the key bindings, the values
    stored for [reset] and the camera's field of view. *)
Definition sameConfiguration (c c0 : Controls) : Prop :=
  sameSettings c c0
  /\ keys c = keys c0
  /\ keyPanSpeed c = keyPanSpeed c0
  /\ target0 c = target0 c0
  /\ position0 c = position0 c0
  /\ fov (object c) = fov (object c0).


(** * Properties *)

(** ** Vectors *)

Lemma vector3_ext (a b : Vector3.t) :
  Vector3.x a = Vector3.x b -> Vector3.y a = Vector3.y b ->
  Vector3.z a = Vector3.z b -> a = b.
Proof. destruct a, b; simpl; intros; subst; reflexivity. Qed.

Lemma lengthSq_nonneg (v : Vector3.t) : 0 <= Vector3.lengthSq v.
Proof. unfold Vector3.lengthSq; nra. Qed.

Lemma length_nonneg (v : Vector3.t) : 0 <= Vector3.length v.
Proof. apply sqrt_pos. Qed.

Lemma length_sq (v : Vector3.t) :
  Vector3.length v * Vector3.length v = Vector3.lengthSq v.
Proof. apply sqrt_sqrt, lengthSq_nonneg. Qed.

Lemma length_zero (v : Vector3.t) : Vector3.length v = 0 -> v = Vector3.zero.
Proof.
  intros H. apply sqrt_eq_0 in H; [|apply lengthSq_nonneg].
  unfold Vector3.lengthSq in H.
  apply vector3_ext; simpl; nra.
Qed.

Lemma length_of_lengthSq (v : Vector3.t) (l : R) :
  0 <= l -> Vector3.lengthSq v = l * l -> Vector3.length v = l.
Proof.
  intros Hl H. unfold Vector3.length. rewrite H. apply sqrt_square, Hl.
Qed.

Lemma orOne_nonzero (a : R) : orOne a <> 0.
Proof. unfold orOne; destruct (Req_dec_T a 0); lra. Qed.

(** The guarded divisor of [normalize] makes its [divideScalar] succeed. *)
Lemma normalize_divideScalar (v : Vector3.t) :
  Vector3.divideScalar v (orOne (Vector3.length v)) = Ok (Vector3.normalize v).
Proof.
  unfold Vector3.divideScalar, div.
  destruct (Req_dec_T (orOne (Vector3.length v)) 0) as [E|_].
  - destruct (orOne_nonzero _ E).
  - reflexivity.
Qed.

Lemma normalize_zero : Vector3.normalize Vector3.zero = Vector3.zero.
Proof. apply vector3_ext; simpl; ring. Qed.

Lemma normalize_unit (v : Vector3.t) :
  Vector3.lengthSq v = 1 -> Vector3.normalize v = v.
Proof.
  intros H. unfold Vector3.normalize.
  rewrite (length_of_lengthSq v 1) by lra.
  unfold orOne. destruct (Req_dec_T 1 0); [lra|].
  apply vector3_ext; simpl; field.
Qed.

Lemma lengthSq_normalize (v : Vector3.t) :
  Vector3.length v <> 0 -> Vector3.lengthSq (Vector3.normalize v) = 1.
Proof.
  intros H. unfold Vector3.normalize, orOne.
  destruct (Req_dec_T (Vector3.length v) 0); [contradiction|].
  pose proof (length_sq v) as Hs.
  unfold Vector3.lengthSq in *; simpl.
  set (l := Vector3.length v) in *.
  transitivity ((Vector3.x v * Vector3.x v + Vector3.y v * Vector3.y v
                 + Vector3.z v * Vector3.z v) / (l * l)).
  - field; assumption.
  - rewrite <- Hs. field; assumption.
Qed.

Lemma dot_cross_left (a b : Vector3.t) :
  Vector3.dot (Vector3.crossVectors a b) a = 0.
Proof. unfold Vector3.dot, Vector3.crossVectors; simpl; ring. Qed.

Lemma dot_cross_right (a b : Vector3.t) :
  Vector3.dot (Vector3.crossVectors a b) b = 0.
Proof. unfold Vector3.dot, Vector3.crossVectors; simpl; ring. Qed.

Lemma dot_multiplyScalar_left (a b : Vector3.t) (s : R) :
  Vector3.dot (Vector3.multiplyScalar a s) b = s * Vector3.dot a b.
Proof. unfold Vector3.dot, Vector3.multiplyScalar; simpl; ring. Qed.

Lemma dot_comm (a b : Vector3.t) : Vector3.dot a b = Vector3.dot b a.
Proof. unfold Vector3.dot; ring. Qed.

Lemma dot_normalize_left (a b : Vector3.t) :
  Vector3.dot a b = 0 -> Vector3.dot (Vector3.normalize a) b = 0.
Proof.
  intros H. unfold Vector3.normalize.
  rewrite dot_multiplyScalar_left, H. ring.
Qed.

(** Lagrange's identity. *)
Lemma lengthSq_cross (a b : Vector3.t) :
  Vector3.lengthSq (Vector3.crossVectors a b)
  = Vector3.lengthSq a * Vector3.lengthSq b - Vector3.dot a b * Vector3.dot a b.
Proof.
  unfold Vector3.lengthSq, Vector3.dot, Vector3.crossVectors; simpl; ring.
Qed.

Lemma cross_zero_left (a : Vector3.t) :
  Vector3.crossVectors Vector3.zero a = Vector3.zero.
Proof. apply vector3_ext; simpl; ring. Qed.

Lemma cross_zero_right (a : Vector3.t) :
  Vector3.crossVectors a Vector3.zero = Vector3.zero.
Proof. apply vector3_ext; simpl; ring. Qed.

(** [v x (s x v) = s] for a unit [v] orthogonal to [s]. *)
Lemma cross_cross_unit (v s : Vector3.t) :
  Vector3.lengthSq v = 1 -> Vector3.dot s v = 0 ->
  Vector3.crossVectors v (Vector3.crossVectors s v) = s.
Proof.
  unfold Vector3.lengthSq, Vector3.dot. intros Hv Hs.
  apply vector3_ext; simpl.
  - transitivity (Vector3.x s * (Vector3.x v * Vector3.x v + Vector3.y v * Vector3.y v + Vector3.z v * Vector3.z v)
                  - Vector3.x v * (Vector3.x s * Vector3.x v + Vector3.y s * Vector3.y v + Vector3.z s * Vector3.z v)).
    + ring.
    + rewrite Hv, Hs; ring.
  - transitivity (Vector3.y s * (Vector3.x v * Vector3.x v + Vector3.y v * Vector3.y v + Vector3.z v * Vector3.z v)
                  - Vector3.y v * (Vector3.x s * Vector3.x v + Vector3.y s * Vector3.y v + Vector3.z s * Vector3.z v)).
    + ring.
    + rewrite Hv, Hs; ring.
  - transitivity (Vector3.z s * (Vector3.x v * Vector3.x v + Vector3.y v * Vector3.y v + Vector3.z v * Vector3.z v)
                  - Vector3.z v * (Vector3.x s * Vector3.x v + Vector3.y s * Vector3.y v + Vector3.z s * Vector3.z v)).
    + ring.
    + rewrite Hv, Hs; ring.
Qed.

Lemma stabilized_orthogonal (d u : Vector3.t) :
  Vector3.dot (stabilized d u) (Vector3.normalize d) = 0.
Proof. unfold stabilized. apply dot_normalize_left, dot_cross_right. Qed.

Lemma stabilized_idempotent (d u : Vector3.t) :
  stabilized d (stabilized d u) = stabilized d u.
Proof.
  unfold stabilized.
  set (v := Vector3.normalize d).
  destruct (Req_dec_T (Vector3.length d) 0) as [Hd|Hd].
  - assert (Hv : v = Vector3.zero).
    { unfold v. rewrite (length_zero d Hd). apply normalize_zero. }
    rewrite Hv.
    repeat rewrite ?cross_zero_left, ?cross_zero_right, ?normalize_zero.
    reflexivity.
  - assert (Hv : Vector3.lengthSq v = 1) by (apply lengthSq_normalize, Hd).
    set (s := Vector3.normalize (Vector3.crossVectors v u)).
    destruct (Req_dec_T (Vector3.length (Vector3.crossVectors v u)) 0) as [Hs|Hs].
    + assert (Hz : s = Vector3.zero).
      { unfold s. rewrite (length_zero _ Hs). apply normalize_zero. }
      rewrite Hz.
      repeat rewrite ?cross_zero_left, ?cross_zero_right, ?normalize_zero.
      reflexivity.
    + assert (Hs1 : Vector3.lengthSq s = 1) by (apply lengthSq_normalize, Hs).
      assert (Hsv : Vector3.dot s v = 0)
        by (apply dot_normalize_left, dot_cross_left).
      assert (Hu : Vector3.lengthSq (Vector3.crossVectors s v) = 1).
      { rewrite lengthSq_cross, Hs1, Hv, Hsv. ring. }
      rewrite (normalize_unit _ Hu).
      rewrite (cross_cross_unit v s Hv Hsv).
      rewrite (normalize_unit s Hs1). apply normalize_unit, Hu.
Qed.

(** ** The up vector *)

Lemma fixUp_up (c : Controls) :
  up (object (fixUp c))
  = stabilized (Vector3.subVectors (target c) (position (object c)))
      (up (object c)).
Proof. reflexivity. Qed.

Lemma fixUp_trace (c : Controls) : trace (fixUp c) = FixUpCall :: trace c.
Proof. reflexivity. Qed.

Lemma update_trace (c : Controls) :
  trace (update c)
  = if State_eq_dec (state c) ROTATING then ChangeEvent :: trace c
    else ChangeEvent :: FixUpCall :: trace c.
Proof.
  unfold update; simpl. destruct (State_eq_dec (state c) ROTATING); reflexivity.
Qed.

Lemma update_up (c : Controls) :
  up (object (update c))
  = if State_eq_dec (state c) ROTATING then up (object c)
    else stabilized (Vector3.subVectors (target c) (position (object c)))
           (up (object c)).
Proof.
  unfold update; simpl. destruct (State_eq_dec (state c) ROTATING); reflexivity.
Qed.

Lemma update_position (c : Controls) :
  position (object (update c)) = position (object c).
Proof.
  unfold update; simpl. destruct (State_eq_dec (state c) ROTATING); reflexivity.
Qed.

Lemma update_target (c : Controls) : target (update c) = target c.
Proof.
  unfold update; simpl. destruct (State_eq_dec (state c) ROTATING); reflexivity.
Qed.

Lemma update_state (c : Controls) : state (update c) = state c.
Proof.
  unfold update; simpl. destruct (State_eq_dec (state c) ROTATING); reflexivity.
Qed.

(** C1: a release received while the state is ROTATING calls [fixUp] once,
    which writes [normalize(cross(normalize(cross(view, oldUp)), view))]
    into the camera's up vector; afterwards the up vector is exactly
    orthogonal to the normalized view vector from the camera to the target. *)
Theorem release_after_rotate_up_orthogonal (c : Controls) :
  state c = ROTATING ->
  let c' := onMouseUp c in
  let view0 :=
    Vector3.normalize (Vector3.subVectors (target c) (position (object c))) in
  let view' :=
    Vector3.normalize (Vector3.subVectors (target c') (position (object c'))) in
  Vector3.dot (up (object c')) view' = 0
  /\ up (object c')
     = Vector3.normalize
         (Vector3.crossVectors
            (Vector3.normalize (Vector3.crossVectors view0 (up (object c))))
            view0)
  /\ fixUpCalls (trace c') = S (fixUpCalls (trace c)).
Proof.
  intros H. unfold onMouseUp. rewrite H.
  destruct (State_eq_dec ROTATING ROTATING) as [_|N]; [|congruence].
  cbv zeta. simpl. repeat split.
  apply (stabilized_orthogonal
           (Vector3.subVectors (target c) (position (object c)))
           (up (object c))).
Qed.

Lemma release_after_rotate_up_orthogonal_witness :
  state (with_state sample ROTATING) = ROTATING
  /\ Vector3.dot (up (object (onMouseUp (with_state sample ROTATING))))
       (Vector3.normalize
          (Vector3.subVectors (target (onMouseUp (with_state sample ROTATING)))
             (position (object (onMouseUp (with_state sample ROTATING))))))
     = 0.
Proof.
  split; [reflexivity|].
  apply (release_after_rotate_up_orthogonal (with_state sample ROTATING)).
  reflexivity.
Defined.

(** ** Reset *)

Lemma reset_position (c : Controls) :
  position (object (reset c)) = position0 c.
Proof. unfold reset. rewrite update_position. reflexivity. Qed.

Lemma reset_target (c : Controls) : target (reset c) = target0 c.
Proof. unfold reset. rewrite update_target. reflexivity. Qed.

Lemma reset_state (c : Controls) : state (reset c) = state c.
Proof. unfold reset. rewrite update_state. reflexivity. Qed.

Lemma reset_initial (c : Controls) :
  target0 (reset c) = target0 c /\ position0 (reset c) = position0 c.
Proof.
  unfold reset, update; simpl.
  destruct (State_eq_dec (state c) ROTATING); split; reflexivity.
Qed.

Lemma reset_up (c : Controls) :
  up (object (reset c))
  = if State_eq_dec (state c) ROTATING then up (object c)
    else stabilized (Vector3.subVectors (target0 c) (position0 c))
           (up (object c)).
Proof. unfold reset. rewrite update_up. reflexivity. Qed.

(** C9: calling [reset] twice leaves the same camera position, camera up
    vector and target as calling it once.  This holds for every stored
    initial position and target, also when they coincide, since
    [normalize] keeps the zero vector. *)
Theorem reset_idempotent (c : Controls) :
  position (object (reset (reset c))) = position (object (reset c))
  /\ up (object (reset (reset c))) = up (object (reset c))
  /\ target (reset (reset c)) = target (reset c).
Proof.
  destruct (reset_initial c) as [Ht Hp].
  rewrite !reset_position, !reset_target, Ht, Hp.
  repeat split.
  rewrite (reset_up (reset c)), reset_state, Ht, Hp, reset_up.
  destruct (State_eq_dec (state c) ROTATING); [reflexivity|].
  apply stabilized_idempotent.
Qed.

(** ** Rotation *)

Lemma div_ok (a b : R) : b <> 0 -> div a b = Ok (a / b).
Proof. intros H. unfold div. destruct (Req_dec_T b 0); [contradiction|reflexivity]. Qed.

Lemma div_zero (a : R) : div a 0 = Err DivisionByZero.
Proof. unfold div. destruct (Req_dec_T 0 0); [reflexivity|congruence]. Qed.

Lemma applyMatrix4_frame (t xAxis yAxis zAxis p : Vector3.t) :
  Vector3.applyMatrix4 p (frameMatrix t xAxis yAxis zAxis)
  = Ok (placed t xAxis yAxis zAxis p).
Proof.
  unfold Vector3.applyMatrix4, frameMatrix, Matrix4.premultiply,
    Matrix4.multiplyMatrices, Vector3.makeBasis, Matrix4.makeTranslation.
  cbn [Matrix4.n11 Matrix4.n12 Matrix4.n13 Matrix4.n14
       Matrix4.n21 Matrix4.n22 Matrix4.n23 Matrix4.n24
       Matrix4.n31 Matrix4.n32 Matrix4.n33 Matrix4.n34
       Matrix4.n41 Matrix4.n42 Matrix4.n43 Matrix4.n44].
  rewrite div_ok by (intros E; ring_simplify in E; lra).
  cbn [bind]. f_equal. apply vector3_ext; cbn [Vector3.x Vector3.y Vector3.z placed];
    field.
Qed.

Lemma theta_bounds (t : R) :
  eps <= Rmin (Rmax t eps) (PI - eps) <= PI - eps.
Proof.
  pose proof PI2_1 as HPI. unfold eps.
  split.
  - apply Rmin_glb; [apply Rmax_r | lra].
  - apply Rmin_r.
Qed.

Lemma rotateTheta_ok (c : Controls) (curr : Vector2.t) :
  clientHeight (domElement c) <> 0 ->
  exists theta, rotateTheta c curr = Ok theta /\ eps <= theta <= PI - eps.
Proof.
  intros H. unfold rotateTheta. rewrite (div_ok _ _ H). cbn [bind].
  eexists; split; [reflexivity | apply theta_bounds].
Qed.

Lemma rotatePhi_ok (c : Controls) (curr : Vector2.t) :
  clientWidth (domElement c) <> 0 -> exists phi, rotatePhi c curr = Ok phi.
Proof.
  intros H. unfold rotatePhi. rewrite (div_ok _ _ H). cbn [bind].
  eexists; reflexivity.
Qed.

(** A move in state ROTATING places the camera at the spherical
    coordinates of the pointer, in the stored frame. *)
Lemma rotate_rotating (c : Controls) (x y : R) (xAxis yAxis zAxis : Vector3.t) :
  state c = ROTATING ->
  basisMatrix c = frameMatrix (target c) xAxis yAxis zAxis ->
  clientWidth (domElement c) <> 0 ->
  clientHeight (domElement c) <> 0 ->
  exists theta phi,
    rotateTheta c (Vector2.mk x y) = Ok theta
    /\ eps <= theta <= PI - eps
    /\ rotate c x y
       = Ok (update (with_position c
                       (placed (target c) xAxis yAxis zAxis
                          (sphericalPos (radius c) theta phi)))).
Proof.
  intros Hs Hm Hw Hh.
  destruct (rotateTheta_ok c (Vector2.mk x y) Hh) as [theta [Ht Hb]].
  destruct (rotatePhi_ok c (Vector2.mk x y) Hw) as [phi Hp].
  exists theta, phi. split; [exact Ht|]. split; [exact Hb|].
  unfold rotate. rewrite Hs.
  destruct (State_eq_dec ROTATING INDETERMINATE) as [E|_]; [discriminate|].
  cbn [bind]. rewrite Hs.
  destruct (State_eq_dec ROTATING ROTATING) as [_|N]; [|congruence].
  rewrite Hp, Ht. cbn [bind]. rewrite Hm, applyMatrix4_frame. reflexivity.
Qed.

Lemma captureFrame_ok (c : Controls) :
  Vector3.length (Vector3.subVectors (position (object c)) (target c)) <> 0 ->
  captureFrame (with_state c ROTATING) = Ok (captured c).
Proof.
  intros H. unfold captureFrame, Vector3.divideScalar.
  cbn [with_state with_radius object target position up].
  rewrite (div_ok _ _ H). cbn [bind]. reflexivity.
Qed.

Lemma rotate_below_threshold (c : Controls) (x y : R) :
  state c = INDETERMINATE ->
  gtb (Vector2.manhattanDistanceTo (Vector2.mk x y) (prev c)) ClickThreshold = false ->
  rotate c x y = Ok c.
Proof.
  intros Hs Hd. unfold rotate. rewrite Hs.
  destruct (State_eq_dec INDETERMINATE INDETERMINATE) as [_|N]; [|congruence].
  rewrite Hd. cbn [bind]. rewrite Hs.
  destruct (State_eq_dec INDETERMINATE ROTATING); [discriminate|reflexivity].
Qed.

Lemma rotate_promoted (c : Controls) (x y : R) :
  state c = INDETERMINATE ->
  gtb (Vector2.manhattanDistanceTo (Vector2.mk x y) (prev c)) ClickThreshold = true ->
  Vector3.length (Vector3.subVectors (position (object c)) (target c)) <> 0 ->
  rotate c x y = rotate (captured c) x y.
Proof.
  intros Hs Hd Hr. unfold rotate at 1. rewrite Hs.
  destruct (State_eq_dec INDETERMINATE INDETERMINATE) as [_|N]; [|congruence].
  rewrite Hd, (captureFrame_ok c Hr). cbn [bind].
  unfold rotate.
  destruct (State_eq_dec (state (captured c)) INDETERMINATE) as [E|_];
    [discriminate E|].
  reflexivity.
Qed.


Lemma sameSettings_modifier (c c0 : Controls) (event : MouseEvent) :
  sameSettings c c0 -> eventHasPanModifier c event = eventHasPanModifier c0 event.
Proof.
  intros (_ & _ & _ & _ & _ & H1 & H2 & H3 & H4).
  unfold eventHasPanModifier. rewrite H1, H2, H3, H4. reflexivity.
Qed.

Lemma update_sameSettings (c c0 : Controls) :
  sameSettings c c0 -> sameSettings (update c) c0.
Proof.
  unfold sameSettings, update.
  destruct (State_eq_dec _ ROTATING); cbn; trivial.
Qed.

Lemma onMouseDown_rotateGesture (c0 : Controls) (event : MouseEvent) :
  rotateGesture c0 (Vector2.mk (clientX event) (clientY event))
    (onMouseDown c0 event).
Proof.
  unfold rotateGesture, onMouseDown. cbn.
  repeat split. left. repeat split.
Qed.

Lemma rotate_rotateGesture (c0 c : Controls) (press : Vector2.t) (x y : R) :
  clientWidth (domElement c0) <> 0 ->
  clientHeight (domElement c0) <> 0 ->
  Vector3.length (Vector3.subVectors (position (object c0)) (target c0)) <> 0 ->
  rotateGesture c0 press c ->
  exists c', rotate c x y = Ok c' /\ rotateGesture c0 press c'.
Proof.
  intros Hw Hh Hr (Hl & Hset & Hprev & Ht & Hu & Hcase).
  assert (Hdom : domElement c = domElement c0) by apply Hset.
  assert (Hstep : forall c1,
    listening c1 = true -> sameSettings c1 c0 -> prev c1 = press ->
    target c1 = target c0 -> up (object c1) = up (object c0) ->
    state c1 = ROTATING ->
    basisMatrix c1
    = frameMatrix (target c0)
        (rightAxis (position (object c0)) (target c0) (up (object c0)))
        (up (object c0)) (viewAxis (position (object c0)) (target c0)) ->
    radius c1
    = Vector3.length (Vector3.subVectors (position (object c0)) (target c0)) ->
    exists c', rotate c1 x y = Ok c' /\ rotateGesture c0 press c').
  { intros c1 Hl1 Hset1 Hprev1 Ht1 Hu1 Hs1 Hm1 Hrad1.
    assert (Hdom1 : domElement c1 = domElement c0) by apply Hset1.
    destruct (rotate_rotating c1 x y _ _ _ Hs1
                ltac:(rewrite Ht1; exact Hm1)
                ltac:(rewrite Hdom1; exact Hw)
                ltac:(rewrite Hdom1; exact Hh))
      as (theta & phi & _ & Hb & Hrot).
    eexists. split; [exact Hrot|].
    unfold rotateGesture, update.
    cbn [with_position with_object state object target lookAt].
    rewrite Hs1.
    destruct (State_eq_dec ROTATING ROTATING) as [_|N]; [|congruence].
    cbn. repeat split; try assumption; try apply Hset1.
    right. repeat split; try assumption.
    exists theta, phi. split; [exact Hb|].
    rewrite Ht1, Hrad1. reflexivity. }
  destruct Hcase as [(Hs & Hp & Htr) | (Hs & Hm & Hrad & _)].
  - destruct (gtb (Vector2.manhattanDistanceTo (Vector2.mk x y) (prev c))
                ClickThreshold) eqn:Hd.
    + assert (Hr' : Vector3.length
                      (Vector3.subVectors (position (object c)) (target c)) <> 0)
        by (rewrite Hp, Ht; exact Hr).
      rewrite (rotate_promoted c x y Hs Hd Hr').
      apply Hstep; unfold captured; cbn; try assumption.
      * reflexivity.
      * rewrite Hp, Ht, Hu. reflexivity.
      * rewrite Hp, Ht. reflexivity.
    + rewrite (rotate_below_threshold c x y Hs Hd).
      exists c. split; [reflexivity|].
      unfold rotateGesture. repeat split; try assumption; try apply Hset.
      left. repeat split; assumption.
  - apply Hstep; assumption.
Qed.

Lemma rotate_moves_rotateGesture (c0 : Controls) (press : Vector2.t)
    (moves : list MouseEvent) :
  clientWidth (domElement c0) <> 0 ->
  clientHeight (domElement c0) <> 0 ->
  Vector3.length (Vector3.subVectors (position (object c0)) (target c0)) <> 0 ->
  Forall (isRotateMove c0) moves ->
  forall c, rotateGesture c0 press c ->
  exists c', run c (map MouseMove moves) = Ok c' /\ rotateGesture c0 press c'.
Proof.
  intros Hw Hh Hr Hall. induction Hall as [|m ms [Hb Hmod] _ IH]; intros c Hg.
  - exists c. split; [reflexivity | exact Hg].
  - destruct (rotate_rotateGesture c0 c press (clientX m) (clientY m) Hw Hh Hr Hg)
      as (c1 & Hrot & Hg1).
    destruct (IH c1 Hg1) as (c' & Hrun & Hg').
    exists c'. split; [|exact Hg'].
    cbn [map run handle].
    destruct Hg as (Hl & Hset & _). rewrite Hl.
    unfold onMouseMove. rewrite Hb. cbn [Z.eqb Pos.eqb].
    rewrite (sameSettings_modifier c c0 m Hset), Hmod, Hrot.
    cbn [bind]. exact Hrun.
Qed.

Lemma length_nonzero (p t : Vector3.t) :
  p <> t -> Vector3.length (Vector3.subVectors p t) <> 0.
Proof.
  intros Hne H. apply Hne. apply length_zero in H.
  unfold Vector3.subVectors, Vector3.zero in H. injection H as Hx Hy Hz.
  apply vector3_ext; lra.
Qed.

Lemma lengthSq_viewAxis (p t : Vector3.t) :
  Vector3.length (Vector3.subVectors p t) <> 0 ->
  Vector3.lengthSq (viewAxis p t) = 1.
Proof.
  intros H. unfold viewAxis.
  pose proof (length_sq (Vector3.subVectors p t)) as Hs.
  set (d := Vector3.subVectors p t) in *.
  set (l := Vector3.length d) in *.
  unfold Vector3.lengthSq in *. cbn [Vector3.multiplyScalar Vector3.x Vector3.y Vector3.z].
  transitivity ((Vector3.x d * Vector3.x d + Vector3.y d * Vector3.y d
                 + Vector3.z d * Vector3.z d) / (l * l)).
  - field; assumption.
  - rewrite <- Hs. field; assumption.
Qed.

Lemma dot_viewAxis (u p t : Vector3.t) :
  Vector3.dot u (Vector3.subVectors p t) = 0 ->
  Vector3.dot u (viewAxis p t) = 0.
Proof.
  intros H. unfold viewAxis.
  rewrite dot_comm, dot_multiplyScalar_left, dot_comm, H. ring.
Qed.

(** The squared distance from the origin of a frame to a point placed in
    it, by the Gram matrix of the axes. *)
Lemma lengthSq_placed (t xAxis yAxis zAxis p : Vector3.t) :
  Vector3.lengthSq (Vector3.subVectors t (placed t xAxis yAxis zAxis p))
  = Vector3.x p * Vector3.x p * Vector3.lengthSq xAxis
    + Vector3.y p * Vector3.y p * Vector3.lengthSq yAxis
    + Vector3.z p * Vector3.z p * Vector3.lengthSq zAxis
    + 2 * (Vector3.x p * Vector3.y p) * Vector3.dot xAxis yAxis
    + 2 * (Vector3.x p * Vector3.z p) * Vector3.dot xAxis zAxis
    + 2 * (Vector3.y p * Vector3.z p) * Vector3.dot yAxis zAxis.
Proof.
  unfold Vector3.lengthSq, Vector3.dot, Vector3.subVectors, placed.
  cbn [Vector3.x Vector3.y Vector3.z]. ring.
Qed.

Lemma lengthSq_sphericalPos (r theta phi : R) :
  Vector3.lengthSq (sphericalPos r theta phi) = r * r.
Proof.
  unfold Vector3.lengthSq, sphericalPos. cbn [Vector3.x Vector3.y Vector3.z].
  pose proof (sin2_cos2 theta) as Ht. pose proof (sin2_cos2 phi) as Hp.
  unfold Rsqr in Ht, Hp.
  transitivity (r * r * (sin theta * sin theta * (sin phi * sin phi + cos phi * cos phi)
                         + cos theta * cos theta)).
  - ring.
  - rewrite Hp, Rmult_1_r, Ht. ring.
Qed.

(** In an orthonormal frame a point at spherical coordinates of radius
    [r] is at distance [r] from the origin of the frame. *)
Lemma length_placed_orthonormal (t xAxis yAxis zAxis : Vector3.t) (r theta phi : R) :
  0 <= r ->
  Vector3.lengthSq xAxis = 1 -> Vector3.lengthSq yAxis = 1 ->
  Vector3.lengthSq zAxis = 1 ->
  Vector3.dot xAxis yAxis = 0 -> Vector3.dot xAxis zAxis = 0 ->
  Vector3.dot yAxis zAxis = 0 ->
  Vector3.length
    (Vector3.subVectors t (placed t xAxis yAxis zAxis (sphericalPos r theta phi)))
  = r.
Proof.
  intros Hr Hx Hy Hz Hxy Hxz Hyz.
  apply length_of_lengthSq; [exact Hr|].
  rewrite lengthSq_placed, Hx, Hy, Hz, Hxy, Hxz, Hyz.
  rewrite <- (lengthSq_sphericalPos r theta phi).
  unfold Vector3.lengthSq. ring.
Qed.

(** The frame captured from a camera whose up vector is a unit vector
    orthogonal to the view axis is orthonormal. *)
Lemma captured_frame_orthonormal (p t u : Vector3.t) :
  Vector3.length (Vector3.subVectors p t) <> 0 ->
  Vector3.length u = 1 ->
  Vector3.dot u (Vector3.subVectors p t) = 0 ->
  Vector3.lengthSq (rightAxis p t u) = 1
  /\ Vector3.lengthSq u = 1
  /\ Vector3.lengthSq (viewAxis p t) = 1
  /\ Vector3.dot (rightAxis p t u) u = 0
  /\ Vector3.dot (rightAxis p t u) (viewAxis p t) = 0
  /\ Vector3.dot u (viewAxis p t) = 0.
Proof.
  intros Hr Hu Huv.
  assert (Hu2 : Vector3.lengthSq u = 1).
  { rewrite <- length_sq, Hu. ring. }
  pose proof (lengthSq_viewAxis p t Hr) as Hz.
  pose proof (dot_viewAxis u p t Huv) as Hyz.
  assert (Hn : Vector3.lengthSq (Vector3.crossVectors u (viewAxis p t)) = 1).
  { rewrite lengthSq_cross, Hu2, Hz, Hyz. ring. }
  unfold rightAxis. rewrite (normalize_unit _ Hn).
  repeat split; try assumption.
  - apply dot_cross_left.
  - apply dot_cross_right.
Qed.

Lemma length_subVectors_comm (p t : Vector3.t) :
  Vector3.length (Vector3.subVectors p t) = Vector3.length (Vector3.subVectors t p).
Proof.
  unfold Vector3.length. f_equal.
  unfold Vector3.lengthSq, Vector3.subVectors; cbn [Vector3.x Vector3.y Vector3.z]; ring.
Qed.

(** C3: in a rotate gesture (a press followed by moves with the primary
    button and no pan modifier) that starts with a camera away from the
    target whose up vector is a unit vector orthogonal to the view axis, so
    that the captured frame is orthonormal, every move is processed without
    error and leaves the camera at the distance from the target it had at
    the press; once the drag is confirmed that distance is the stored
    radius. *)
Theorem rotate_keeps_radius (c0 : Controls) (press : MouseEvent)
    (moves : list MouseEvent) :
  clientWidth (domElement c0) <> 0 ->
  clientHeight (domElement c0) <> 0 ->
  position (object c0) <> target c0 ->
  Vector3.length (up (object c0)) = 1 ->
  Vector3.dot (up (object c0))
    (Vector3.subVectors (position (object c0)) (target c0)) = 0 ->
  Forall (isRotateMove c0) moves ->
  exists c',
    run (onMouseDown c0 press) (map MouseMove moves) = Ok c'
    /\ (state c' = INDETERMINATE \/ state c' = ROTATING)
    /\ distToTarget c' = distToTarget c0
    /\ (state c' = ROTATING ->
        radius c' = distToTarget c0 /\ distToTarget c' = radius c').
Proof.
  intros Hw Hh Hne Hu Huv Hall.
  pose proof (length_nonzero _ _ Hne) as Hr.
  destruct (rotate_moves_rotateGesture c0 _ moves Hw Hh Hr Hall _
              (onMouseDown_rotateGesture c0 press))
    as (c' & Hrun & _ & _ & _ & Ht & _ & Hcase).
  exists c'. split; [exact Hrun|].
  assert (Hd0 : distToTarget c0
                = Vector3.length
                    (Vector3.subVectors (position (object c0)) (target c0))).
  { unfold distToTarget. apply length_subVectors_comm. }
  destruct Hcase as [(Hs & Hp & _) | (Hs & _ & Hrad & theta & phi & _ & Hp)].
  - split; [left; exact Hs|]. split.
    + unfold distToTarget. rewrite Ht, Hp. reflexivity.
    + rewrite Hs. discriminate.
  - destruct (captured_frame_orthonormal _ _ _ Hr Hu Huv)
      as (Hx & Hy & Hz & Hxy & Hxz & Hyz).
    assert (Hd : distToTarget c' = radius c').
    { unfold distToTarget. rewrite Ht, Hp, Hrad.
      apply length_placed_orthonormal; try assumption. apply length_nonneg. }
    split; [right; exact Hs|]. split.
    + rewrite Hd, Hrad, Hd0. reflexivity.
    + intros _. split; [rewrite Hrad, Hd0; reflexivity | exact Hd].
Qed.

Lemma sample_away : position (object sample) <> target sample.
Proof. cbn. intros H. injection H as H. lra. Qed.

Lemma sample_up_unit : Vector3.length (up (object sample)) = 1.
Proof.
  apply length_of_lengthSq; [lra|].
  unfold Vector3.lengthSq; cbn; ring.
Qed.

Lemma sample_viewport :
  clientWidth (domElement sample) <> 0 /\ clientHeight (domElement sample) <> 0.
Proof. cbn. split; lra. Qed.

Lemma rotate_keeps_radius_witness :
  exists c',
    run (onMouseDown sample pressAt100) (map MouseMove [moveTo 150 100 1]) = Ok c'
    /\ (state c' = INDETERMINATE \/ state c' = ROTATING)
    /\ distToTarget c' = distToTarget sample
    /\ (state c' = ROTATING ->
        radius c' = distToTarget sample /\ distToTarget c' = radius c').
Proof.
  apply (rotate_keeps_radius sample pressAt100 [moveTo 150 100 1]).
  - apply sample_viewport.
  - apply sample_viewport.
  - apply sample_away.
  - apply sample_up_unit.
  - unfold Vector3.dot; cbn; ring.
  - repeat constructor.
Defined.

(** ** Pole avoidance *)

Lemma dot_normalize_self (v : Vector3.t) :
  Vector3.length v <> 0 -> Vector3.dot (Vector3.normalize v) v = Vector3.length v.
Proof.
  intros H. unfold Vector3.normalize, orOne.
  destruct (Req_dec_T (Vector3.length v) 0); [contradiction|].
  rewrite dot_multiplyScalar_left.
  pose proof (length_sq v) as Hs. unfold Vector3.lengthSq in Hs.
  unfold Vector3.dot. rewrite <- Hs. field. exact H.
Qed.






(** ** Dollying *)

Lemma gtb_true (a b : R) : a > b -> gtb a b = true.
Proof. intros H. unfold gtb. destruct (Rgt_dec a b); [reflexivity|contradiction]. Qed.

Lemma gtb_false (a b : R) : a <= b -> gtb a b = false.
Proof. intros H. unfold gtb. destruct (Rgt_dec a b); [lra|reflexivity]. Qed.

Lemma dollyAccepts_true (c : Controls) (delta : R) :
  dollyAccepts c delta = true
  <-> minDistance c <= distToTarget c + delta
      /\ Bound.le (distToTarget c + delta) (maxDistance c).
Proof.
  unfold dollyAccepts, leb, leb_bound.
  destruct (Rle_dec (minDistance c) (distToTarget c + delta));
    destruct (Bound.le_dec (distToTarget c + delta) (maxDistance c));
    cbn; split; intros H; try discriminate; try tauto.
Qed.

Lemma distToTarget_nonneg (c : Controls) : 0 <= distToTarget c.
Proof. apply length_nonneg. Qed.

Lemma promote_other (c : Controls) (curr : Vector2.t) (s : State) :
  state c <> INDETERMINATE -> promote c curr s = c.
Proof.
  intros H. unfold promote.
  destruct (State_eq_dec (state c) INDETERMINATE); [contradiction|reflexivity].
Qed.

Lemma dollyDelta_ok (c : Controls) (y : R) :
  clientHeight (domElement c) <> 0 ->
  dollyDelta c y
  = Ok (zoomSpeed c
        * (Bound.min (Bound.minus (maxDistance c) (minDistance c))
             (2 * distToTarget c)
           / clientHeight (domElement c))
        * (Vector2.y (prev c) - y)).
Proof.
  intros H. unfold dollyDelta. rewrite (div_ok _ _ H). reflexivity.
Qed.

(** The camera position after an accepted dolly step of [delta]. *)
Lemma length_dollied (p t : Vector3.t) (delta : R) :
  Vector3.length (Vector3.subVectors t p) <> 0 ->
  Vector3.length
    (Vector3.subVectors t
       (Vector3.sub p
          (Vector3.multiplyScalar (Vector3.subVectors t p)
             (delta / Vector3.length (Vector3.subVectors t p)))))
  = Rabs (Vector3.length (Vector3.subVectors t p) + delta).
Proof.
  intros H. apply length_of_lengthSq; [apply Rabs_pos|].
  pose proof (length_sq (Vector3.subVectors t p)) as Hs.
  set (d := Vector3.length (Vector3.subVectors t p)) in *.
  transitivity ((d + delta) * (d + delta)).
  - transitivity (Vector3.lengthSq (Vector3.subVectors t p)
                  * ((1 + delta / d) * (1 + delta / d))).
    + unfold Vector3.lengthSq, Vector3.sub, Vector3.subVectors,
        Vector3.multiplyScalar.
      cbn [Vector3.x Vector3.y Vector3.z]. ring.
    + rewrite <- Hs. field. exact H.
  - pose proof (Rsqr_abs (d + delta)) as Ha. unfold Rsqr in Ha. exact Ha.
Qed.

(** One call of [dolly] in state DOLLYING: the step is dropped whole when
    the distance it asks for is outside the bounds; otherwise it needs a
    positive distance, moves the camera along the view vector, calls
    [update] and advances [prev]. *)
Lemma dolly_dollying (c : Controls) (x y : R) :
  state c = DOLLYING ->
  clientHeight (domElement c) <> 0 ->
  exists delta,
    dollyDelta c y = Ok delta
    /\ (dollyAccepts c delta = false -> dolly c x y = Ok c)
    /\ (dollyAccepts c delta = true -> distToTarget c = 0 ->
        dolly c x y = Err DivisionByZero)
    /\ (dollyAccepts c delta = true -> distToTarget c <> 0 ->
        dolly c x y
        = Ok (with_prev
                (update
                   (with_position c
                      (Vector3.sub (position (object c))
                         (Vector3.multiplyScalar
                            (Vector3.subVectors (target c) (position (object c)))
                            (delta / distToTarget c)))))
                (Vector2.mk x y))).
Proof.
  intros Hs Hh. eexists. split; [apply (dollyDelta_ok c y Hh)|].
  set (delta := zoomSpeed c * _ * _).
  assert (Hp : promote c (Vector2.mk x y) DOLLYING = c)
    by (apply promote_other; rewrite Hs; discriminate).
  assert (Hd : dolly c x y
               = if dollyAccepts c delta then
                   k <- div delta (distToTarget c) ;;
                   Ok (with_prev
                         (update
                            (with_position c
                               (Vector3.sub (position (object c))
                                  (Vector3.multiplyScalar
                                     (Vector3.subVectors (target c)
                                        (position (object c))) k))))
                         (Vector2.mk x y))
                 else Ok c).
  { unfold dolly. rewrite Hp, Hs.
    destruct (State_eq_dec DOLLYING DOLLYING) as [_|N]; [|congruence].
    rewrite (dollyDelta_ok c y Hh). reflexivity. }
  rewrite Hd. repeat split.
  - intros Ha. rewrite Ha. reflexivity.
  - intros Ha Hz. rewrite Ha, Hz, div_zero. reflexivity.
  - intros Ha Hz. rewrite Ha, (div_ok _ _ Hz). reflexivity.
Qed.

Lemma update_distToTarget (c : Controls) :
  distToTarget (update c) = distToTarget c.
Proof. unfold distToTarget. rewrite update_target, update_position. reflexivity. Qed.

Lemma promote_cases (c : Controls) (curr : Vector2.t) (s : State) :
  promote c curr s = c
  \/ (state c = INDETERMINATE
      /\ gtb (Vector2.manhattanDistanceTo curr (prev c)) ClickThreshold = true
      /\ promote c curr s = with_state c s).
Proof.
  unfold promote. destruct (State_eq_dec (state c) INDETERMINATE) as [E|E].
  - destruct (gtb _ ClickThreshold) eqn:G; [right | left]; auto.
  - left; reflexivity.
Qed.

Lemma promote_distToTarget (c : Controls) (curr : Vector2.t) (s : State) :
  distToTarget (promote c curr s) = distToTarget c.
Proof. destruct (promote_cases c curr s) as [H | (_ & _ & H)]; rewrite H; reflexivity. Qed.

Lemma promote_dollyDelta (c : Controls) (curr : Vector2.t) (s : State) (y : R) :
  dollyDelta (promote c curr s) y = dollyDelta c y.
Proof. destruct (promote_cases c curr s) as [H | (_ & _ & H)]; rewrite H; reflexivity. Qed.

Lemma promote_dollyAccepts (c : Controls) (curr : Vector2.t) (s : State) (d : R) :
  dollyAccepts (promote c curr s) d = dollyAccepts c d.
Proof. destruct (promote_cases c curr s) as [H | (_ & _ & H)]; rewrite H; reflexivity. Qed.

Lemma promote_domElement (c : Controls) (curr : Vector2.t) (s : State) :
  domElement (promote c curr s) = domElement c.
Proof. destruct (promote_cases c curr s) as [H | (_ & _ & H)]; rewrite H; reflexivity. Qed.

Lemma promote_idempotent (c : Controls) (curr : Vector2.t) (s : State) :
  s <> INDETERMINATE ->
  promote (promote c curr s) curr s = promote c curr s.
Proof.
  intros Hs. destruct (promote_cases c curr s) as [H | (_ & _ & H)].
  - rewrite H. exact H.
  - rewrite H. apply promote_other. exact Hs.
Qed.

(** [dolly] on any state is the test of the pointer's travel followed by
    [dolly] on the state that test leaves. *)
Lemma dolly_promote (c : Controls) (x y : R) :
  dolly c x y
  = if State_eq_dec (state (promote c (Vector2.mk x y) DOLLYING)) DOLLYING
    then dolly (promote c (Vector2.mk x y) DOLLYING) x y
    else Ok (promote c (Vector2.mk x y) DOLLYING).
Proof.
  unfold dolly at 2.
  rewrite promote_idempotent by discriminate.
  unfold dolly.
  destruct (State_eq_dec (state (promote c (Vector2.mk x y) DOLLYING)) DOLLYING);
    reflexivity.
Qed.

(** C10: a call of [dolly] fails with a division by zero exactly when it
    reaches the branch that moves the camera while the camera is on the
    target; with a positive distance to the target (and a viewport of
    nonzero height) every call returns a controller. *)
Theorem dolly_needs_positive_distance (c : Controls) (x y : R) :
  clientHeight (domElement c) <> 0 ->
  (0 < distToTarget c -> exists c', dolly c x y = Ok c')
  /\ (dolly c x y = Err DivisionByZero
      <-> state (promote c (Vector2.mk x y) DOLLYING) = DOLLYING
          /\ distToTarget c = 0
          /\ exists delta,
               dollyDelta c y = Ok delta /\ dollyAccepts c delta = true).
Proof.
  intros Hh. set (c1 := promote c (Vector2.mk x y) DOLLYING).
  pose proof (dolly_promote c x y) as Hd. fold c1 in Hd.
  destruct (State_eq_dec (state c1) DOLLYING) as [Hs|Hs].
  - assert (Hh1 : clientHeight (domElement c1) <> 0)
      by (unfold c1; rewrite promote_domElement; exact Hh).
    destruct (dolly_dollying c1 x y Hs Hh1) as (delta & Hdelta & Hno & Hzero & Hyes).
    unfold c1 in Hdelta, Hno, Hzero, Hyes.
    rewrite promote_dollyDelta in Hdelta.
    rewrite promote_dollyAccepts, promote_distToTarget in *.
    fold c1 in Hno, Hzero, Hyes.
    destruct (dollyAccepts c delta) eqn:Ha.
    + split.
      * intros Hpos. eexists. rewrite Hd. apply Hyes; [reflexivity | lra].
      * split.
        -- intros He. split; [exact Hs|]. split.
           ++ destruct (Req_dec_T (distToTarget c) 0) as [E|E]; [exact E|].
              rewrite Hd, (Hyes eq_refl E) in He. discriminate.
           ++ exists delta. split; [exact Hdelta | exact Ha].
        -- intros (_ & Hz & _). rewrite Hd. apply Hzero; [reflexivity | exact Hz].
    + split.
      * intros _. exists c1. rewrite Hd. apply Hno. reflexivity.
      * split.
        -- intros He. rewrite Hd, (Hno eq_refl) in He. discriminate.
        -- intros (_ & _ & d' & Hd' & Ha').
           rewrite Hdelta in Hd'. injection Hd' as <-. congruence.
  - split.
    + intros _. exists c1. exact Hd.
    + split.
      * intros He. rewrite Hd in He. discriminate.
      * intros (Hs' & _). contradiction.
Qed.

Lemma dollied_facts (c : Controls) (delta : R) (curr : Vector2.t) :
  state c = DOLLYING ->
  distToTarget c <> 0 ->
  distToTarget (dollied c delta curr) = Rabs (distToTarget c + delta)
  /\ prev (dollied c delta curr) = curr
  /\ trace (dollied c delta curr) = ChangeEvent :: FixUpCall :: trace c
  /\ state (dollied c delta curr) = DOLLYING
  /\ target (dollied c delta curr) = target c
  /\ listening (dollied c delta curr) = listening c
  /\ sameSettings (dollied c delta curr) c.
Proof.
  intros Hs Hd. unfold dollied.
  split.
  { unfold distToTarget at 1. cbn [with_prev target object].
    rewrite update_target, update_position.
    cbn [with_position with_object target object position].
    apply length_dollied. exact Hd. }
  unfold update. cbn [with_position with_object state lookAt object target].
  rewrite Hs. destruct (State_eq_dec DOLLYING ROTATING); [discriminate|].
  unfold sameSettings. cbn. repeat split. exact Hs.
Qed.

Lemma dolly_dollied (c : Controls) (x y : R) :
  state c = DOLLYING ->
  clientHeight (domElement c) <> 0 ->
  (dollyAccepts c (scaledDelta c (Vector2.y (prev c) - y)) = false ->
   dolly c x y = Ok c)
  /\ (dollyAccepts c (scaledDelta c (Vector2.y (prev c) - y)) = true ->
      distToTarget c = 0 -> dolly c x y = Err DivisionByZero)
  /\ (dollyAccepts c (scaledDelta c (Vector2.y (prev c) - y)) = true ->
      distToTarget c <> 0 ->
      dolly c x y
      = Ok (dollied c (scaledDelta c (Vector2.y (prev c) - y)) (Vector2.mk x y))).
Proof.
  intros Hs Hh.
  destruct (dolly_dollying c x y Hs Hh) as (delta & Hdelta & H).
  rewrite (dollyDelta_ok c y Hh) in Hdelta. injection Hdelta as <-.
  exact H.
Qed.

(** One wheel tick. *)
Lemma onMouseWheel_step (c : Controls) (event : WheelEvent) :
  clientHeight (domElement c) <> 0 ->
  (dollyAccepts c (scaledDelta c (deltaY event)) = false ->
   onMouseWheel c event = Ok (wheelStart c))
  /\ (dollyAccepts c (scaledDelta c (deltaY event)) = true ->
      distToTarget c = 0 -> onMouseWheel c event = Err DivisionByZero)
  /\ (dollyAccepts c (scaledDelta c (deltaY event)) = true ->
      distToTarget c <> 0 ->
      onMouseWheel c event
      = Ok (dollied (wheelStart c) (scaledDelta c (deltaY event))
              (Vector2.mk 0 (- deltaY event)))).
Proof.
  intros Hh. unfold onMouseWheel. fold (wheelStart c).
  assert (Hs : state (wheelStart c) = DOLLYING) by reflexivity.
  assert (Hh' : clientHeight (domElement (wheelStart c)) <> 0) by exact Hh.
  pose proof (dolly_dollied (wheelStart c) 0 (- deltaY event) Hs Hh') as H.
  assert (E : scaledDelta (wheelStart c)
                (Vector2.y (prev (wheelStart c)) - - deltaY event)
              = scaledDelta c (deltaY event)).
  { unfold scaledDelta. cbn. unfold distToTarget. cbn. ring. }
  rewrite E in H. exact H.
Qed.

Lemma promote_scaledDelta (c : Controls) (curr : Vector2.t) (s : State) (px : R) :
  scaledDelta (promote c curr s) px = scaledDelta c px.
Proof. destruct (promote_cases c curr s) as [H | (_ & _ & H)]; rewrite H; reflexivity. Qed.

Lemma promote_prev (c : Controls) (curr : Vector2.t) (s : State) :
  prev (promote c curr s) = prev c.
Proof. destruct (promote_cases c curr s) as [H | (_ & _ & H)]; rewrite H; reflexivity. Qed.

Lemma promote_trace (c : Controls) (curr : Vector2.t) (s : State) :
  trace (promote c curr s) = trace c.
Proof. destruct (promote_cases c curr s) as [H | (_ & _ & H)]; rewrite H; reflexivity. Qed.

Lemma promote_listening (c : Controls) (curr : Vector2.t) (s : State) :
  listening (promote c curr s) = listening c.
Proof. destruct (promote_cases c curr s) as [H | (_ & _ & H)]; rewrite H; reflexivity. Qed.

Lemma promote_sameSettings (c : Controls) (curr : Vector2.t) (s : State) :
  sameSettings (promote c curr s) c.
Proof.
  destruct (promote_cases c curr s) as [H | (_ & _ & H)]; rewrite H;
    unfold sameSettings; cbn; repeat split.
Qed.

Lemma sameSettings_trans (a b c : Controls) :
  sameSettings a b -> sameSettings b c -> sameSettings a c.
Proof.
  unfold sameSettings.
  intros (A1 & A2 & A3 & A4 & A5 & A6 & A7 & A8 & A9)
         (B1 & B2 & B3 & B4 & B5 & B6 & B7 & B8 & B9).
  repeat split; congruence.
Qed.

(** The four ways a call of [dolly] can go. *)
Lemma dolly_outcome (c : Controls) (x y : R) :
  clientHeight (domElement c) <> 0 ->
  let c1 := promote c (Vector2.mk x y) DOLLYING in
  let delta := scaledDelta c (Vector2.y (prev c) - y) in
  (state c1 <> DOLLYING /\ dolly c x y = Ok c1)
  \/ (state c1 = DOLLYING /\ dollyAccepts c delta = false /\ dolly c x y = Ok c1)
  \/ (state c1 = DOLLYING /\ dollyAccepts c delta = true /\ distToTarget c = 0
      /\ dolly c x y = Err DivisionByZero)
  \/ (state c1 = DOLLYING /\ dollyAccepts c delta = true /\ distToTarget c <> 0
      /\ dolly c x y = Ok (dollied c1 delta (Vector2.mk x y))).
Proof.
  intros Hh c1 delta.
  pose proof (dolly_promote c x y) as Hd. fold c1 in Hd.
  destruct (State_eq_dec (state c1) DOLLYING) as [Hs|Hs]; [|left; auto].
  right.
  assert (Hh1 : clientHeight (domElement c1) <> 0)
    by (unfold c1; rewrite promote_domElement; exact Hh).
  destruct (dolly_dollied c1 x y Hs Hh1) as (Hno & Hzero & Hyes).
  unfold c1 in Hno, Hzero, Hyes.
  rewrite promote_prev, promote_scaledDelta, promote_dollyAccepts,
    promote_distToTarget in *.
  fold c1 in Hno, Hzero, Hyes. fold delta in Hno, Hzero, Hyes.
  rewrite Hd.
  destruct (dollyAccepts c delta) eqn:Ha.
  - destruct (Req_dec_T (distToTarget c) 0) as [E|E].
    + right; left. auto.
    + right; right. auto.
  - left. auto.
Qed.



(** *** The sample controller under the wheel *)

Lemma sample_distToTarget : distToTarget sample = 5.
Proof.
  unfold distToTarget. apply length_of_lengthSq; [lra|].
  unfold Vector3.lengthSq; cbn; ring.
Qed.

Lemma sample_scaledDelta (px : R) : scaledDelta sample px = px / 32.
Proof.
  unfold scaledDelta. rewrite sample_distToTarget. cbn. field.
Qed.

Lemma sample_dollyAccepts (delta : R) :
  0 <= 5 + delta -> dollyAccepts sample delta = true.
Proof.
  intros H. apply dollyAccepts_true. rewrite sample_distToTarget. cbn.
  split; [exact H | exact I].
Qed.

Lemma sample_wheel (dy : R) :
  0 <= 5 + dy / 32 ->
  onMouseWheel sample (mkWheelEvent dy)
  = Ok (dollied (wheelStart sample) (dy / 32) (Vector2.mk 0 (- dy)))
  /\ distToTarget (dollied (wheelStart sample) (dy / 32) (Vector2.mk 0 (- dy)))
     = 5 + dy / 32.
Proof.
  intros H.
  destruct (onMouseWheel_step sample (mkWheelEvent dy)) as (_ & _ & Hyes);
    [apply sample_viewport|].
  cbn [deltaY] in Hyes. rewrite sample_scaledDelta in Hyes.
  split.
  - apply Hyes; [apply sample_dollyAccepts; exact H|].
    rewrite sample_distToTarget; lra.
  - destruct (dollied_facts (wheelStart sample) (dy / 32) (Vector2.mk 0 (- dy)))
      as (Hd & _); [reflexivity | |].
    + change (distToTarget sample <> 0). rewrite sample_distToTarget; lra.
    + rewrite Hd. change (distToTarget (wheelStart sample)) with (distToTarget sample).
      rewrite sample_distToTarget. apply Rabs_pos_eq. exact H.
Qed.

(** C5 as stated fails: a wheel tick of [deltaY = 32] on the sample
    controller changes the distance to the target by 1, not by 32 in either
    direction. *)
Lemma wheel_delta_scaled_counterexample :
  exists c',
    onMouseWheel sample (mkWheelEvent 32) = Ok c'
    /\ distToTarget c' - distToTarget sample = 1
    /\ distToTarget c' - distToTarget sample <> - deltaY (mkWheelEvent 32)
    /\ distToTarget c' - distToTarget sample <> deltaY (mkWheelEvent 32).
Proof.
  destruct (sample_wheel 32) as [Hw Hd]; [lra|].
  eexists. split; [exact Hw|].
  rewrite Hd, sample_distToTarget. cbn [deltaY].
  repeat split; lra.
Qed.

(** C5, amended: the distance [dolly] adds for a wheel tick is the wheel's
    [deltaY] put through the same pixel-to-world scaling as a drag, and an
    accepted tick changes the distance to the target by exactly that
    amount; the sign flip in [onMouseWheel] is undone by [prev.y - y]. *)
Theorem wheel_delta_scaled (c : Controls) (event : WheelEvent) :
  clientHeight (domElement c) <> 0 ->
  0 < distToTarget c ->
  0 <= minDistance c ->
  (forall y, dollyDelta c y = Ok (scaledDelta c (Vector2.y (prev c) - y)))
  /\ dollyDelta (wheelStart c) (- deltaY event)
     = Ok (scaledDelta c (deltaY event))
  /\ exists c',
       onMouseWheel c event = Ok c'
       /\ (if dollyAccepts c (scaledDelta c (deltaY event))
           then distToTarget c' - distToTarget c = scaledDelta c (deltaY event)
           else distToTarget c' = distToTarget c).
Proof.
  intros Hh Hpos Hmin.
  split; [intros y; apply (dollyDelta_ok c y Hh)|].
  split.
  { rewrite (dollyDelta_ok (wheelStart c)) by exact Hh.
    f_equal. unfold scaledDelta, distToTarget. cbn. ring. }
  destruct (onMouseWheel_step c event Hh) as (Hno & _ & Hyes).
  destruct (dollyAccepts c (scaledDelta c (deltaY event))) eqn:Ha.
  - eexists. split; [apply Hyes; [reflexivity | lra]|].
    destruct (dollied_facts (wheelStart c) (scaledDelta c (deltaY event))
                (Vector2.mk 0 (- deltaY event)))
      as (Hd & _); [reflexivity | change (distToTarget c <> 0); lra |].
    rewrite Hd. change (distToTarget (wheelStart c)) with (distToTarget c).
    apply dollyAccepts_true in Ha. destruct Ha as [Hlo _].
    rewrite Rabs_pos_eq by lra. ring.
  - exists (wheelStart c). split; [apply Hno; reflexivity | reflexivity].
Qed.

Lemma wheel_delta_scaled_witness :
  exists c',
    onMouseWheel sample (mkWheelEvent 32) = Ok c'
    /\ (if dollyAccepts sample (scaledDelta sample (deltaY (mkWheelEvent 32)))
        then distToTarget c' - distToTarget sample
             = scaledDelta sample (deltaY (mkWheelEvent 32))
        else distToTarget c' = distToTarget sample).
Proof.
  apply (wheel_delta_scaled sample (mkWheelEvent 32)).
  - apply sample_viewport.
  - rewrite sample_distToTarget. lra.
  - cbn. lra.
Defined.

Lemma dolly_needs_positive_distance_witness :
  exists c', dolly (wheelStart sample) 0 (-32) = Ok c'.
Proof.
  apply (dolly_needs_positive_distance (wheelStart sample) 0 (-32)).
  - apply sample_viewport.
  - change (0 < distToTarget sample). rewrite sample_distToTarget. lra.
Defined.

(** *** Sequences of dolly steps *)



(** C2: the code at the input where it leaves the bounds.  With
    [minDistance] 0, the default, the sample controller starts within the
    bounds; a wheel tick of [deltaY = -160] is accepted and puts the camera
    exactly on the target, still within the bounds; the next tick, of
    [deltaY = 32], passes the test of the bounds and then divides by the
    zero distance, so that no distance within the bounds comes out of this
    step. *)
Lemma dolly_bounds_counterexample :
  withinBounds sample
  /\ Forall isDollyStep [Wheel (mkWheelEvent (-160)); Wheel (mkWheelEvent 32)]
  /\ (exists c1,
        run sample [Wheel (mkWheelEvent (-160))] = Ok c1
        /\ distToTarget c1 = 0 /\ withinBounds c1)
  /\ run sample [Wheel (mkWheelEvent (-160)); Wheel (mkWheelEvent 32)]
     = Err DivisionByZero.
Proof.
  assert (Hin : withinBounds sample).
  { unfold withinBounds. rewrite sample_distToTarget. cbn. split; [lra | exact I]. }
  destruct (sample_wheel (-160)) as [Hw Hd]; [lra|].
  set (c1 := dollied (wheelStart sample) (-160 / 32) (Vector2.mk 0 (- -160))) in *.
  assert (Hd0 : distToTarget c1 = 0) by (rewrite Hd; lra).
  destruct (dollied_facts (wheelStart sample) (-160 / 32) (Vector2.mk 0 (- -160)))
    as (_ & _ & _ & _ & _ & _ & Hset);
    [reflexivity | change (distToTarget sample <> 0); rewrite sample_distToTarget; lra |].
  fold c1 in Hset.
  destruct Hset as (Edom & _ & Ezoom & Emin & Emax & _).
  change (domElement (wheelStart sample)) with (domElement sample) in Edom.
  change (zoomSpeed (wheelStart sample)) with (zoomSpeed sample) in Ezoom.
  change (minDistance (wheelStart sample)) with (minDistance sample) in Emin.
  change (maxDistance (wheelStart sample)) with (maxDistance sample) in Emax.
  assert (Hin1 : withinBounds c1).
  { unfold withinBounds. rewrite Emin, Emax, Hd0. cbn. split; [lra | exact I]. }
  split; [exact Hin|]. split; [repeat constructor|]. split.
  - exists c1. cbn [run handle]. rewrite Hw. cbn [bind]. auto.
  - cbn [run handle]. rewrite Hw. cbn [bind].
    destruct (onMouseWheel_step c1 (mkWheelEvent 32)) as (_ & Hzero & _).
    { rewrite Edom. apply sample_viewport. }
    rewrite Hzero; [reflexivity | | exact Hd0].
    apply dollyAccepts_true. rewrite Emin, Emax, Hd0.
    unfold scaledDelta. rewrite Emin, Emax, Ezoom, Edom, Hd0. cbn.
    split; [|exact I].
    replace (1 * (2 * 0 / 320) * 32) with 0 by field. lra.
Qed.




(** ** Panning *)

Lemma pan_panning (c : Controls) (x y : R) :
  state c = PANNING ->
  distToTarget c <> 0 ->
  clientHeight (domElement c) <> 0 ->
  pan c x y = Ok (panned c (Vector2.mk x y)).
Proof.
  intros Hs Hd Hh. unfold pan.
  rewrite promote_other by (rewrite Hs; discriminate).
  rewrite Hs. destruct (State_eq_dec PANNING PANNING) as [_|N]; [|congruence].
  unfold Vector3.divideScalar. unfold distToTarget in Hd.
  rewrite (div_ok _ _ Hd). cbn [bind].
  rewrite div_ok by lra. cbn [bind].
  reflexivity.
Qed.

Lemma pan_not_panning (c : Controls) (x y : R) :
  state (promote c (Vector2.mk x y) PANNING) <> PANNING ->
  pan c x y = Ok (promote c (Vector2.mk x y) PANNING).
Proof.
  intros Hs. unfold pan.
  destruct (State_eq_dec (state (promote c (Vector2.mk x y) PANNING)) PANNING);
    [contradiction | reflexivity].
Qed.

Lemma pan_promote (c : Controls) (x y : R) :
  state (promote c (Vector2.mk x y) PANNING) = PANNING ->
  pan c x y = pan (promote c (Vector2.mk x y) PANNING) x y.
Proof.
  intros Hs. unfold pan at 2. rewrite promote_idempotent by discriminate.
  reflexivity.
Qed.

Lemma subVectors_addVectors (p v : Vector3.t) :
  Vector3.subVectors (Vector3.addVectors p v) p = v.
Proof. apply vector3_ext; cbn; ring. Qed.

Lemma multiplyScalar_rescale (d : Vector3.t) (l : R) :
  l <> 0 -> Vector3.multiplyScalar (Vector3.multiplyScalar d (1 / l)) l = d.
Proof. intros H. apply vector3_ext; cbn; field; exact H. Qed.

Lemma panned_facts (c : Controls) (curr : Vector2.t) :
  state c = PANNING ->
  distToTarget c <> 0 ->
  Vector3.subVectors (target (panned c curr)) (position (object (panned c curr)))
  = Vector3.subVectors (target c) (position (object c))
  /\ prev (panned c curr) = curr
  /\ trace (panned c curr) = ChangeEvent :: FixUpCall :: trace c
  /\ state (panned c curr) = PANNING
  /\ listening (panned c curr) = listening c
  /\ sameSettings (panned c curr) c.
Proof.
  intros Hs Hd. unfold panned. split.
  { cbn [with_prev target object]. rewrite update_target, update_position.
    cbn [with_target with_position with_object target object position].
    rewrite subVectors_addVectors. apply multiplyScalar_rescale. exact Hd. }
  unfold update. cbn [with_target with_position with_object state lookAt object target].
  rewrite Hs. destruct (State_eq_dec PANNING ROTATING); [discriminate|].
  unfold sameSettings. cbn. repeat split. exact Hs.
Qed.

Lemma panned_distToTarget (c : Controls) (curr : Vector2.t) :
  state c = PANNING -> distToTarget c <> 0 ->
  distToTarget (panned c curr) = distToTarget c.
Proof.
  intros Hs Hd. unfold distToTarget.
  destruct (panned_facts c curr Hs Hd) as (H & _). rewrite H. reflexivity.
Qed.

(** ** Effects of the handlers *)

Ltac break_if :=
  match goal with
  | |- context [if ?b then _ else _] => destruct b
  | |- context [bind ?m _] => destruct m eqn:?; cbn [bind]
  end.

Lemma captureFrame_fields (c c' : Controls) :
  captureFrame c = Ok c' ->
  state c' = state c /\ trace c' = trace c /\ object c' = object c
  /\ target c' = target c /\ listening c' = listening c /\ prev c' = prev c
  /\ sameSettings c' c.
Proof.
  unfold captureFrame, Vector3.divideScalar, div.
  destruct (Req_dec_T _ 0); cbn [bind]; intros E; [discriminate|].
  injection E as <-. unfold sameSettings. cbn. repeat split.
Qed.

(** [rotate] either leaves the controller as it is or, in state ROTATING,
    moves the camera and emits one change event without calling [fixUp]. *)
Lemma rotate_effects (c : Controls) (x y : R) (c' : Controls) :
  rotate c x y = Ok c' ->
  c' = c
  \/ (state c' = ROTATING
      /\ (state c = INDETERMINATE \/ state c = ROTATING)
      /\ trace c' = ChangeEvent :: trace c
      /\ listening c' = listening c
      /\ sameSettings c' c).
Proof.
  unfold rotate.
  assert (Hstep : forall c1,
    (if State_eq_dec (state c1) ROTATING then
       phi <- rotatePhi c1 (Vector2.mk x y) ;;
       theta <- rotateTheta c1 (Vector2.mk x y) ;;
       pos <- Vector3.applyMatrix4 (sphericalPos (radius c1) theta phi)
                (basisMatrix c1) ;;
       Ok (update (with_position c1 pos))
     else Ok c1) = Ok c' ->
    (state c1 <> ROTATING /\ c' = c1)
    \/ (state c1 = ROTATING /\ state c' = ROTATING
        /\ trace c' = ChangeEvent :: trace c1
        /\ listening c' = listening c1 /\ sameSettings c' c1)).
  { intros c1. destruct (State_eq_dec (state c1) ROTATING) as [Hs|Hs].
    - repeat break_if; intros E; try discriminate. injection E as <-.
      right. unfold update, sameSettings.
      cbn [with_position with_object state lookAt object target].
      rewrite Hs. destruct (State_eq_dec ROTATING ROTATING) as [_|N]; [|congruence].
      cbn. repeat split; assumption.
    - intros E. injection E as <-. left. auto. }
  destruct (State_eq_dec (state c) INDETERMINATE) as [Hi|Hi].
  - destruct (gtb _ ClickThreshold).
    + destruct (captureFrame (with_state c ROTATING)) as [c1|err] eqn:Hc;
        cbn [bind]; [|discriminate].
      destruct (captureFrame_fields _ _ Hc) as (Hs1 & Ht1 & _ & _ & Hl1 & _ & Hset1).
      intros E. destruct (Hstep c1 E) as [(N & _) | (_ & Hs' & Ht' & Hl' & Hset')].
      * cbn in Hs1. contradiction.
      * right. cbn in Hs1, Ht1, Hl1.
        split; [exact Hs'|]. split; [left; exact Hi|].
        split; [congruence|]. split; [congruence|].
        apply (sameSettings_trans _ _ _ Hset'). exact Hset1.
    + cbn [bind]. intros E.
      destruct (Hstep c E) as [(_ & ->) | (Hs & _)]; [left; reflexivity | congruence].
  - cbn [bind]. intros E.
    destruct (Hstep c E) as [(_ & ->) | (Hs & Hs' & Ht' & Hl' & Hset')];
      [left; reflexivity | right; auto 10].
Qed.

(** [dolly] either stops after the test of the pointer's travel or, in
    state DOLLYING, moves the camera, calls [fixUp] through [update] and
    emits one change event. *)
Lemma dolly_effects (c : Controls) (x y : R) (c' : Controls) :
  dolly c x y = Ok c' ->
  c' = promote c (Vector2.mk x y) DOLLYING
  \/ (state c' = DOLLYING
      /\ trace c' = ChangeEvent :: FixUpCall :: trace c
      /\ listening c' = listening c
      /\ sameSettings c' c).
Proof.
  unfold dolly. set (c1 := promote c (Vector2.mk x y) DOLLYING).
  destruct (State_eq_dec (state c1) DOLLYING) as [Hs|Hs];
    [|intros E; injection E as <-; left; reflexivity].
  destruct (dollyDelta c1 y) as [delta|err]; cbn [bind]; [|discriminate].
  destruct (dollyAccepts c1 delta);
    [|intros E; injection E as <-; left; reflexivity].
  destruct (div delta (distToTarget c1)) as [k|err]; cbn [bind]; [|discriminate].
  intros E. injection E as <-. right.
  unfold update. cbn [with_prev with_position with_object state lookAt object target].
  rewrite Hs. destruct (State_eq_dec DOLLYING ROTATING); [discriminate|].
  cbn [with_prev fixUp dispatchEvent record with_up with_object state trace listening].
  split; [exact Hs|]. split; [do 2 f_equal; apply promote_trace|].
  split; [apply promote_listening|].
  apply (sameSettings_trans _ c1); [|apply promote_sameSettings].
  unfold sameSettings. cbn. repeat split.
Qed.

(** [pan] either stops after the test of the pointer's travel, in a state
    other than PANNING, or moves camera and target, calls [fixUp] through
    [update] and emits one change event. *)
Lemma pan_effects (c : Controls) (x y : R) (c' : Controls) :
  pan c x y = Ok c' ->
  (c' = promote c (Vector2.mk x y) PANNING /\ state c' <> PANNING)
  \/ (state c' = PANNING
      /\ trace c' = ChangeEvent :: FixUpCall :: trace c
      /\ listening c' = listening c
      /\ sameSettings c' c).
Proof.
  unfold pan. set (c1 := promote c (Vector2.mk x y) PANNING).
  destruct (State_eq_dec (state c1) PANNING) as [Hs|Hs];
    [|intros E; injection E as <-; left; auto].
  destruct (Vector3.divideScalar _ _) as [zAxis|err]; cbn [bind]; [|discriminate].
  destruct (div _ _) as [pxToWorld|err]; cbn [bind]; [|discriminate].
  intros E. injection E as <-. right.
  unfold update.
  cbn [with_prev with_target with_position with_object state lookAt object target].
  rewrite Hs. destruct (State_eq_dec PANNING ROTATING); [discriminate|].
  cbn [with_prev fixUp dispatchEvent record with_up with_object with_target
       with_position state trace listening].
  split; [exact Hs|]. split; [do 2 f_equal; apply promote_trace|].
  split; [apply promote_listening|].
  apply (sameSettings_trans _ c1); [|apply promote_sameSettings].
  unfold sameSettings. cbn. repeat split.
Qed.

Lemma onMouseUp_fields (c : Controls) :
  state (onMouseUp c) = INACTIVE
  /\ listening (onMouseUp c) = false
  /\ clicked (onMouseUp c)
     = (if State_eq_dec (state c) INDETERMINATE then true else false)
  /\ trace (onMouseUp c)
     = (if State_eq_dec (state c) ROTATING then FixUpCall :: trace c else trace c)
  /\ position (object (onMouseUp c)) = position (object c)
  /\ target (onMouseUp c) = target c.
Proof.
  unfold onMouseUp.
  destruct (State_eq_dec (state c) ROTATING) as [Hs|Hs]; cbn.
  - rewrite Hs. destruct (State_eq_dec ROTATING INDETERMINATE); [discriminate|].
    repeat split.
  - repeat split.
Qed.

Lemma promote_exceeds (c : Controls) (curr : Vector2.t) (s : State) :
  state c = INDETERMINATE ->
  Vector2.manhattanDistanceTo curr (prev c) > ClickThreshold ->
  promote c curr s = with_state c s.
Proof.
  intros Hs Hd. unfold promote. rewrite Hs.
  destruct (State_eq_dec INDETERMINATE INDETERMINATE) as [_|N]; [|congruence].
  rewrite (gtb_true _ _ Hd). reflexivity.
Qed.

Lemma promote_within (c : Controls) (curr : Vector2.t) (s : State) :
  Vector2.manhattanDistanceTo curr (prev c) <= ClickThreshold ->
  promote c curr s = c.
Proof.
  intros Hd. unfold promote. rewrite (gtb_false _ _ Hd).
  destruct (State_eq_dec (state c) INDETERMINATE); reflexivity.
Qed.





(** ** Clicks and drags *)

Lemma run_app (c : Controls) (es1 es2 : list Event) :
  run c (es1 ++ es2) = (c' <- run c es1 ;; run c' es2).
Proof.
  revert c. induction es1 as [|e es1 IH]; intros c; cbn [app run bind].
  - reflexivity.
  - destruct (handle c e); cbn [bind]; [apply IH | reflexivity].
Qed.

Lemma onMouseMove_gestureOf (c : Controls) (event : MouseEvent) :
  onMouseMove c event
  = match gestureOf c event with
    | Some ROTATING => rotate c (clientX event) (clientY event)
    | Some PANNING => pan c (clientX event) (clientY event)
    | Some DOLLYING => dolly c (clientX event) (clientY event)
    | _ => Ok c
    end.
Proof.
  unfold onMouseMove, gestureOf.
  destruct (Z.eqb (buttons event) 1).
  - destruct (eventHasPanModifier c event); reflexivity.
  - destruct (Z.eqb (buttons event) 2); [reflexivity|].
    destruct (Z.eqb (buttons event) 4); reflexivity.
Qed.

Lemma rotate_other (c : Controls) (x y : R) :
  state c <> INDETERMINATE -> state c <> ROTATING -> rotate c x y = Ok c.
Proof.
  intros Hi Hr. unfold rotate.
  destruct (State_eq_dec (state c) INDETERMINATE); [contradiction|].
  cbn [bind]. destruct (State_eq_dec (state c) ROTATING); [contradiction|].
  reflexivity.
Qed.

Lemma dolly_other (c : Controls) (x y : R) :
  state (promote c (Vector2.mk x y) DOLLYING) <> DOLLYING ->
  dolly c x y = Ok (promote c (Vector2.mk x y) DOLLYING).
Proof.
  intros Hs. unfold dolly.
  destruct (State_eq_dec (state (promote c (Vector2.mk x y) DOLLYING)) DOLLYING);
    [contradiction | reflexivity].
Qed.

(** A move that stays within the threshold of the press, or comes with an
    ignored combination of buttons, leaves an indeterminate press as it
    is. *)
Lemma onMouseMove_idle (c : Controls) (event : MouseEvent) :
  state c = INDETERMINATE ->
  exceeds (prev c) event = false \/ gestureOf c event = None ->
  onMouseMove c event = Ok c.
Proof.
  intros Hs H. rewrite onMouseMove_gestureOf.
  destruct H as [H | H]; [|rewrite H; reflexivity].
  unfold exceeds in H.
  assert (Hp : forall s, promote c (Vector2.mk (clientX event) (clientY event)) s = c).
  { intros s. unfold promote. rewrite H.
    destruct (State_eq_dec (state c) INDETERMINATE); reflexivity. }
  destruct (gestureOf c event) as [[| | | |]|]; try reflexivity.
  - apply rotate_below_threshold; assumption.
  - rewrite dolly_other; rewrite (Hp DOLLYING); [reflexivity|].
    rewrite Hs; discriminate.
  - rewrite pan_not_panning; rewrite (Hp PANNING); [reflexivity|].
    rewrite Hs; discriminate.
Qed.

Lemma run_idle_moves (c : Controls) (moves : list MouseEvent) :
  state c = INDETERMINATE ->
  listening c = true ->
  Forall (fun event => exceeds (prev c) event = false \/ gestureOf c event = None)
    moves ->
  run c (map MouseMove moves) = Ok c.
Proof.
  intros Hs Hl Hall. induction Hall as [|m ms Hm _ IH]; [reflexivity|].
  cbn [map run handle]. rewrite Hl, (onMouseMove_idle c m Hs Hm). exact IH.
Qed.

(** In a confirmed rotate or pan gesture every move is processed, the
    gesture stays what it is and no change event is taken back. *)
Lemma dragging_move (c : Controls) (event : MouseEvent) :
  dragging c ->
  exists c',
    onMouseMove c event = Ok c' /\ dragging c'
    /\ (changeEvents (trace c) <= changeEvents (trace c'))%nat.
Proof.
  intros (Hl & Hw & Hh & Hcase). rewrite onMouseMove_gestureOf.
  assert (Hsame : exists c', Ok c = Ok c' /\ dragging c'
                             /\ (changeEvents (trace c) <= changeEvents (trace c'))%nat).
  { exists c. split; [reflexivity|]. split; [|lia]. unfold dragging. auto. }
  destruct Hcase as [(Hs & xAxis & yAxis & zAxis & Hm) | (Hs & Hd)].
  - destruct (gestureOf c event) as [[| | | |]|]; try exact Hsame.
    + destruct (rotate_rotating c (clientX event) (clientY event) _ _ _ Hs Hm Hw Hh)
        as (theta & phi & _ & _ & Hrot).
      rewrite Hrot. eexists. split; [reflexivity|].
      unfold dragging, update.
      cbn [with_position with_object state lookAt object target].
      rewrite Hs. destruct (State_eq_dec ROTATING ROTATING) as [_|N]; [|congruence].
      cbn. split; [|lia]. split; [exact Hl|]. split; [exact Hw|].
      split; [exact Hh|].
      left. split; [exact Hs|]. exists xAxis, yAxis, zAxis. exact Hm.
    + rewrite dolly_other; rewrite promote_other; try exact Hsame;
        rewrite Hs; discriminate.
    + rewrite pan_not_panning; rewrite promote_other; try exact Hsame;
        rewrite Hs; discriminate.
  - destruct (gestureOf c event) as [[| | | |]|]; try exact Hsame.
    + rewrite rotate_other; [exact Hsame | |]; rewrite Hs; discriminate.
    + rewrite dolly_other; rewrite promote_other; try exact Hsame;
        rewrite Hs; discriminate.
    + rewrite (pan_panning c _ _ Hs Hd Hh). eexists. split; [reflexivity|].
      destruct (panned_facts c (Vector2.mk (clientX event) (clientY event)) Hs Hd)
        as (_ & _ & Ht & Hs' & Hl' & Hdom & _).
      unfold dragging. rewrite Hl', Hdom, Ht, Hs', panned_distToTarget by assumption.
      split; [|cbn; lia]. split; [exact Hl|]. split; [exact Hw|].
      split; [exact Hh|]. right; auto.
Qed.

Lemma dragging_moves (moves : list MouseEvent) :
  forall c, dragging c ->
  exists c',
    run c (map MouseMove moves) = Ok c' /\ dragging c'
    /\ (changeEvents (trace c) <= changeEvents (trace c'))%nat.
Proof.
  induction moves as [|m ms IH]; intros c Hd.
  - exists c. split; [reflexivity|]. split; [exact Hd | lia].
  - destruct (dragging_move c m Hd) as (c1 & H1 & Hd1 & Hle1).
    destruct (IH c1 Hd1) as (c' & H' & Hd' & Hle').
    exists c'. split; [|split; [exact Hd' | lia]].
    cbn [map run handle]. destruct Hd as (Hl & _). rewrite Hl, H1. exact H'.
Qed.

(** The first move that confirms a rotate or a pan moves the camera. *)
Lemma confirm_move (c : Controls) (event : MouseEvent) :
  state c = INDETERMINATE ->
  listening c = true ->
  clientWidth (domElement c) <> 0 ->
  clientHeight (domElement c) <> 0 ->
  position (object c) <> target c ->
  exceeds (prev c) event = true ->
  gestureOf c event = Some ROTATING \/ gestureOf c event = Some PANNING ->
  exists c',
    onMouseMove c event = Ok c' /\ dragging c'
    /\ changeEvents (trace c') = S (changeEvents (trace c)).
Proof.
  intros Hs Hl Hw Hh Hne He Hg. rewrite onMouseMove_gestureOf.
  set (x := clientX event) in *. set (y := clientY event) in *.
  unfold exceeds in He. fold x y in He.
  destruct Hg as [Hg | Hg]; rewrite Hg.
  - pose proof (length_nonzero _ _ Hne) as Hr.
    rewrite (rotate_promoted c x y Hs He Hr).
    destruct (rotate_rotating (captured c) x y
                (rightAxis (position (object c)) (target c) (up (object c)))
                (up (object c))
                (viewAxis (position (object c)) (target c)))
      as (theta & phi & _ & _ & Hrot); try assumption; try reflexivity.
    rewrite Hrot. eexists. split; [reflexivity|].
    unfold dragging, update. cbn. split; [|reflexivity].
    split; [exact Hl|]. split; [exact Hw|]. split; [exact Hh|].
    left. split; [reflexivity|]. eauto.
  - assert (Hp : promote c (Vector2.mk x y) PANNING = with_state c PANNING).
    { apply promote_exceeds; [exact Hs|].
      unfold gtb in He. destruct (Rgt_dec _ ClickThreshold); [assumption|discriminate]. }
    assert (Hd : distToTarget (with_state c PANNING) <> 0).
    { change (distToTarget c <> 0). unfold distToTarget.
      rewrite <- length_subVectors_comm. apply length_nonzero. exact Hne. }
    rewrite pan_promote by (rewrite Hp; reflexivity).
    rewrite Hp, (pan_panning (with_state c PANNING) x y eq_refl Hd Hh).
    eexists. split; [reflexivity|].
    destruct (panned_facts (with_state c PANNING) (Vector2.mk x y) eq_refl Hd)
      as (_ & _ & Ht & Hs' & Hl' & Hdom & _).
    unfold dragging.
    rewrite Hl', Hdom, Ht, Hs', panned_distToTarget by (reflexivity || assumption).
    split; [|reflexivity].
    split; [exact Hl|]. split; [exact Hw|]. split; [exact Hh|]. right; auto.
Qed.

Lemma promote_state (c : Controls) (curr : Vector2.t) (s : State) :
  state (promote c curr s) = state c
  \/ (state c = INDETERMINATE /\ state (promote c curr s) = s).
Proof.
  destruct (promote_cases c curr s) as [H | (Hs & _ & H)]; rewrite H; auto.
Qed.

(** Once a gesture is confirmed, no move returns it to INDETERMINATE or
    detaches the listeners. *)
Lemma confirmed_move (c : Controls) (event : MouseEvent) (c' : Controls) :
  onMouseMove c event = Ok c' ->
  listening c' = listening c
  /\ (state c' = state c
      \/ (state c = INDETERMINATE
          /\ (state c' = ROTATING \/ state c' = DOLLYING \/ state c' = PANNING))).
Proof.
  rewrite onMouseMove_gestureOf.
  destruct (gestureOf c event) as [[| | | |]|];
    try (intros E; injection E as <-; auto).
  - intros H. destruct (rotate_effects _ _ _ _ H) as [-> | (Hs' & Hs & _ & Hl & _)];
      [auto|].
    split; [exact Hl|]. destruct Hs as [Hs | Hs]; [right; auto | left; congruence].
  - intros H.
    destruct (promote_state c (Vector2.mk (clientX event) (clientY event)) DOLLYING)
      as [Hp | (Hi & Hp)].
    + destruct (dolly_effects _ _ _ _ H) as [-> | (Hs' & _ & Hl & _)].
      * rewrite promote_listening. auto.
      * split; [exact Hl|].
        destruct (State_eq_dec (state c) DOLLYING) as [E|E]; [left; congruence|].
        rewrite dolly_other in H by (rewrite Hp; exact E).
        injection H as <-. left. exact Hp.
    + destruct (dolly_effects _ _ _ _ H) as [-> | (Hs' & _ & Hl & _)].
      * rewrite promote_listening. auto 6.
      * auto 6.
  - intros H.
    destruct (promote_state c (Vector2.mk (clientX event) (clientY event)) PANNING)
      as [Hp | (Hi & Hp)].
    + destruct (pan_effects _ _ _ _ H) as [(-> & _) | (Hs' & _ & Hl & _)].
      * rewrite promote_listening. auto.
      * split; [exact Hl|].
        destruct (State_eq_dec (state c) PANNING) as [E|E]; [left; congruence|].
        rewrite pan_not_panning in H by (rewrite Hp; exact E).
        injection H as <-. left. exact Hp.
    + destruct (pan_effects _ _ _ _ H) as [(-> & _) | (Hs' & _ & Hl & _)].
      * rewrite promote_listening. auto 6.
      * auto 6.
Qed.

Lemma confirmed_moves (moves : list MouseEvent) :
  forall c c',
    listening c = true ->
    state c = ROTATING \/ state c = DOLLYING \/ state c = PANNING ->
    run c (map MouseMove moves) = Ok c' ->
    listening c' = true
    /\ (state c' = ROTATING \/ state c' = DOLLYING \/ state c' = PANNING).
Proof.
  induction moves as [|m ms IH]; intros c c' Hl Hs H.
  - injection H as <-. auto.
  - cbn [map run handle] in H. rewrite Hl in H.
    destruct (onMouseMove c m) as [c1|err] eqn:H1; [|discriminate].
    cbn [bind] in H. destruct (confirmed_move c m c1 H1) as [Hl1 Hs1].
    apply (IH c1 c'); [congruence | | exact H].
    destruct Hs1 as [Hs1 | (Hi & _)].
    + rewrite Hs1. exact Hs.
    + rewrite Hi in Hs. destruct Hs as [Hs | [Hs | Hs]]; discriminate.
Qed.

Lemma onMouseUp_unconfirmed (c : Controls) :
  state c = INDETERMINATE ->
  clicked (onMouseUp c) = true
  /\ object (onMouseUp c) = object c
  /\ target (onMouseUp c) = target c
  /\ trace (onMouseUp c) = trace c.
Proof.
  intros Hs. unfold onMouseUp. rewrite Hs.
  destruct (State_eq_dec INDETERMINATE ROTATING); [discriminate|].
  cbn. rewrite Hs.
  destruct (State_eq_dec INDETERMINATE INDETERMINATE); [|congruence].
  repeat split.
Qed.

Lemma onMouseUp_confirmed (c : Controls) :
  state c = ROTATING \/ state c = DOLLYING \/ state c = PANNING ->
  clicked (onMouseUp c) = false
  /\ changeEvents (trace (onMouseUp c)) = changeEvents (trace c).
Proof.
  intros Hs. destruct (onMouseUp_fields c) as (_ & _ & Hc & Ht & _).
  rewrite Hc, Ht. split.
  - destruct (State_eq_dec (state c) INDETERMINATE) as [E|_]; [|reflexivity].
    rewrite E in Hs. destruct Hs as [Hs | [Hs | Hs]]; discriminate.
  - destruct (State_eq_dec (state c) ROTATING); reflexivity.
Qed.

(** A press, moves that leave the press as it is, a first move beyond the
    threshold with the wheel button, and the release: the move is one call
    of [dolly], which either moves the camera and emits one change event or
    leaves camera, target and trace alone, by the test of the bounds. *)
Lemma confirm_dolly (c0 : Controls) (press : MouseEvent)
    (pre : list MouseEvent) (event : MouseEvent) :
  clientHeight (domElement c0) <> 0 ->
  position (object c0) <> target c0 ->
  run (onMouseDown c0 press) (map MouseMove pre) = Ok (onMouseDown c0 press) ->
  exceeds (Vector2.mk (clientX press) (clientY press)) event = true ->
  gestureOf c0 event = Some DOLLYING ->
  exists c',
    run c0 (MouseDown press :: map MouseMove (pre ++ [event]) ++ [MouseUp]) = Ok c'
    /\ clicked c' = false
    /\ (dollyAccepts c0 (scaledDelta c0 (clientY press - clientY event)) = true ->
        changeEvents (trace c') = S (changeEvents (trace c0)))
    /\ (dollyAccepts c0 (scaledDelta c0 (clientY press - clientY event)) = false ->
        object c' = object c0 /\ target c' = target c0 /\ trace c' = trace c0).
Proof.
  intros Hh Hne Hpre He Hg.
  set (c := onMouseDown c0 press) in *.
  set (x := clientX event). set (y := clientY event).
  set (delta := scaledDelta c0 (clientY press - y)).
  assert (Hs : state c = INDETERMINATE) by reflexivity.
  assert (Hl : listening c = true) by reflexivity.
  assert (Hp : promote c (Vector2.mk x y) DOLLYING = with_state c DOLLYING).
  { apply promote_exceeds; [exact Hs|]. unfold exceeds, gtb in He.
    destruct (Rgt_dec _ ClickThreshold); [assumption | discriminate]. }
  assert (Hz : distToTarget c <> 0).
  { change (distToTarget c0 <> 0). unfold distToTarget.
    rewrite <- length_subVectors_comm. apply length_nonzero. exact Hne. }
  assert (Hmove : onMouseMove c event = dolly c x y).
  { rewrite onMouseMove_gestureOf.
    change (gestureOf c event) with (gestureOf c0 event). rewrite Hg. reflexivity. }
  assert (Hrun : forall c1,
            dolly c x y = Ok c1 -> listening c1 = true ->
            run c0 (MouseDown press :: map MouseMove (pre ++ [event]) ++ [MouseUp])
            = Ok (onMouseUp c1)).
  { intros c1 Hd Hl1. cbn [run handle bind]. fold c.
    rewrite run_app, map_app, run_app, Hpre.
    cbn [bind map run handle]. rewrite Hl, Hmove, Hd. cbn [bind]. rewrite Hl1.
    reflexivity. }
  destruct (dolly_outcome c x y Hh)
    as [(N & _) | [(_ & Ha & Hd) | [(_ & _ & E & _) | (_ & Ha & _ & Hd)]]].
  - rewrite Hp in N. cbn in N. congruence.
  - rewrite Hp in Hd. change (dollyAccepts c0 delta = false) in Ha.
    exists (onMouseUp (with_state c DOLLYING)).
    split; [apply Hrun; [exact Hd | reflexivity]|].
    split; [apply onMouseUp_confirmed; right; left; reflexivity|].
    split; [fold delta; congruence|].
    intros _. unfold onMouseUp. cbn. repeat split.
  - contradiction.
  - rewrite Hp in Hd. change (dollyAccepts c0 delta = true) in Ha.
    destruct (dollied_facts (with_state c DOLLYING) delta (Vector2.mk x y))
      as (_ & _ & Ht & Hs1 & _ & Hl1 & _); [reflexivity | exact Hz |].
    exists (onMouseUp (dollied (with_state c DOLLYING) delta (Vector2.mk x y))).
    split; [apply Hrun; [exact Hd | rewrite Hl1; reflexivity]|].
    destruct (onMouseUp_confirmed
                (dollied (with_state c DOLLYING) delta (Vector2.mk x y)))
      as [Hc Hce]; [right; left; exact Hs1|].
    split; [exact Hc|]. split; [|fold delta; congruence].
    intros _. rewrite Hce, Ht. reflexivity.
Qed.

(** A wheel tick between a press and its release moves the camera and
    makes the release report no click, although the pointer never moved. *)
Lemma sample_press_wheel_release :
  exists c',
    run sample [MouseDown pressAt100; Wheel (mkWheelEvent 32); MouseUp] = Ok c'
    /\ clicked c' = false
    /\ distToTarget c' = 6
    /\ distToTarget sample = 5.
Proof.
  set (c := onMouseDown sample pressAt100).
  assert (Hd : distToTarget c = 5) by apply sample_distToTarget.
  assert (Hsd : scaledDelta c 32 = 1).
  { change (scaledDelta c 32) with (scaledDelta sample 32).
    rewrite sample_scaledDelta. field. }
  destruct (onMouseWheel_step c (mkWheelEvent 32)) as (_ & _ & Hyes);
    [apply sample_viewport|].
  cbn [deltaY] in Hyes. rewrite Hsd in Hyes.
  assert (Hw : onMouseWheel c (mkWheelEvent 32)
               = Ok (dollied (wheelStart c) 1 (Vector2.mk 0 (- (32))))).
  { apply Hyes; [|rewrite Hd; lra].
    apply dollyAccepts_true. rewrite Hd. cbn. split; [lra | exact I]. }
  destruct (dollied_facts (wheelStart c) 1 (Vector2.mk 0 (- (32))))
    as (Hdist & _ & _ & Hs & _ & Hl & _);
    [reflexivity | change (distToTarget c <> 0); rewrite Hd; lra |].
  change (distToTarget (wheelStart c)) with (distToTarget c) in Hdist.
  rewrite Hd, Rabs_pos_eq in Hdist by lra.
  exists (onMouseUp (dollied (wheelStart c) 1 (Vector2.mk 0 (- (32))))).
  split; [|split; [|split]].
  - cbn [run handle bind]. fold c. rewrite Hw. cbn [bind]. rewrite Hl.
    reflexivity.
  - apply onMouseUp_confirmed. right; left. exact Hs.
  - destruct (onMouseUp_fields (dollied (wheelStart c) 1 (Vector2.mk 0 (- (32)))))
      as (_ & _ & _ & _ & Hp & Ht).
    unfold distToTarget in *. rewrite Hp, Ht, Hdist. lra.
  - apply sample_distToTarget.
Qed.

(** C7 as stated fails: a drag with the wheel button far beyond the
    threshold, whose dolly step the distance bounds reject, ends with
    [clicked = false] and yet without any change to the camera; and a press
    and a release with no move at all between them, but a wheel tick, end
    with [clicked = false] and the camera moved. *)
Lemma click_or_drag_counterexample :
  (exceeds (Vector2.mk 100 100) (moveTo 100 292 4) = true
   /\ gestureOf sample (moveTo 100 292 4) = Some DOLLYING
   /\ exists c',
        run sample [MouseDown pressAt100; MouseMove (moveTo 100 292 4); MouseUp]
        = Ok c'
        /\ clicked c' = false
        /\ object c' = object sample
        /\ target c' = target sample
        /\ trace c' = trace sample)
  /\ (exists c',
        run sample [MouseDown pressAt100; Wheel (mkWheelEvent 32); MouseUp] = Ok c'
        /\ clicked c' = false
        /\ distToTarget c' <> distToTarget sample).
Proof.
  split;
    [|destruct sample_press_wheel_release as (c' & H & Hc & Hd & Hd0);
      exists c'; split; [exact H|]; split; [exact Hc|]; rewrite Hd, Hd0; lra].
  assert (He : Vector2.manhattanDistanceTo (Vector2.mk 100 292) (Vector2.mk 100 100)
               > ClickThreshold).
  { unfold Vector2.manhattanDistanceTo, ClickThreshold. cbn.
    unfold Rabs. repeat destruct Rcase_abs; lra. }
  split; [apply gtb_true; exact He|]. split; [reflexivity|].
  set (c := onMouseDown sample pressAt100).
  assert (Hp : promote c (Vector2.mk 100 292) DOLLYING = with_state c DOLLYING)
    by (apply promote_exceeds; [reflexivity | exact He]).
  assert (Hd : dolly c 100 292 = Ok (with_state c DOLLYING)).
  { destruct (dolly_outcome c 100 292)
      as [(Hs & _) | [(_ & _ & H) | [(_ & Ha & _) | (_ & Ha & _)]]].
    - apply sample_viewport.
    - rewrite Hp in Hs. cbn in Hs. congruence.
    - rewrite Hp in H. exact H.
    - apply dollyAccepts_true in Ha. destruct Ha as [Ha _].
      change (minDistance sample <= distToTarget sample + scaledDelta sample (100 - 292))
        in Ha.
      rewrite sample_distToTarget, sample_scaledDelta in Ha. cbn in Ha. lra.
    - apply dollyAccepts_true in Ha. destruct Ha as [Ha _].
      change (minDistance sample <= distToTarget sample + scaledDelta sample (100 - 292))
        in Ha.
      rewrite sample_distToTarget, sample_scaledDelta in Ha. cbn in Ha. lra. }
  exists (onMouseUp (with_state c DOLLYING)). split.
  - cbn [run handle bind]. fold c.
    change (listening c) with true. cbn iota.
    unfold onMouseMove. cbn [buttons moveTo Z.eqb Pos.eqb clientX clientY].
    rewrite Hd. reflexivity.
  - unfold onMouseUp. cbn. repeat split.
Qed.

(** C7, amended: when every move between a press and the release stays
    within [ClickThreshold] of the press, in the sum of the absolute
    differences per axis, the release sets [clicked = true] and camera,
    target and trace are as before the press.  When the first move beyond
    the threshold with a recognized combination of buttons and modifiers is
    a rotate or a pan, for a camera away from the target in a viewport with
    a size, the gesture is processed to the end, the release sets
    [clicked = false] and at least one change event was emitted.  When it
    is a dolly, the release sets [clicked = false] whenever the gesture is
    processed to the end; whether the camera moved depends on the distance
    bounds: when that move is the last one before the release, for a camera
    away from the target in a viewport with a height, exactly one change
    event was emitted if the distance the move asks for is within
    [[minDistance, maxDistance]], and camera, target and trace are as before
    the press otherwise.  Between the press and the release there are moves
    only. *)
Theorem click_or_drag (c0 : Controls) (press : MouseEvent) :
  let p := Vector2.mk (clientX press) (clientY press) in
  let idle event := exceeds p event = false \/ gestureOf c0 event = None in
  (forall moves,
     Forall (fun event =>
               Vector2.manhattanDistanceTo
                 (Vector2.mk (clientX event) (clientY event)) p
               <= ClickThreshold) moves ->
     exists c',
       run c0 (MouseDown press :: map MouseMove moves ++ [MouseUp]) = Ok c'
       /\ clicked c' = true
       /\ object c' = object c0 /\ target c' = target c0
       /\ trace c' = trace c0)
  /\ (forall pre event post,
        clientWidth (domElement c0) <> 0 ->
        clientHeight (domElement c0) <> 0 ->
        position (object c0) <> target c0 ->
        Forall idle pre ->
        exceeds p event = true ->
        gestureOf c0 event = Some ROTATING \/ gestureOf c0 event = Some PANNING ->
        exists c',
          run c0 (MouseDown press :: map MouseMove (pre ++ event :: post) ++ [MouseUp])
          = Ok c'
          /\ clicked c' = false
          /\ (changeEvents (trace c0) < changeEvents (trace c'))%nat)
  /\ (forall pre event post c',
        Forall idle pre ->
        exceeds p event = true ->
        gestureOf c0 event = Some DOLLYING ->
        run c0 (MouseDown press :: map MouseMove (pre ++ event :: post) ++ [MouseUp])
        = Ok c' ->
        clicked c' = false)
  /\ (forall pre event,
        clientHeight (domElement c0) <> 0 ->
        position (object c0) <> target c0 ->
        Forall idle pre ->
        exceeds p event = true ->
        gestureOf c0 event = Some DOLLYING ->
        let delta := scaledDelta c0 (clientY press - clientY event) in
        exists c',
          run c0 (MouseDown press :: map MouseMove (pre ++ [event]) ++ [MouseUp])
          = Ok c'
          /\ clicked c' = false
          /\ (dollyAccepts c0 delta = true ->
              changeEvents (trace c') = S (changeEvents (trace c0)))
          /\ (dollyAccepts c0 delta = false ->
              object c' = object c0 /\ target c' = target c0
              /\ trace c' = trace c0)).
Proof.
  intros p idle. set (c := onMouseDown c0 press).
  assert (Hs : state c = INDETERMINATE) by reflexivity.
  assert (Hl : listening c = true) by reflexivity.
  assert (Hidle : forall pre, Forall idle pre -> run c (map MouseMove pre) = Ok c).
  { intros pre Hpre. apply run_idle_moves; [exact Hs | exact Hl | exact Hpre]. }
  split; [|split; [|split]].
  - intros moves Hall.
    exists (onMouseUp c). split.
    + cbn [run handle bind]. fold c. rewrite run_app, Hidle.
      * cbn [bind run handle]. rewrite Hl. reflexivity.
      * apply Forall_impl with (2 := Hall). intros m Hm. left.
        apply gtb_false. exact Hm.
    + apply (onMouseUp_unconfirmed c Hs).
  - intros pre event post Hw Hh Hne Hpre He Hg.
    destruct (confirm_move c event Hs Hl Hw Hh Hne He Hg) as (c1 & H1 & Hd1 & Ht1).
    destruct (dragging_moves post c1 Hd1) as (c2 & H2 & Hd2 & Hle).
    exists (onMouseUp c2).
    assert (Hs2 : state c2 = ROTATING \/ state c2 = DOLLYING \/ state c2 = PANNING).
    { destruct Hd2 as (_ & _ & _ & [(E & _) | (E & _)]); auto. }
    destruct (onMouseUp_confirmed c2 Hs2) as [Hc Ht].
    split; [|split; [exact Hc|]].
    + cbn [run handle bind]. fold c. rewrite run_app, map_app, run_app, (Hidle pre Hpre).
      cbn [bind map run handle]. rewrite Hl, H1. cbn [bind]. rewrite H2.
      cbn [bind]. destruct Hd2 as (Hl2 & _). rewrite Hl2. reflexivity.
    + rewrite Ht. change (trace c) with (trace c0) in Ht1. lia.
  - intros pre event post c' Hpre He Hg H.
    cbn [run handle bind] in H. fold c in H.
    rewrite run_app, map_app, run_app, (Hidle pre Hpre) in H.
    cbn [bind map run handle] in H. rewrite Hl in H.
    destruct (onMouseMove c event) as [c1|err] eqn:H1; [|discriminate].
    cbn [bind] in H.
    destruct (run c1 (map MouseMove post)) as [c2|err] eqn:H2; [|discriminate].
    cbn [bind] in H.
    assert (Hc1 : listening c1 = true /\ state c1 = DOLLYING).
    { assert (Hg' : gestureOf c event = Some DOLLYING) by exact Hg.
      rewrite onMouseMove_gestureOf, Hg' in H1.
      assert (Hp : promote c (Vector2.mk (clientX event) (clientY event)) DOLLYING
                   = with_state c DOLLYING).
      { apply promote_exceeds; [exact Hs|]. unfold exceeds, gtb in He.
        destruct (Rgt_dec _ ClickThreshold); [assumption | discriminate]. }
      destruct (dolly_effects _ _ _ _ H1) as [-> | (E & _ & El & _)].
      - rewrite Hp. split; reflexivity.
      - split; [rewrite El; exact Hl | exact E]. }
    destruct Hc1 as [Hl1 Hs1].
    destruct (confirmed_moves post c1 c2 Hl1 (or_intror (or_introl Hs1)) H2)
      as [Hl2 Hs2].
    rewrite Hl2 in H. injection H as <-.
    apply (onMouseUp_confirmed c2 Hs2).
  - intros pre event Hh Hne Hpre He Hg delta.
    apply (confirm_dolly c0 press pre event Hh Hne (Hidle pre Hpre) He Hg).
Qed.

Lemma click_or_drag_witness :
  (exists c',
     run sample (MouseDown pressAt100 :: map MouseMove [moveTo 101 100 1] ++ [MouseUp])
     = Ok c'
     /\ clicked c' = true
     /\ object c' = object sample /\ target c' = target sample
     /\ trace c' = trace sample)
  /\ (exists c',
        run sample
          (MouseDown pressAt100
             :: map MouseMove ([] ++ moveTo 150 100 1 :: []) ++ [MouseUp])
        = Ok c'
        /\ clicked c' = false
        /\ (changeEvents (trace sample) < changeEvents (trace c'))%nat)
  /\ (exists c',
        run sample
          (MouseDown pressAt100
             :: map MouseMove ([] ++ [moveTo 100 68 4]) ++ [MouseUp])
        = Ok c'
        /\ clicked c' = false
        /\ changeEvents (trace c') = S (changeEvents (trace sample))).
Proof.
  destruct (click_or_drag sample pressAt100) as (Hclick & Hdrag & _ & Hdolly).
  split; [|split].
  - apply Hclick. constructor; [|constructor].
    unfold Vector2.manhattanDistanceTo, ClickThreshold. cbn.
    unfold Rabs. repeat destruct Rcase_abs; lra.
  - apply Hdrag.
    + apply sample_viewport.
    + apply sample_viewport.
    + apply sample_away.
    + constructor.
    + apply gtb_true. unfold Vector2.manhattanDistanceTo, ClickThreshold. cbn.
      unfold Rabs. repeat destruct Rcase_abs; lra.
    + left. reflexivity.
  - destruct (Hdolly [] (moveTo 100 68 4)) as (c' & H & Hc & Hyes & _).
    + apply sample_viewport.
    + apply sample_away.
    + constructor.
    + apply gtb_true. unfold Vector2.manhattanDistanceTo, ClickThreshold. cbn.
      unfold Rabs. repeat destruct Rcase_abs; lra.
    + reflexivity.
    + exists c'. split; [exact H|]. split; [exact Hc|]. apply Hyes.
      cbn [clientY pressAt100 moveTo]. rewrite sample_scaledDelta.
      apply sample_dollyAccepts. lra.
Defined.

(** ** The state after a gesture *)

Lemma onKeyDown_unrecognized (c : Controls) (event : KeyboardEvent) :
  ~ isPanKey c event -> onKeyDown c event = Ok c.
Proof.
  unfold isPanKey, onKeyDown. intros H.
  destruct (Z.eqb_spec (keyCode event) (UP (keys c))); [tauto|].
  destruct (Z.eqb_spec (keyCode event) (DOWN (keys c))); [tauto|].
  destruct (Z.eqb_spec (keyCode event) (LEFT (keys c))); [tauto|].
  destruct (Z.eqb_spec (keyCode event) (RIGHT (keys c))); [tauto|].
  reflexivity.
Qed.

Lemma onKeyDown_recognized (c : Controls) (event : KeyboardEvent) :
  isPanKey c event ->
  exists x y,
    onKeyDown c event
    = pan (with_prev (with_state c PANNING) (Vector2.mk 0 0)) x y.
Proof.
  unfold isPanKey, onKeyDown. intros H.
  destruct (Z.eqb_spec (keyCode event) (UP (keys c))); [eauto|].
  destruct (Z.eqb_spec (keyCode event) (DOWN (keys c))); [eauto|].
  destruct (Z.eqb_spec (keyCode event) (LEFT (keys c))); [eauto|].
  destruct (Z.eqb_spec (keyCode event) (RIGHT (keys c))); [eauto|].
  tauto.
Qed.

Lemma moves_listening (moves : list MouseEvent) :
  forall c c',
    listening c = true -> run c (map MouseMove moves) = Ok c' ->
    listening c' = true.
Proof.
  induction moves as [|m ms IH]; intros c c' Hl H.
  - injection H as <-. exact Hl.
  - cbn [map run handle] in H. rewrite Hl in H.
    destruct (onMouseMove c m) as [c1|err] eqn:H1; [|discriminate].
    cbn [bind] in H. destruct (confirmed_move c m c1 H1) as [Hl1 _].
    apply (IH c1 c'); [congruence | exact H].
Qed.

(** C6 as stated fails: after a wheel tick the state is DOLLYING, not
    INACTIVE. *)
Lemma idle_after_gesture_counterexample :
  exists c',
    run sample [Wheel (mkWheelEvent 32)] = Ok c'
    /\ state c' = DOLLYING /\ state c' <> INACTIVE.
Proof.
  destruct (sample_wheel 32) as [Hw _]; [lra|].
  exists (dollied (wheelStart sample) (32 / 32) (Vector2.mk 0 (- 32))).
  split; [cbn [run handle]; rewrite Hw; reflexivity|].
  destruct (dollied_facts (wheelStart sample) (32 / 32) (Vector2.mk 0 (- 32)))
    as (_ & _ & _ & Hs & _).
  - reflexivity.
  - change (distToTarget sample <> 0). rewrite sample_distToTarget. lra.
  - rewrite Hs. split; [reflexivity | discriminate].
Qed.

Lemma onMouseWheel_state (c : Controls) (event : WheelEvent) (c' : Controls) :
  onMouseWheel c event = Ok c' -> state c' = DOLLYING.
Proof.
  intros H. unfold onMouseWheel in H.
  destruct (dolly_effects _ _ _ _ H) as [-> | (Hs & _)]; [|exact Hs].
  rewrite promote_other; [reflexivity | cbn; discriminate].
Qed.

Lemma onKeyDown_state (c : Controls) (event : KeyboardEvent) (c' : Controls) :
  isPanKey c event -> onKeyDown c event = Ok c' -> state c' = PANNING.
Proof.
  intros Hk H. destruct (onKeyDown_recognized c event Hk) as (x & y & E).
  rewrite E in H.
  destruct (pan_effects _ _ _ _ H) as [(-> & Hs) | (Hs & _)]; [|exact Hs].
  rewrite promote_other; [reflexivity | cbn; discriminate].
Qed.

(** No handler but [onMouseUp] writes INACTIVE. *)
Lemma handle_keeps_active (c : Controls) (e : Event) (c' : Controls) :
  state c <> INACTIVE -> e <> MouseUp -> handle c e = Ok c' ->
  state c' <> INACTIVE.
Proof.
  intros Hs He H. destruct e as [m|m| |w|k|]; cbn [handle] in H.
  - injection H as <-. cbn. discriminate.
  - destruct (listening c); [|injection H as <-; exact Hs].
    destruct (confirmed_move c m c' H) as [_ [E | (_ & [E | [E | E]])]];
      rewrite E; (exact Hs || discriminate).
  - congruence.
  - rewrite (onMouseWheel_state c w c' H). discriminate.
  - destruct (Z.eq_dec (keyCode k) (UP (keys c))) as [E1|E1];
      [rewrite (onKeyDown_state c k c' (or_introl E1) H); discriminate|].
    destruct (Z.eq_dec (keyCode k) (DOWN (keys c))) as [E2|E2];
      [rewrite (onKeyDown_state c k c' (or_intror (or_introl E2)) H); discriminate|].
    destruct (Z.eq_dec (keyCode k) (LEFT (keys c))) as [E3|E3];
      [rewrite (onKeyDown_state c k c'
                  (or_intror (or_intror (or_introl E3))) H); discriminate|].
    destruct (Z.eq_dec (keyCode k) (RIGHT (keys c))) as [E4|E4];
      [rewrite (onKeyDown_state c k c'
                  (or_intror (or_intror (or_intror E4))) H); discriminate|].
    rewrite onKeyDown_unrecognized in H by (unfold isPanKey; tauto).
    injection H as <-. exact Hs.
  - injection H as <-. exact Hs.
Qed.

Lemma run_keeps_active (es : list Event) :
  forall c c',
    state c <> INACTIVE -> ~ In MouseUp es -> run c es = Ok c' ->
    state c' <> INACTIVE.
Proof.
  induction es as [|e es IH]; intros c c' Hs Hn H.
  - injection H as <-. exact Hs.
  - cbn [run] in H. destruct (handle c e) as [c1|err] eqn:H1; [|discriminate].
    cbn [bind] in H. apply (IH c1 c'); [|intros N; apply Hn; right; exact N | exact H].
    apply (handle_keeps_active c e c1 Hs); [|exact H1].
    intros ->. apply Hn. left. reflexivity.
Qed.

(** C6, amended: a release leaves the state INACTIVE; a wheel tick leaves
    it DOLLYING and a recognized key PANNING; any other key leaves the
    controller as it is.  The wheel and key handlers return a controller
    whenever the camera is away from the target and the viewport has a
    height.  A press, any moves and a release, when processed to the end,
    leave the state INACTIVE.  Only the release writes INACTIVE: from a
    state other than INACTIVE, no events without a release lead back to
    it. *)
Theorem state_after_gesture (c : Controls) :
  state (onMouseUp c) = INACTIVE
  /\ (forall event,
        (forall c', onMouseWheel c event = Ok c' -> state c' = DOLLYING)
        /\ (clientHeight (domElement c) <> 0 -> 0 < distToTarget c ->
            exists c', onMouseWheel c event = Ok c'))
  /\ (forall event,
        isPanKey c event ->
        (forall c', onKeyDown c event = Ok c' -> state c' = PANNING)
        /\ (clientHeight (domElement c) <> 0 -> 0 < distToTarget c ->
            exists c', onKeyDown c event = Ok c'))
  /\ (forall event, ~ isPanKey c event -> onKeyDown c event = Ok c)
  /\ (forall press moves c',
        run c (MouseDown press :: map MouseMove moves ++ [MouseUp]) = Ok c' ->
        state c' = INACTIVE)
  /\ (forall es c',
        state c <> INACTIVE -> ~ In MouseUp es -> run c es = Ok c' ->
        state c' <> INACTIVE).
Proof.
  split; [apply onMouseUp_fields|]. split; [|split; [|split; [|split]]].
  - intros event. split.
    + intros c' H. apply (onMouseWheel_state c event c' H).
    + intros Hh Hpos.
      destruct (onMouseWheel_step c event Hh) as (Hno & _ & Hyes).
      destruct (dollyAccepts c (scaledDelta c (deltaY event))).
      * eexists. apply Hyes; [reflexivity | lra].
      * eexists. apply Hno. reflexivity.
  - intros event Hk. split.
    + intros c' H. apply (onKeyDown_state c event c' Hk H).
    + destruct (onKeyDown_recognized c event Hk) as (x & y & E). rewrite E.
      intros Hh Hpos. eexists. apply pan_panning.
      * reflexivity.
      * change (distToTarget c <> 0). lra.
      * exact Hh.
  - intros event. apply onKeyDown_unrecognized.
  - intros press moves c' H. cbn [run handle bind] in H. rewrite run_app in H.
    destruct (run (onMouseDown c press) (map MouseMove moves)) as [c1|err] eqn:H1;
      [|discriminate].
    cbn [bind run handle] in H.
    assert (Hl : listening (onMouseDown c press) = true) by reflexivity.
    rewrite (moves_listening moves _ _ Hl H1) in H.
    cbn [bind] in H. injection H as <-. apply onMouseUp_fields.
  - intros es c'. apply run_keeps_active.
Qed.

Lemma update_keys (c : Controls) : keys (update c) = keys c.
Proof.
  unfold update; simpl. destruct (State_eq_dec (state c) ROTATING); reflexivity.
Qed.

Lemma dollied_keys (c : Controls) (delta : R) (curr : Vector2.t) :
  keys (dollied c delta curr) = keys c.
Proof. unfold dollied. cbn [with_prev keys]. rewrite update_keys. reflexivity. Qed.

(** The sample controller after a wheel tick still takes the left arrow
    key. *)
Lemma sample_wheel_then_key :
  exists c',
    onMouseWheel sample (mkWheelEvent 32) = Ok c'
    /\ clientHeight (domElement c') <> 0
    /\ 0 < distToTarget c'
    /\ isPanKey c' (mkKeyboardEvent 37).
Proof.
  destruct (sample_wheel 32) as [H Hd]; [lra|].
  destruct (dollied_facts (wheelStart sample) (32 / 32) (Vector2.mk 0 (- (32))))
    as (_ & _ & _ & _ & _ & _ & Hset);
    [reflexivity
    | change (distToTarget sample <> 0); rewrite sample_distToTarget; lra |].
  eexists. split; [exact H|]. split; [|split].
  - destruct Hset as (Hdom & _). rewrite Hdom. apply sample_viewport.
  - rewrite Hd. lra.
  - right; right; left. rewrite dollied_keys. reflexivity.
Qed.

(** A wheel tick on the sample controller, then the left arrow key: the
    state is DOLLYING after the tick, and after the key it is PANNING, not
    INACTIVE. *)
Lemma state_after_gesture_witness :
  exists c' c'',
    onMouseWheel sample (mkWheelEvent 32) = Ok c' /\ state c' = DOLLYING
    /\ run c' [KeyDown (mkKeyboardEvent 37)] = Ok c''
    /\ state c'' = PANNING /\ state c'' <> INACTIVE.
Proof.
  destruct sample_wheel_then_key as (c' & H & Hh & Hpos & Hk).
  destruct (state_after_gesture sample) as (_ & Hw & _).
  destruct (Hw (mkWheelEvent 32)) as [Hs _].
  destruct (state_after_gesture c') as (_ & _ & Hkey & _ & _ & Hstay).
  destruct (Hkey (mkKeyboardEvent 37) Hk) as [Hpan Htot].
  destruct (Htot Hh Hpos) as [c'' H''].
  assert (Hrun : run c' [KeyDown (mkKeyboardEvent 37)] = Ok c'')
    by (cbn [run handle]; rewrite H''; reflexivity).
  exists c', c''. split; [exact H|]. split; [apply (Hs c' H)|].
  split; [exact Hrun|]. split; [apply (Hpan c'' H'')|].
  apply (Hstay [KeyDown (mkKeyboardEvent 37)] c'').
  - rewrite (Hs c' H). discriminate.
  - intros [N | []]. discriminate N.
  - exact Hrun.
Defined.

(** ** The sample controller *)

Lemma stabilized_sample :
  stabilized (Vector3.subVectors Vector3.zero (Vector3.mk 0 0 5)) (Vector3.mk 0 1 0)
  = Vector3.mk 0 1 0.
Proof.
  unfold stabilized.
  assert (Hv : Vector3.normalize (Vector3.subVectors Vector3.zero (Vector3.mk 0 0 5))
               = Vector3.mk 0 0 (-1)).
  { unfold Vector3.normalize.
    rewrite (length_of_lengthSq _ 5); [| lra | unfold Vector3.lengthSq; cbn; ring].
    unfold orOne. destruct (Req_dec_T 5 0); [lra|].
    apply vector3_ext; cbn; field. }
  rewrite Hv.
  assert (Hs : Vector3.crossVectors (Vector3.mk 0 0 (-1)) (Vector3.mk 0 1 0)
               = Vector3.mk 1 0 0)
    by (apply vector3_ext; cbn; ring).
  rewrite Hs, (normalize_unit (Vector3.mk 1 0 0))
    by (unfold Vector3.lengthSq; cbn; ring).
  assert (Hu : Vector3.crossVectors (Vector3.mk 1 0 0) (Vector3.mk 0 0 (-1))
               = Vector3.mk 0 1 0)
    by (apply vector3_ext; cbn; ring).
  rewrite Hu. apply normalize_unit. unfold Vector3.lengthSq; cbn; ring.
Qed.

(** [sample] is the controller the constructor returns. *)
Lemma constructor_sample :
  constructor (mkCamera (Vector3.mk 0 0 5) (Vector3.mk 0 1 0) 50)
    (mkDomElement 320 320)
  = sample.
Proof.
  unfold constructor, update, fixUp. cbn.
  change (Vector3.normalize
            (Vector3.crossVectors
               (Vector3.normalize
                  (Vector3.crossVectors
                     (Vector3.normalize
                        (Vector3.subVectors Vector3.zero (Vector3.mk 0 0 5)))
                     (Vector3.mk 0 1 0)))
               (Vector3.normalize
                  (Vector3.subVectors Vector3.zero (Vector3.mk 0 0 5)))))
    with (stabilized (Vector3.subVectors Vector3.zero (Vector3.mk 0 0 5))
            (Vector3.mk 0 1 0)).
  rewrite stabilized_sample. reflexivity.
Qed.

(** The drag of the rotate witnesses does confirm the gesture. *)
Lemma sample_rotate_drag :
  exists c',
    run (onMouseDown sample pressAt100) (map MouseMove [moveTo 150 100 1]) = Ok c'
    /\ state c' = ROTATING
    /\ changeEvents (trace c') = S (changeEvents (trace sample)).
Proof.
  destruct (confirm_move (onMouseDown sample pressAt100) (moveTo 150 100 1))
    as (c' & H & (_ & _ & _ & Hcase) & Ht).
  - reflexivity.
  - reflexivity.
  - apply sample_viewport.
  - apply sample_viewport.
  - apply sample_away.
  - apply gtb_true. unfold Vector2.manhattanDistanceTo, ClickThreshold. cbn.
    unfold Rabs. repeat destruct Rcase_abs; lra.
  - left. reflexivity.
  - exists c'. cbn [map run handle].
    change (listening (onMouseDown sample pressAt100)) with true. cbn iota.
    rewrite H. split; [reflexivity|]. split; [|exact Ht].
    destruct Hcase as [(Hs & _) | (Hs & _)]; [exact Hs|].
    rewrite onMouseMove_gestureOf in H.
    change (gestureOf (onMouseDown sample pressAt100) (moveTo 150 100 1))
      with (Some ROTATING) in H.
    destruct (rotate_effects _ _ _ _ H) as [-> | (Hr & _)]; [discriminate Hs | exact Hr].
Qed.

(** * Further properties of the source *)

(** ** What [fixUp] does to the up vector *)

Lemma cross_multiplyScalar_left (a b : Vector3.t) (k : R) :
  Vector3.crossVectors (Vector3.multiplyScalar a k) b
  = Vector3.multiplyScalar (Vector3.crossVectors a b) k.
Proof. apply vector3_ext; cbn; ring. Qed.

Lemma cross_multiplyScalar_right (a b : Vector3.t) (k : R) :
  Vector3.crossVectors a (Vector3.multiplyScalar b k)
  = Vector3.multiplyScalar (Vector3.crossVectors a b) k.
Proof. apply vector3_ext; cbn; ring. Qed.

Lemma multiplyScalar_zero (k : R) :
  Vector3.multiplyScalar Vector3.zero k = Vector3.zero.
Proof. apply vector3_ext; cbn; ring. Qed.

Lemma multiplyScalar_zero_inv (v : Vector3.t) (k : R) :
  k <> 0 -> Vector3.multiplyScalar v k = Vector3.zero -> v = Vector3.zero.
Proof.
  intros Hk H. unfold Vector3.multiplyScalar, Vector3.zero in H.
  injection H as Hx Hy Hz.
  apply vector3_ext; cbn [Vector3.zero Vector3.x Vector3.y Vector3.z];
    apply (Rmult_eq_reg_r k); try exact Hk; rewrite Rmult_0_l; assumption.
Qed.

Lemma normalize_scale_nonzero (v : Vector3.t) : 1 / orOne (Vector3.length v) <> 0.
Proof.
  pose proof (orOne_nonzero (Vector3.length v)) as H.
  intros E. apply (Rmult_eq_compat_r (orOne (Vector3.length v))) in E.
  field_simplify in E; [lra | exact H].
Qed.

(** Triple product: [(a x b) . c = a . (b x c)]. *)
Lemma dot_cross_shift (a b c : Vector3.t) :
  Vector3.dot (Vector3.crossVectors a b) c
  = Vector3.dot a (Vector3.crossVectors b c).
Proof. unfold Vector3.dot, Vector3.crossVectors; cbn; ring. Qed.

Lemma cross_cross_back (v u : Vector3.t) :
  Vector3.lengthSq v = 1 -> Vector3.dot u v = 0 ->
  Vector3.crossVectors (Vector3.crossVectors v u) v = u.
Proof.
  unfold Vector3.lengthSq, Vector3.dot. intros Hv Hu.
  apply vector3_ext; cbn.
  - transitivity (Vector3.x u * (Vector3.x v * Vector3.x v + Vector3.y v * Vector3.y v + Vector3.z v * Vector3.z v)
                  - Vector3.x v * (Vector3.x u * Vector3.x v + Vector3.y u * Vector3.y v + Vector3.z u * Vector3.z v)).
    + ring.
    + rewrite Hv, Hu; ring.
  - transitivity (Vector3.y u * (Vector3.x v * Vector3.x v + Vector3.y v * Vector3.y v + Vector3.z v * Vector3.z v)
                  - Vector3.y v * (Vector3.x u * Vector3.x v + Vector3.y u * Vector3.y v + Vector3.z u * Vector3.z v)).
    + ring.
    + rewrite Hv, Hu; ring.
  - transitivity (Vector3.z u * (Vector3.x v * Vector3.x v + Vector3.y v * Vector3.y v + Vector3.z v * Vector3.z v)
                  - Vector3.z v * (Vector3.x u * Vector3.x v + Vector3.y u * Vector3.y v + Vector3.z u * Vector3.z v)).
    + ring.
    + rewrite Hv, Hu; ring.
Qed.

Lemma stabilized_degenerate (d u : Vector3.t) :
  Vector3.crossVectors d u = Vector3.zero -> stabilized d u = Vector3.zero.
Proof.
  intros H. unfold stabilized.
  assert (E : Vector3.crossVectors (Vector3.normalize d) u = Vector3.zero).
  { unfold Vector3.normalize.
    rewrite cross_multiplyScalar_left, H. apply multiplyScalar_zero. }
  rewrite E, normalize_zero, cross_zero_left. apply normalize_zero.
Qed.

Lemma stabilized_unit (d u : Vector3.t) :
  Vector3.crossVectors d u <> Vector3.zero ->
  Vector3.lengthSq (stabilized d u) = 1
  /\ Vector3.dot (stabilized d u) u
     = Vector3.length (Vector3.crossVectors (Vector3.normalize d) u)
  /\ 0 < Vector3.length (Vector3.crossVectors (Vector3.normalize d) u).
Proof.
  intros Hc.
  assert (Hd : Vector3.length d <> 0).
  { intros E. apply Hc. rewrite (length_zero d E). apply cross_zero_left. }
  unfold stabilized. set (v := Vector3.normalize d).
  assert (Hv : Vector3.lengthSq v = 1) by (apply lengthSq_normalize, Hd).
  assert (Hn : Vector3.length (Vector3.crossVectors v u) <> 0).
  { intros E. apply Hc. apply length_zero in E.
    unfold v, Vector3.normalize in E. rewrite cross_multiplyScalar_left in E.
    apply (multiplyScalar_zero_inv _ _ (normalize_scale_nonzero d) E). }
  set (s := Vector3.normalize (Vector3.crossVectors v u)).
  assert (Hs : Vector3.lengthSq s = 1) by (apply lengthSq_normalize, Hn).
  assert (Hsv : Vector3.dot s v = 0) by (apply dot_normalize_left, dot_cross_left).
  assert (Hw : Vector3.lengthSq (Vector3.crossVectors s v) = 1).
  { rewrite lengthSq_cross, Hs, Hv, Hsv. ring. }
  rewrite (normalize_unit _ Hw). split; [exact Hw|]. split.
  - rewrite dot_cross_shift. apply dot_normalize_self. exact Hn.
  - pose proof (length_nonneg (Vector3.crossVectors v u)). lra.
Qed.

Lemma stabilized_fixed (d u : Vector3.t) :
  Vector3.length d <> 0 ->
  Vector3.length u = 1 ->
  Vector3.dot u d = 0 ->
  stabilized d u = u.
Proof.
  intros Hd Hu Hud. unfold stabilized. set (v := Vector3.normalize d).
  assert (Hu2 : Vector3.lengthSq u = 1) by (rewrite <- length_sq, Hu; ring).
  assert (Hv : Vector3.lengthSq v = 1) by (apply lengthSq_normalize, Hd).
  assert (Huv : Vector3.dot u v = 0).
  { rewrite dot_comm. apply dot_normalize_left. rewrite dot_comm. exact Hud. }
  assert (Hn : Vector3.lengthSq (Vector3.crossVectors v u) = 1).
  { rewrite lengthSq_cross, Hv, Hu2, (dot_comm v u), Huv. ring. }
  rewrite (normalize_unit _ Hn), (cross_cross_back v u Hv Huv).
  apply normalize_unit. exact Hu2.
Qed.

Lemma update_object (c : Controls) :
  object (update c)
  = if State_eq_dec (state c) ROTATING then object c
    else mkCamera (position (object c))
           (stabilized (Vector3.subVectors (target c) (position (object c)))
              (up (object c)))
           (fov (object c)).
Proof.
  unfold update; simpl. destruct (State_eq_dec (state c) ROTATING); reflexivity.
Qed.

(** X1. Outside a rotate gesture, [update] (and with it the constructor,
    [reset], every applied dolly step and every pan step) turns an up
    vector that is not parallel to the view vector into a unit vector
    orthogonal to the view vector, on the same side as the old up vector;
    camera position and target are not touched. *)
Theorem update_orthonormalizes_up (c : Controls) :
  state c <> ROTATING ->
  Vector3.crossVectors (Vector3.subVectors (target c) (position (object c)))
    (up (object c)) <> Vector3.zero ->
  Vector3.length (up (object (update c))) = 1
  /\ Vector3.dot (up (object (update c)))
       (Vector3.normalize
          (Vector3.subVectors (target (update c)) (position (object (update c)))))
     = 0
  /\ 0 < Vector3.dot (up (object (update c))) (up (object c))
  /\ position (object (update c)) = position (object c)
  /\ target (update c) = target c.
Proof.
  intros Hs Hc. rewrite update_up, update_position, update_target.
  destruct (State_eq_dec (state c) ROTATING); [contradiction|].
  destruct (stabilized_unit _ _ Hc) as (Hl & Hd & Hp).
  split; [apply length_of_lengthSq; [lra | rewrite Hl; ring]|].
  split; [apply stabilized_orthogonal|].
  split; [rewrite Hd; exact Hp|]. split; reflexivity.
Qed.

Lemma update_orthonormalizes_up_witness :
  Vector3.length
    (up (object (update (with_up sample (Vector3.mk 0 1 1))))) = 1
  /\ 0 < Vector3.dot (up (object (update (with_up sample (Vector3.mk 0 1 1)))))
           (Vector3.mk 0 1 1).
Proof.
  destruct (update_orthonormalizes_up (with_up sample (Vector3.mk 0 1 1)))
    as (Hl & _ & Hp & _).
  - cbn. discriminate.
  - cbn. intros E. injection E as E _ _. lra.
  - split; [exact Hl | exact Hp].
Defined.

(** X2. Outside a rotate gesture, [update] replaces an up vector that is
    parallel to the view vector, or any up vector of a camera that sits on
    the target, by the zero vector: the degenerate cases of [fixUp] are
    absorbed by [normalize] and leave the camera without an up
    direction. *)
Theorem update_degenerate_up (c : Controls) :
  state c <> ROTATING ->
  Vector3.crossVectors (Vector3.subVectors (target c) (position (object c)))
    (up (object c)) = Vector3.zero ->
  up (object (update c)) = Vector3.zero.
Proof.
  intros Hs Hc. rewrite update_up.
  destruct (State_eq_dec (state c) ROTATING); [contradiction|].
  apply stabilized_degenerate. exact Hc.
Qed.

(** A camera that looks straight down its own up vector comes out of the
    constructor with the zero vector as up. *)
Lemma update_degenerate_up_witness :
  up (object (constructor (mkCamera (Vector3.mk 0 5 0) (Vector3.mk 0 1 0) 50)
                (mkDomElement 320 320)))
  = Vector3.zero.
Proof.
  unfold constructor. apply update_degenerate_up.
  - cbn. discriminate.
  - apply vector3_ext; cbn; ring.
Defined.

(** X3. [update] leaves alone a camera that is away from the target and
    whose up vector is a unit vector orthogonal to the view vector: position,
    up and field of view stay exactly as they are, in every state. *)
Theorem update_keeps_orthonormal_camera (c : Controls) :
  position (object c) <> target c ->
  Vector3.length (up (object c)) = 1 ->
  Vector3.dot (up (object c))
    (Vector3.subVectors (target c) (position (object c))) = 0 ->
  object (update c) = object c /\ target (update c) = target c.
Proof.
  intros Hne Hu Hd. rewrite update_object, update_target. split; [|reflexivity].
  destruct (State_eq_dec (state c) ROTATING); [reflexivity|].
  rewrite stabilized_fixed; try assumption.
  - destruct (object c); reflexivity.
  - rewrite <- length_subVectors_comm. apply length_nonzero. exact Hne.
Qed.

Lemma sample_up_orthogonal :
  Vector3.dot (up (object sample))
    (Vector3.subVectors (target sample) (position (object sample))) = 0.
Proof. unfold Vector3.dot; cbn; ring. Qed.

Lemma update_keeps_orthonormal_camera_witness :
  object (update sample) = object sample /\ target (update sample) = target sample.
Proof.
  apply (update_keeps_orthonormal_camera sample).
  - apply sample_away.
  - apply sample_up_unit.
  - apply sample_up_orthogonal.
Defined.

(** ** What [pan] does to camera and target *)

Lemma panOffset_back (p d u : Vector3.t) (fovDeg height dx dy dx' dy' : R) :
  dx' = - dx -> dy' = - dy ->
  Vector3.addVectors
    (Vector3.addVectors p (panOffset d u fovDeg height dx dy))
    (panOffset d u fovDeg height dx' dy')
  = p.
Proof.
  intros -> ->. unfold panOffset.
  set (xAxis := Vector3.normalize _). set (s := _ / (height / 2)).
  apply vector3_ext; cbn; ring.
Qed.

Lemma panOffset_across (d u : Vector3.t) (fovDeg height dx dy : R) :
  Vector3.dot u d = 0 ->
  Vector3.dot (panOffset d u fovDeg height dx dy) d = 0.
Proof.
  intros Hu. unfold panOffset. set (s := _ / (height / 2)).
  set (k := 1 / Vector3.length d).
  assert (Hx : Vector3.dot
                 (Vector3.normalize
                    (Vector3.crossVectors u (Vector3.multiplyScalar d k))) d = 0).
  { apply dot_normalize_left. rewrite cross_multiplyScalar_right,
      dot_multiplyScalar_left, dot_cross_right. ring. }
  set (xAxis := Vector3.normalize _) in *.
  transitivity (dx * s * Vector3.dot xAxis d + dy * s * Vector3.dot u d).
  - unfold Vector3.dot; cbn; ring.
  - rewrite Hx, Hu. ring.
Qed.

Lemma panned_position (c : Controls) (curr : Vector2.t) :
  position (object (panned c curr))
  = Vector3.addVectors (position (object c))
      (panOffset (Vector3.subVectors (target c) (position (object c)))
         (up (object c)) (fov (object c)) (clientHeight (domElement c))
         (Vector2.x curr - Vector2.x (prev c))
         (Vector2.y curr - Vector2.y (prev c))).
Proof.
  unfold panned. cbn [with_prev object]. rewrite update_position.
  cbn [with_target with_position with_object object position].
  unfold panOffset. apply vector3_ext; cbn; ring.
Qed.

Lemma panned_target (c : Controls) (curr : Vector2.t) :
  state c = PANNING -> distToTarget c <> 0 ->
  target (panned c curr)
  = Vector3.addVectors (target c)
      (panOffset (Vector3.subVectors (target c) (position (object c)))
         (up (object c)) (fov (object c)) (clientHeight (domElement c))
         (Vector2.x curr - Vector2.x (prev c))
         (Vector2.y curr - Vector2.y (prev c))).
Proof.
  intros Hs Hd. destruct (panned_facts c curr Hs Hd) as (Hv & _).
  pose proof (panned_position c curr) as Hp.
  set (off := panOffset _ _ _ _ _ _) in *.
  destruct (target (panned c curr)) as [tx ty tz].
  destruct (position (object (panned c curr))) as [px py pz].
  unfold Vector3.subVectors, Vector3.addVectors in *. cbn in *.
  injection Hv as Hx Hy Hz. injection Hp as Px Py Pz.
  apply vector3_ext; cbn; lra.
Qed.

Lemma panned_camera (c : Controls) (curr : Vector2.t) :
  state c = PANNING -> distToTarget c <> 0 ->
  up (object (panned c curr))
  = stabilized (Vector3.subVectors (target c) (position (object c)))
      (up (object c))
  /\ fov (object (panned c curr)) = fov (object c).
Proof.
  intros Hs Hd. destruct (panned_facts c curr Hs Hd) as (Hv & _).
  unfold panned in *. cbn [with_prev object target] in *.
  rewrite update_target, update_position in Hv.
  rewrite update_object.
  cbn [with_target with_position with_object object position up fov target state]
    in *.
  rewrite Hs. destruct (State_eq_dec PANNING ROTATING); [discriminate|].
  cbn [up fov]. rewrite Hv. split; reflexivity.
Qed.

(** [pan] on any state, for a camera away from the target in a viewport
    with a height. *)
Lemma pan_outcome (c : Controls) (x y : R) :
  clientHeight (domElement c) <> 0 ->
  distToTarget c <> 0 ->
  let c1 := promote c (Vector2.mk x y) PANNING in
  (state c1 <> PANNING /\ pan c x y = Ok c1)
  \/ (state c1 = PANNING /\ pan c x y = Ok (panned c1 (Vector2.mk x y))).
Proof.
  intros Hh Hd c1.
  destruct (State_eq_dec (state c1) PANNING) as [Hs|Hs].
  - right. split; [exact Hs|].
    rewrite (pan_promote c x y Hs). apply pan_panning; [exact Hs | |].
    + unfold c1. rewrite promote_distToTarget. exact Hd.
    + unfold c1. rewrite promote_domElement. exact Hh.
  - left. split; [exact Hs | apply pan_not_panning; exact Hs].
Qed.

Lemma promote_object (c : Controls) (curr : Vector2.t) (s : State) :
  object (promote c curr s) = object c /\ target (promote c curr s) = target c.
Proof.
  destruct (promote_cases c curr s) as [H | (_ & _ & H)]; rewrite H; split; reflexivity.
Qed.

Lemma distToTarget_nonzero (c : Controls) :
  position (object c) <> target c -> distToTarget c <> 0.
Proof.
  intros H. unfold distToTarget. rewrite <- length_subVectors_comm.
  apply length_nonzero. exact H.
Qed.

(** X4. Every call of [pan], for a camera away from the target in a
    viewport with a height, returns a controller in which the vector from
    the camera to the target is exactly the one before the call: camera and
    target move by the same translation and their distance is kept. *)
Theorem pan_keeps_view_vector (c : Controls) (x y : R) :
  clientHeight (domElement c) <> 0 ->
  position (object c) <> target c ->
  exists c',
    pan c x y = Ok c'
    /\ Vector3.subVectors (target c') (position (object c'))
       = Vector3.subVectors (target c) (position (object c))
    /\ distToTarget c' = distToTarget c.
Proof.
  intros Hh Hne. pose proof (distToTarget_nonzero c Hne) as Hd.
  destruct (promote_object c (Vector2.mk x y) PANNING) as [Ho Ht].
  destruct (pan_outcome c x y Hh Hd) as [(Hs & H) | (Hs & H)]; rewrite H.
  - eexists. split; [reflexivity|]. unfold distToTarget. rewrite Ho, Ht. auto.
  - eexists. split; [reflexivity|].
    assert (Hd1 : distToTarget (promote c (Vector2.mk x y) PANNING) <> 0)
      by (rewrite promote_distToTarget; exact Hd).
    destruct (panned_facts _ (Vector2.mk x y) Hs Hd1) as (Hv & _).
    unfold distToTarget. rewrite Hv, Ho, Ht. auto.
Qed.

Lemma pan_keeps_view_vector_witness :
  exists c',
    pan (keyStart sample) 7 0 = Ok c'
    /\ Vector3.subVectors (target c') (position (object c'))
       = Vector3.subVectors (target (keyStart sample))
           (position (object (keyStart sample)))
    /\ distToTarget c' = distToTarget (keyStart sample).
Proof.
  apply (pan_keeps_view_vector (keyStart sample) 7 0).
  - apply sample_viewport.
  - apply sample_away.
Defined.

(** X5. When the up vector is orthogonal to the view vector, the
    translation a pan step applies to the camera is orthogonal to the view
    vector too: [pan] moves the camera across the line of sight, never
    along it. *)
Theorem pan_moves_across_view (c : Controls) (x y : R) :
  clientHeight (domElement c) <> 0 ->
  position (object c) <> target c ->
  Vector3.dot (up (object c))
    (Vector3.subVectors (target c) (position (object c))) = 0 ->
  exists c',
    pan c x y = Ok c'
    /\ Vector3.dot
         (Vector3.subVectors (position (object c')) (position (object c)))
         (Vector3.subVectors (target c) (position (object c)))
       = 0.
Proof.
  intros Hh Hne Hu. pose proof (distToTarget_nonzero c Hne) as Hd.
  destruct (promote_object c (Vector2.mk x y) PANNING) as [Ho Ht].
  destruct (pan_outcome c x y Hh Hd) as [(Hs & H) | (Hs & H)]; rewrite H.
  - eexists. split; [reflexivity|]. rewrite Ho.
    unfold Vector3.dot, Vector3.subVectors; cbn; ring.
  - eexists. split; [reflexivity|].
    rewrite panned_position, Ho, Ht.
    set (off := panOffset _ _ _ _ _ _).
    assert (Hoff : Vector3.dot off
                     (Vector3.subVectors (target c) (position (object c))) = 0)
      by (apply panOffset_across; exact Hu).
    rewrite <- Hoff. unfold Vector3.dot, Vector3.subVectors, Vector3.addVectors.
    cbn. ring.
Qed.

Lemma pan_moves_across_view_witness :
  exists c',
    pan (keyStart sample) 7 0 = Ok c'
    /\ Vector3.dot
         (Vector3.subVectors (position (object c'))
            (position (object (keyStart sample))))
         (Vector3.subVectors (target (keyStart sample))
            (position (object (keyStart sample))))
       = 0.
Proof.
  apply (pan_moves_across_view (keyStart sample) 7 0).
  - apply sample_viewport.
  - apply sample_away.
  - apply sample_up_orthogonal.
Defined.

Lemma pan_there_and_back (c s : Controls) (q q' : Vector2.t) :
  state c = PANNING ->
  position (object c) <> target c ->
  Vector3.length (up (object c)) = 1 ->
  Vector3.dot (up (object c))
    (Vector3.subVectors (target c) (position (object c))) = 0 ->
  state s = PANNING ->
  object s = object (panned c q) ->
  target s = target (panned c q) ->
  domElement s = domElement c ->
  Vector2.x q' - Vector2.x (prev s) = - (Vector2.x q - Vector2.x (prev c)) ->
  Vector2.y q' - Vector2.y (prev s) = - (Vector2.y q - Vector2.y (prev c)) ->
  distToTarget s <> 0
  /\ position (object (panned s q')) = position (object c)
  /\ target (panned s q') = target c
  /\ up (object (panned s q')) = up (object c).
Proof.
  intros Hs Hne Hu Hud Hs2 Ho Ht Hdom Hx Hy.
  pose proof (distToTarget_nonzero c Hne) as Hd.
  destruct (panned_facts c q Hs Hd) as (Hv & _).
  destruct (panned_camera c q Hs Hd) as (Hup & Hfov).
  assert (Hfix : stabilized (Vector3.subVectors (target c) (position (object c)))
                   (up (object c)) = up (object c)).
  { apply stabilized_fixed; [exact Hd | exact Hu | exact Hud]. }
  rewrite Hfix in Hup.
  assert (Hv2 : Vector3.subVectors (target s) (position (object s))
                = Vector3.subVectors (target c) (position (object c)))
    by (rewrite Ho, Ht; exact Hv).
  assert (Hd2 : distToTarget s <> 0) by (unfold distToTarget; rewrite Hv2; exact Hd).
  split; [exact Hd2|].
  assert (Hoff : panOffset (Vector3.subVectors (target s) (position (object s)))
                   (up (object s)) (fov (object s)) (clientHeight (domElement s))
                   (Vector2.x q' - Vector2.x (prev s))
                   (Vector2.y q' - Vector2.y (prev s))
                 = panOffset (Vector3.subVectors (target c) (position (object c)))
                     (up (object c)) (fov (object c)) (clientHeight (domElement c))
                     (- (Vector2.x q - Vector2.x (prev c)))
                     (- (Vector2.y q - Vector2.y (prev c)))).
  { rewrite Hv2, Ho, Hup, Hfov, Hdom, Hx, Hy. reflexivity. }
  split; [|split].
  - rewrite panned_position, Hoff, Ho, panned_position.
    apply panOffset_back; reflexivity.
  - rewrite (panned_target s q' Hs2 Hd2), Hoff, Ht, (panned_target c q Hs Hd).
    apply panOffset_back; reflexivity.
  - destruct (panned_camera s q' Hs2 Hd2) as (Hup2 & _).
    rewrite Hup2, Hv2, Ho, Hup. exact Hfix.
Qed.

(** X6. A pan drag that goes to a pointer position and then back to where
    the pointer was restores the camera position, the up vector and the
    target exactly, for a camera away from the target whose up vector is a
    unit vector orthogonal to the view vector. *)
Theorem pan_drag_round_trip (c : Controls) (x y : R) :
  state c = PANNING ->
  clientHeight (domElement c) <> 0 ->
  position (object c) <> target c ->
  Vector3.length (up (object c)) = 1 ->
  Vector3.dot (up (object c))
    (Vector3.subVectors (target c) (position (object c))) = 0 ->
  exists c1 c2,
    pan c x y = Ok c1
    /\ pan c1 (Vector2.x (prev c)) (Vector2.y (prev c)) = Ok c2
    /\ position (object c2) = position (object c)
    /\ up (object c2) = up (object c)
    /\ target c2 = target c.
Proof.
  intros Hs Hh Hne Hu Hud.
  pose proof (distToTarget_nonzero c Hne) as Hd.
  set (c1 := panned c (Vector2.mk x y)).
  destruct (panned_facts c (Vector2.mk x y) Hs Hd)
    as (_ & Hp1 & _ & Hs1 & _ & Hdom1 & _).
  fold c1 in Hp1, Hs1, Hdom1.
  assert (Hx : Vector2.x (prev c) - Vector2.x (prev c1) = - (x - Vector2.x (prev c)))
    by (rewrite Hp1; cbn; ring).
  assert (Hy : Vector2.y (prev c) - Vector2.y (prev c1) = - (y - Vector2.y (prev c)))
    by (rewrite Hp1; cbn; ring).
  destruct (pan_there_and_back c c1 (Vector2.mk x y)
              (Vector2.mk (Vector2.x (prev c)) (Vector2.y (prev c)))
              Hs Hne Hu Hud Hs1 eq_refl eq_refl Hdom1 Hx Hy)
    as (Hd1 & Hpos & Htar & Hup).
  exists c1, (panned c1 (Vector2.mk (Vector2.x (prev c)) (Vector2.y (prev c)))).
  split; [apply pan_panning; assumption|].
  split; [apply pan_panning; [exact Hs1 | exact Hd1 | rewrite Hdom1; exact Hh]|].
  auto.
Qed.

Lemma pan_drag_round_trip_witness :
  exists c1 c2,
    pan (keyStart sample) 40 25 = Ok c1
    /\ pan c1 (Vector2.x (prev (keyStart sample))) (Vector2.y (prev (keyStart sample)))
       = Ok c2
    /\ position (object c2) = position (object (keyStart sample))
    /\ up (object c2) = up (object (keyStart sample))
    /\ target c2 = target (keyStart sample).
Proof.
  apply (pan_drag_round_trip (keyStart sample) 40 25).
  - reflexivity.
  - apply sample_viewport.
  - apply sample_away.
  - apply sample_up_unit.
  - apply sample_up_orthogonal.
Defined.

Lemma onKeyDown_keyDelta (c : Controls) (event : KeyboardEvent) :
  onKeyDown c event
  = match keyDelta c (keyCode event) with
    | Some (x, y) => pan (keyStart c) x y
    | None => Ok c
    end.
Proof. reflexivity. Qed.

Lemma panned_sameConfiguration (c : Controls) (curr : Vector2.t) :
  state c = PANNING -> distToTarget c <> 0 ->
  sameConfiguration (panned c curr) c.
Proof.
  intros Hs Hd. destruct (panned_facts c curr Hs Hd) as (_ & _ & _ & _ & _ & Hset).
  destruct (panned_camera c curr Hs Hd) as (_ & Hfov).
  unfold sameConfiguration. split; [exact Hset|].
  unfold panned, update.
  cbn [with_prev with_target with_position with_object state lookAt object target].
  rewrite Hs. destruct (State_eq_dec PANNING ROTATING); [discriminate|].
  cbn. repeat split.
Qed.

Lemma keyStart_fields (c : Controls) :
  state (keyStart c) = PANNING
  /\ object (keyStart c) = object c
  /\ target (keyStart c) = target c
  /\ domElement (keyStart c) = domElement c
  /\ prev (keyStart c) = Vector2.mk 0 0.
Proof. repeat split. Qed.

(** Two key presses in a row, the second undoing the first. *)
Lemma keyStart_round_trip (c : Controls) (x y x' y' : R) :
  x' = - x -> y' = - y ->
  clientHeight (domElement c) <> 0 ->
  position (object c) <> target c ->
  Vector3.length (up (object c)) = 1 ->
  Vector3.dot (up (object c))
    (Vector3.subVectors (target c) (position (object c))) = 0 ->
  exists c1 c2,
    pan (keyStart c) x y = Ok c1
    /\ pan (keyStart c1) x' y' = Ok c2
    /\ keys c1 = keys c /\ keyPanSpeed c1 = keyPanSpeed c
    /\ position (object c2) = position (object c)
    /\ up (object c2) = up (object c)
    /\ target c2 = target c.
Proof.
  intros Hx Hy Hh Hne Hu Hud.
  destruct (keyStart_fields c) as (Hs & Ho & Ht & Hdom & Hp).
  assert (Hne' : position (object (keyStart c)) <> target (keyStart c))
    by (rewrite Ho, Ht; exact Hne).
  assert (Hu' : Vector3.length (up (object (keyStart c))) = 1)
    by (rewrite Ho; exact Hu).
  assert (Hud' : Vector3.dot (up (object (keyStart c)))
                   (Vector3.subVectors (target (keyStart c))
                      (position (object (keyStart c)))) = 0)
    by (rewrite Ho, Ht; exact Hud).
  assert (Hh' : clientHeight (domElement (keyStart c)) <> 0)
    by (rewrite Hdom; exact Hh).
  pose proof (distToTarget_nonzero _ Hne') as Hd.
  destruct (panned_sameConfiguration (keyStart c) (Vector2.mk x y) Hs Hd)
    as (Hset & Hk & Hkps & _).
  assert (Hdom1 : domElement (panned (keyStart c) (Vector2.mk x y))
                  = domElement (keyStart c)) by apply Hset.
  destruct (keyStart_fields (panned (keyStart c) (Vector2.mk x y)))
    as (Hs2 & Ho2 & Ht2 & Hdom2 & Hp2).
  assert (Hx2 : Vector2.x (Vector2.mk x' y')
                - Vector2.x (prev (keyStart (panned (keyStart c) (Vector2.mk x y))))
                = - (Vector2.x (Vector2.mk x y) - Vector2.x (prev (keyStart c)))).
  { rewrite Hp2, Hp, Hx. cbn [Vector2.x]. ring. }
  assert (Hy2 : Vector2.y (Vector2.mk x' y')
                - Vector2.y (prev (keyStart (panned (keyStart c) (Vector2.mk x y))))
                = - (Vector2.y (Vector2.mk x y) - Vector2.y (prev (keyStart c)))).
  { rewrite Hp2, Hp, Hy. cbn [Vector2.y]. ring. }
  destruct (pan_there_and_back (keyStart c)
              (keyStart (panned (keyStart c) (Vector2.mk x y)))
              (Vector2.mk x y) (Vector2.mk x' y')
              Hs Hne' Hu' Hud' Hs2 Ho2 Ht2 (eq_trans Hdom2 Hdom1) Hx2 Hy2)
    as (Hd1 & Hpos & Htar & Hup).
  exists (panned (keyStart c) (Vector2.mk x y)),
    (panned (keyStart (panned (keyStart c) (Vector2.mk x y))) (Vector2.mk x' y')).
  split; [apply pan_panning; assumption|].
  split.
  { apply pan_panning; [exact Hs2 | exact Hd1 |].
    rewrite Hdom2, Hdom1. exact Hh'. }
  rewrite Hk, Hkps, Hpos, Htar, Hup, Ho, Ht. repeat split.
Qed.

(** X7. With four distinct key codes, pressing an arrow key and then the
    opposite one (left and right, or up and down, in either order)
    restores the camera position, the up vector and the target exactly,
    for a camera away from the target whose up vector is a unit vector
    orthogonal to the view vector. *)
Theorem opposite_keys_round_trip (c : Controls) (e1 e2 : KeyboardEvent) :
  NoDup [UP (keys c); DOWN (keys c); LEFT (keys c); RIGHT (keys c)] ->
  (keyCode e1 = LEFT (keys c) /\ keyCode e2 = RIGHT (keys c))
  \/ (keyCode e1 = RIGHT (keys c) /\ keyCode e2 = LEFT (keys c))
  \/ (keyCode e1 = UP (keys c) /\ keyCode e2 = DOWN (keys c))
  \/ (keyCode e1 = DOWN (keys c) /\ keyCode e2 = UP (keys c)) ->
  clientHeight (domElement c) <> 0 ->
  position (object c) <> target c ->
  Vector3.length (up (object c)) = 1 ->
  Vector3.dot (up (object c))
    (Vector3.subVectors (target c) (position (object c))) = 0 ->
  exists c1 c2,
    onKeyDown c e1 = Ok c1
    /\ onKeyDown c1 e2 = Ok c2
    /\ position (object c2) = position (object c)
    /\ up (object c2) = up (object c)
    /\ target c2 = target c.
Proof.
  intros Hnd Hkeys Hh Hne Hu Hud.
  assert (Hdist : UP (keys c) <> DOWN (keys c) /\ UP (keys c) <> LEFT (keys c)
                  /\ UP (keys c) <> RIGHT (keys c) /\ DOWN (keys c) <> LEFT (keys c)
                  /\ DOWN (keys c) <> RIGHT (keys c)
                  /\ LEFT (keys c) <> RIGHT (keys c)).
  { inversion Hnd as [|? ? N1 Hnd1]; subst.
    inversion Hnd1 as [|? ? N2 Hnd2]; subst.
    inversion Hnd2 as [|? ? N3 _]; subst.
    cbn in N1, N2, N3. intuition congruence. }
  destruct Hdist as (Hud' & Hul & Hur & Hdl & Hdr & Hlr).
  assert (Hpair : exists x y x' y',
            keyDelta c (keyCode e1) = Some (x, y)
            /\ keyDelta c (keyCode e2) = Some (x', y')
            /\ x' - 0 = - (x - 0) /\ y' - 0 = - (y - 0)).
  { unfold keyDelta.
    destruct Hkeys as [(-> & ->) | [(-> & ->) | [(-> & ->) | (-> & ->)]]];
      repeat match goal with
        | |- context [Z.eqb ?a ?b] =>
            destruct (Z.eqb_spec a b); try congruence
        end;
      do 4 eexists; (split; [reflexivity|]); (split; [reflexivity|]); split; ring. }
  destruct Hpair as (x & y & x' & y' & K1 & K2 & Hx & Hy).
  destruct (keyStart_round_trip c x y x' y') as (c1 & c2 & P1 & P2 & Hk & Hkps & R);
    try assumption; try lra.
  exists c1, c2.
  split; [rewrite onKeyDown_keyDelta, K1; exact P1|].
  split; [|exact R].
  rewrite onKeyDown_keyDelta.
  assert (K2' : keyDelta c1 (keyCode e2) = Some (x', y')).
  { unfold keyDelta in *. rewrite Hk, Hkps. exact K2. }
  rewrite K2'. exact P2.
Qed.

Lemma opposite_keys_round_trip_witness :
  exists c1 c2,
    onKeyDown sample (mkKeyboardEvent 37) = Ok c1
    /\ onKeyDown c1 (mkKeyboardEvent 39) = Ok c2
    /\ position (object c2) = position (object sample)
    /\ up (object c2) = up (object sample)
    /\ target c2 = target sample.
Proof.
  apply (opposite_keys_round_trip sample (mkKeyboardEvent 37) (mkKeyboardEvent 39)).
  - cbn. repeat constructor; cbn; intuition discriminate.
  - left. split; reflexivity.
  - apply sample_viewport.
  - apply sample_away.
  - apply sample_up_unit.
  - apply sample_up_orthogonal.
Defined.

(** ** What a rotate gesture depends on *)

Lemma rotateTheta_at (c : Controls) (curr : Vector2.t) :
  clientHeight (domElement c) <> 0 -> rotateTheta c curr = Ok (thetaAt c curr).
Proof. intros H. unfold rotateTheta. rewrite (div_ok _ _ H). reflexivity. Qed.

Lemma rotatePhi_at (c : Controls) (curr : Vector2.t) :
  clientWidth (domElement c) <> 0 -> rotatePhi c curr = Ok (phiAt c curr).
Proof. intros H. unfold rotatePhi. rewrite (div_ok _ _ H). reflexivity. Qed.

Lemma rotate_rotating_at (c : Controls) (x y : R) (xAxis yAxis zAxis : Vector3.t) :
  state c = ROTATING ->
  basisMatrix c = frameMatrix (target c) xAxis yAxis zAxis ->
  clientWidth (domElement c) <> 0 ->
  clientHeight (domElement c) <> 0 ->
  rotate c x y
  = Ok (update (with_position c
                  (placed (target c) xAxis yAxis zAxis
                     (sphericalPos (radius c) (thetaAt c (Vector2.mk x y))
                        (phiAt c (Vector2.mk x y)))))).
Proof.
  intros Hs Hm Hw Hh. unfold rotate. rewrite Hs.
  destruct (State_eq_dec ROTATING INDETERMINATE) as [E|_]; [discriminate|].
  cbn [bind]. rewrite Hs.
  destruct (State_eq_dec ROTATING ROTATING) as [_|N]; [|congruence].
  rewrite (rotatePhi_at c _ Hw), (rotateTheta_at c _ Hh). cbn [bind].
  rewrite Hm, applyMatrix4_frame. reflexivity.
Qed.

Lemma angles_of_gesture (c0 c : Controls) (press curr : Vector2.t) :
  prev c = press -> rotateSpeed c = rotateSpeed c0 ->
  domElement c = domElement c0 ->
  thetaAt c curr = thetaAt (with_prev c0 press) curr
  /\ phiAt c curr = phiAt (with_prev c0 press) curr.
Proof.
  intros Hp Hr Hd. unfold thetaAt, phiAt, rotateDelta.
  cbn [with_prev prev rotateSpeed domElement]. rewrite Hp, Hr, Hd. split; reflexivity.
Qed.

(** In a rotate gesture, a move that is handled in state ROTATING puts the
    camera where the pointer position alone says. *)
Lemma rotate_in_gesture (c0 c : Controls) (press : Vector2.t) (x y : R) :
  clientWidth (domElement c0) <> 0 ->
  clientHeight (domElement c0) <> 0 ->
  Vector3.length (Vector3.subVectors (position (object c0)) (target c0)) <> 0 ->
  rotateGesture c0 press c ->
  state c = ROTATING
  \/ gtb (Vector2.manhattanDistanceTo (Vector2.mk x y) press) ClickThreshold = true ->
  exists c',
    rotate c x y = Ok c'
    /\ state c' = ROTATING
    /\ position (object c') = rotatedPosition c0 press (Vector2.mk x y)
    /\ up (object c') = up (object c0)
    /\ target c' = target c0.
Proof.
  intros Hw Hh Hr (Hl & Hset & Hprev & Ht & Hu & Hcase) Hconf.
  assert (Hstep : forall c1,
    sameSettings c1 c0 -> prev c1 = press ->
    target c1 = target c0 -> up (object c1) = up (object c0) ->
    state c1 = ROTATING ->
    basisMatrix c1
    = frameMatrix (target c0)
        (rightAxis (position (object c0)) (target c0) (up (object c0)))
        (up (object c0)) (viewAxis (position (object c0)) (target c0)) ->
    radius c1
    = Vector3.length (Vector3.subVectors (position (object c0)) (target c0)) ->
    exists c',
      rotate c1 x y = Ok c'
      /\ state c' = ROTATING
      /\ position (object c') = rotatedPosition c0 press (Vector2.mk x y)
      /\ up (object c') = up (object c0)
      /\ target c' = target c0).
  { intros c1 Hset1 Hprev1 Ht1 Hu1 Hs1 Hm1 Hrad1.
    assert (Hdom1 : domElement c1 = domElement c0) by apply Hset1.
    assert (Hrs1 : rotateSpeed c1 = rotateSpeed c0) by apply Hset1.
    destruct (angles_of_gesture c0 c1 press (Vector2.mk x y) Hprev1 Hrs1 Hdom1)
      as [Eth Eph].
    eexists. split.
    { apply (rotate_rotating_at c1 x y
               (rightAxis (position (object c0)) (target c0) (up (object c0)))
               (up (object c0)) (viewAxis (position (object c0)) (target c0)) Hs1).
      - rewrite Ht1. exact Hm1.
      - rewrite Hdom1. exact Hw.
      - rewrite Hdom1. exact Hh. }
    rewrite update_state, update_position, update_up, update_target.
    cbn [with_position with_object state object position up target].
    rewrite Hs1. destruct (State_eq_dec ROTATING ROTATING) as [_|N]; [|congruence].
    rewrite Ht1, Hrad1, Eth, Eph. unfold rotatedPosition. auto. }
  destruct Hcase as [(Hs & Hp & _) | (Hs & Hm & Hrad & _)].
  - destruct Hconf as [Hrot | Hd]; [congruence|].
    rewrite <- Hprev in Hd.
    assert (Hr' : Vector3.length
                    (Vector3.subVectors (position (object c)) (target c)) <> 0)
      by (rewrite Hp, Ht; exact Hr).
    rewrite (rotate_promoted c x y Hs Hd Hr').
    apply Hstep; unfold captured; cbn; try assumption.
    + reflexivity.
    + rewrite Hp, Ht, Hu. reflexivity.
    + rewrite Hp, Ht. reflexivity.
  - apply Hstep; assumption.
Qed.

Lemma run_snoc (c : Controls) (es : list Event) (e : Event) :
  run c (es ++ [e]) = (c' <- run c es ;; handle c' e).
Proof.
  rewrite run_app. destruct (run c es) as [c1|err]; cbn [bind run]; [|reflexivity].
  destruct (handle c1 e); reflexivity.
Qed.

Lemma handle_rotateMove (c0 c : Controls) (press : Vector2.t) (event : MouseEvent) :
  rotateGesture c0 press c -> isRotateMove c0 event ->
  handle c (MouseMove event) = rotate c (clientX event) (clientY event).
Proof.
  intros (Hl & Hset & _) [Hb Hmod]. cbn [handle]. rewrite Hl.
  unfold onMouseMove. rewrite Hb. cbn [Z.eqb Pos.eqb].
  rewrite (sameSettings_modifier c c0 event Hset), Hmod. reflexivity.
Qed.

(** X8. The camera of a rotate gesture depends on the pointer position
    only, not on the path: after a press and any rotate moves that end with a
    move beyond the click threshold, camera position, up vector and target
    are the same as after the press and that last move alone.  ([rotate]
    never advances [prev].) *)
Theorem rotate_path_independent (c0 : Controls) (press : MouseEvent)
    (moves : list MouseEvent) (last : MouseEvent) :
  clientWidth (domElement c0) <> 0 ->
  clientHeight (domElement c0) <> 0 ->
  position (object c0) <> target c0 ->
  Forall (isRotateMove c0) moves ->
  isRotateMove c0 last ->
  exceeds (Vector2.mk (clientX press) (clientY press)) last = true ->
  exists c1 c2,
    run (onMouseDown c0 press) (map MouseMove (moves ++ [last])) = Ok c1
    /\ run (onMouseDown c0 press) (map MouseMove [last]) = Ok c2
    /\ position (object c1) = position (object c2)
    /\ up (object c1) = up (object c2)
    /\ target c1 = target c2.
Proof.
  intros Hw Hh Hne Hall Hlast He.
  pose proof (length_nonzero _ _ Hne) as Hr.
  pose proof (onMouseDown_rotateGesture c0 press) as Hg0.
  destruct (rotate_moves_rotateGesture c0 _ moves Hw Hh Hr Hall _ Hg0)
    as (c & Hrun & Hg).
  destruct (rotate_in_gesture c0 c _ (clientX last) (clientY last) Hw Hh Hr Hg
              (or_intror He))
    as (c1 & H1 & _ & Hp1 & Hu1 & Ht1).
  destruct (rotate_in_gesture c0 _ _ (clientX last) (clientY last) Hw Hh Hr Hg0
              (or_intror He))
    as (c2 & H2 & _ & Hp2 & Hu2 & Ht2).
  exists c1, c2. split; [|split].
  - rewrite map_app. cbn [map]. rewrite run_snoc, Hrun. cbn [bind].
    rewrite (handle_rotateMove c0 c _ last Hg Hlast). exact H1.
  - cbn [map run]. rewrite (handle_rotateMove c0 _ _ last Hg0 Hlast), H2.
    reflexivity.
  - rewrite Hp1, Hp2, Hu1, Hu2, Ht1, Ht2. auto.
Qed.

Lemma rotate_path_independent_witness :
  exists c1 c2,
    run (onMouseDown sample pressAt100)
      (map MouseMove ([moveTo 120 130 1; moveTo 90 80 1] ++ [moveTo 150 100 1]))
    = Ok c1
    /\ run (onMouseDown sample pressAt100) (map MouseMove [moveTo 150 100 1]) = Ok c2
    /\ position (object c1) = position (object c2)
    /\ up (object c1) = up (object c2)
    /\ target c1 = target c2.
Proof.
  apply (rotate_path_independent sample pressAt100
           [moveTo 120 130 1; moveTo 90 80 1] (moveTo 150 100 1)).
  - apply sample_viewport.
  - apply sample_viewport.
  - apply sample_away.
  - repeat constructor.
  - split; reflexivity.
  - apply gtb_true. unfold Vector2.manhattanDistanceTo, ClickThreshold. cbn.
    unfold Rabs. repeat destruct Rcase_abs; lra.
Defined.

Lemma rotatedPosition_at_press (c0 : Controls) (press : Vector2.t) :
  clientWidth (domElement c0) <> 0 ->
  clientHeight (domElement c0) <> 0 ->
  Vector3.length (Vector3.subVectors (position (object c0)) (target c0)) <> 0 ->
  rotatedPosition c0 press press = position (object c0).
Proof.
  intros Hw Hh Hr. unfold rotatedPosition.
  assert (Hth : thetaAt (with_prev c0 press) press = PI / 2).
  { unfold thetaAt, rotateDelta. cbn [with_prev prev rotateSpeed domElement].
    cbn [Vector2.subVectors Vector2.multiplyScalar Vector2.x Vector2.y].
    replace (- ((Vector2.y press - Vector2.y press) * (2 * rotateSpeed c0))
             * (PI / clientHeight (domElement c0)) + PI / 2)
      with (PI / 2) by (field; exact Hh).
    pose proof PI2_1 as HPI. unfold eps.
    rewrite Rmax_left by lra. apply Rmin_left. lra. }
  assert (Hph : phiAt (with_prev c0 press) press = 0).
  { unfold phiAt, rotateDelta. cbn [with_prev prev rotateSpeed domElement].
    cbn [Vector2.subVectors Vector2.multiplyScalar Vector2.x Vector2.y].
    field. exact Hw. }
  rewrite Hth, Hph. unfold sphericalPos. rewrite sin_PI2, cos_PI2, sin_0, cos_0.
  unfold placed, viewAxis.
  set (r := Vector3.length (Vector3.subVectors (position (object c0)) (target c0)))
    in *.
  apply vector3_ext;
    cbn [Vector3.x Vector3.y Vector3.z Vector3.subVectors Vector3.multiplyScalar];
    field; exact Hr.
Qed.

(** X9. A rotate gesture that comes back to the point of the press puts
    the camera back: after a press and any rotate moves that end with a
    move at the press position, camera position, up vector and target are
    the ones at the press. *)
Theorem rotate_back_to_press (c0 : Controls) (press : MouseEvent)
    (moves : list MouseEvent) (back : MouseEvent) :
  clientWidth (domElement c0) <> 0 ->
  clientHeight (domElement c0) <> 0 ->
  position (object c0) <> target c0 ->
  Forall (isRotateMove c0) moves ->
  isRotateMove c0 back ->
  clientX back = clientX press ->
  clientY back = clientY press ->
  exists c',
    run (onMouseDown c0 press) (map MouseMove (moves ++ [back])) = Ok c'
    /\ position (object c') = position (object c0)
    /\ up (object c') = up (object c0)
    /\ target c' = target c0.
Proof.
  intros Hw Hh Hne Hall Hback Hx Hy.
  pose proof (length_nonzero _ _ Hne) as Hr.
  destruct (rotate_moves_rotateGesture c0 _ moves Hw Hh Hr Hall _
              (onMouseDown_rotateGesture c0 press))
    as (c & Hrun & Hg).
  rewrite map_app. cbn [map]. rewrite run_snoc, Hrun. cbn [bind].
  rewrite (handle_rotateMove c0 c _ back Hg Hback), Hx, Hy.
  pose proof Hg as (_ & _ & Hprev & Ht & Hu & Hcase).
  destruct Hcase as [(Hs & Hp & _) | (Hs & _)].
  - exists c. split; [|auto].
    apply rotate_below_threshold; [exact Hs|].
    apply gtb_false. rewrite Hprev.
    unfold Vector2.manhattanDistanceTo, ClickThreshold. cbn [Vector2.x Vector2.y].
    replace (clientX press - clientX press) with 0 by ring.
    replace (clientY press - clientY press) with 0 by ring.
    rewrite Rabs_R0. lra.
  - destruct (rotate_in_gesture c0 c _ (clientX press) (clientY press) Hw Hh Hr Hg
                (or_introl Hs))
      as (c' & H & _ & Hp' & Hu' & Ht').
    exists c'. split; [exact H|].
    rewrite Hp', (rotatedPosition_at_press c0 _ Hw Hh Hr). auto.
Qed.

Lemma rotate_back_to_press_witness :
  exists c',
    run (onMouseDown sample pressAt100)
      (map MouseMove ([moveTo 150 100 1; moveTo 90 80 1] ++ [moveTo 100 100 1]))
    = Ok c'
    /\ position (object c') = position (object sample)
    /\ up (object c') = up (object sample)
    /\ target c' = target sample.
Proof.
  apply (rotate_back_to_press sample pressAt100
           [moveTo 150 100 1; moveTo 90 80 1] (moveTo 100 100 1)).
  - apply sample_viewport.
  - apply sample_viewport.
  - apply sample_away.
  - repeat constructor.
  - split; reflexivity.
  - reflexivity.
  - reflexivity.
Defined.

(** ** What no handler touches *)

Ltac same_fields :=
  unfold sameConfiguration, sameSettings; cbn; repeat split.

Lemma sameConfiguration_refl (c : Controls) : sameConfiguration c c.
Proof. same_fields. Qed.

Lemma sameConfiguration_trans (a b c : Controls) :
  sameConfiguration a b -> sameConfiguration b c -> sameConfiguration a c.
Proof.
  intros (S1 & A1 & A2 & A3 & A4 & A5) (S2 & B1 & B2 & B3 & B4 & B5).
  split; [apply (sameSettings_trans _ _ _ S1 S2)|].
  repeat split; congruence.
Qed.

Lemma update_sameConfiguration (c : Controls) : sameConfiguration (update c) c.
Proof.
  unfold update, fixUp. destruct (State_eq_dec _ ROTATING); same_fields.
Qed.

Lemma with_prev_sameConfiguration (c : Controls) (p : Vector2.t) :
  sameConfiguration (with_prev c p) c.
Proof. same_fields. Qed.

Lemma with_state_sameConfiguration (c : Controls) (s : State) :
  sameConfiguration (with_state c s) c.
Proof. same_fields. Qed.

Lemma with_position_sameConfiguration (c : Controls) (p : Vector3.t) :
  sameConfiguration (with_position c p) c.
Proof. same_fields. Qed.

Lemma with_target_sameConfiguration (c : Controls) (t : Vector3.t) :
  sameConfiguration (with_target c t) c.
Proof. same_fields. Qed.

Lemma with_radius_sameConfiguration (c : Controls) (r : R) :
  sameConfiguration (with_radius c r) c.
Proof. same_fields. Qed.

Lemma with_basisMatrix_sameConfiguration (c : Controls) (m : Matrix4.t) :
  sameConfiguration (with_basisMatrix c m) c.
Proof. same_fields. Qed.

Ltac same_chain :=
  repeat first
    [ apply sameConfiguration_refl
    | assumption
    | eapply sameConfiguration_trans; [apply with_prev_sameConfiguration|]
    | eapply sameConfiguration_trans; [apply update_sameConfiguration|]
    | eapply sameConfiguration_trans; [apply with_position_sameConfiguration|]
    | eapply sameConfiguration_trans; [apply with_target_sameConfiguration|]
    | eapply sameConfiguration_trans; [apply with_state_sameConfiguration|]
    | eapply sameConfiguration_trans; [apply with_radius_sameConfiguration|]
    | eapply sameConfiguration_trans; [apply with_basisMatrix_sameConfiguration|] ].

Lemma promote_sameConfiguration (c : Controls) (curr : Vector2.t) (s : State) :
  sameConfiguration (promote c curr s) c.
Proof.
  destruct (promote_cases c curr s) as [H | (_ & _ & H)]; rewrite H; same_fields.
Qed.

Lemma rotate_sameConfiguration (c : Controls) (x y : R) (c' : Controls) :
  rotate c x y = Ok c' -> sameConfiguration c' c.
Proof.
  unfold rotate.
  assert (Hstep : forall c1,
    sameConfiguration c1 c ->
    (if State_eq_dec (state c1) ROTATING then
       phi <- rotatePhi c1 (Vector2.mk x y) ;;
       theta <- rotateTheta c1 (Vector2.mk x y) ;;
       pos <- Vector3.applyMatrix4 (sphericalPos (radius c1) theta phi)
                (basisMatrix c1) ;;
       Ok (update (with_position c1 pos))
     else Ok c1) = Ok c' ->
    sameConfiguration c' c).
  { intros c1 H1. destruct (State_eq_dec (state c1) ROTATING).
    - repeat break_if; intros E; try discriminate. injection E as <-.
      same_chain.
    - intros E. injection E as <-. exact H1. }
  destruct (State_eq_dec (state c) INDETERMINATE).
  - destruct (gtb _ ClickThreshold).
    + unfold captureFrame, Vector3.divideScalar, div.
      destruct (Req_dec_T _ 0); cbn [bind]; [discriminate|].
      apply Hstep. same_chain.
    + cbn [bind]. apply Hstep, sameConfiguration_refl.
  - cbn [bind]. apply Hstep, sameConfiguration_refl.
Qed.

Lemma dolly_sameConfiguration (c : Controls) (x y : R) (c' : Controls) :
  dolly c x y = Ok c' -> sameConfiguration c' c.
Proof.
  unfold dolly. set (c1 := promote c (Vector2.mk x y) DOLLYING).
  pose proof (promote_sameConfiguration c (Vector2.mk x y) DOLLYING) as H1.
  fold c1 in H1.
  destruct (State_eq_dec (state c1) DOLLYING);
    [|intros E; injection E as <-; exact H1].
  destruct (dollyDelta c1 y) as [delta|err]; cbn [bind]; [|discriminate].
  destruct (dollyAccepts c1 delta); [|intros E; injection E as <-; exact H1].
  destruct (div delta (distToTarget c1)) as [k|err]; cbn [bind]; [|discriminate].
  intros E. injection E as <-. same_chain.
Qed.

Lemma pan_sameConfiguration (c : Controls) (x y : R) (c' : Controls) :
  pan c x y = Ok c' -> sameConfiguration c' c.
Proof.
  intros H. unfold pan in H. set (c1 := promote c (Vector2.mk x y) PANNING) in *.
  pose proof (promote_sameConfiguration c (Vector2.mk x y) PANNING) as H1.
  fold c1 in H1.
  destruct (State_eq_dec (state c1) PANNING);
    [|injection H as <-; exact H1].
  destruct (Vector3.divideScalar _ _) as [zAxis|err]; cbn [bind] in H; [|discriminate].
  destruct (div _ _) as [pxToWorld|err]; cbn [bind] in H; [|discriminate].
  injection H as <-. same_chain.
Qed.

Lemma handle_sameConfiguration (c : Controls) (e : Event) (c' : Controls) :
  handle c e = Ok c' -> sameConfiguration c' c.
Proof.
  destruct e as [m|m| |w|k|]; cbn [handle].
  - intros E. injection E as <-. same_fields.
  - destruct (listening c); [|intros E; injection E as <-; apply sameConfiguration_refl].
    rewrite onMouseMove_gestureOf.
    destruct (gestureOf c m) as [[| | | |]|];
      try (intros E; injection E as <-; apply sameConfiguration_refl).
    + apply rotate_sameConfiguration.
    + apply dolly_sameConfiguration.
    + apply pan_sameConfiguration.
  - destruct (listening c); intros E; injection E as <-;
      [|apply sameConfiguration_refl].
    unfold onMouseUp, fixUp. destruct (State_eq_dec (state c) ROTATING); same_fields.
  - unfold onMouseWheel. intros H.
    apply (sameConfiguration_trans _ _ _ (dolly_sameConfiguration _ _ _ _ H)).
    same_chain.
  - rewrite onKeyDown_keyDelta.
    destruct (keyDelta c (keyCode k)) as [[x y]|];
      [|intros E; injection E as <-; apply sameConfiguration_refl].
    intros H. apply (sameConfiguration_trans _ _ _ (pan_sameConfiguration _ _ _ _ H)).
    unfold keyStart. same_chain.
  - intros E. injection E as <-. apply sameConfiguration_refl.
Qed.

Lemma run_sameConfiguration (es : list Event) :
  forall c c', run c es = Ok c' -> sameConfiguration c' c.
Proof.
  induction es as [|e es IH]; intros c c' H; cbn [run] in H.
  - injection H as <-. apply sameConfiguration_refl.
  - destruct (handle c e) as [c1|err] eqn:H1; cbn [bind] in H; [|discriminate].
    apply (sameConfiguration_trans _ c1);
      [apply IH; exact H | apply handle_sameConfiguration with e; exact H1].
Qed.

(** X10. No sequence of events writes the configuration: after any events
    that were processed, the speeds, the distance bounds, the pan modifier
    switches, the key bindings, the viewport, the field of view and the
    position and target stored for [reset] are what they were.  So [reset]
    after any gestures puts the camera and the target back at the stored
    values. *)
Theorem reset_after_events (c : Controls) (es : list Event) (c' : Controls) :
  run c es = Ok c' ->
  sameConfiguration c' c
  /\ position (object (reset c')) = position0 c
  /\ target (reset c') = target0 c.
Proof.
  intros H. pose proof (run_sameConfiguration es c c' H) as Hc.
  split; [exact Hc|].
  destruct Hc as (_ & _ & _ & Ht0 & Hp0 & _).
  rewrite reset_position, reset_target, Ht0, Hp0. split; reflexivity.
Qed.

Lemma reset_after_events_witness :
  exists c',
    run sample [Wheel (mkWheelEvent 32)] = Ok c'
    /\ sameConfiguration c' sample
    /\ position (object (reset c')) = position0 sample
    /\ target (reset c') = target0 sample.
Proof.
  destruct (sample_wheel 32) as [Hw _]; [lra|].
  eexists. split.
  - cbn [run handle]. rewrite Hw. reflexivity.
  - apply (reset_after_events sample [Wheel (mkWheelEvent 32)]).
    cbn [run handle]. rewrite Hw. reflexivity.
Defined.

(** ** Change events *)

Lemma promote_quiet (c : Controls) (curr : Vector2.t) (s : State) :
  trace (promote c curr s) = trace c
  /\ object (promote c curr s) = object c
  /\ target (promote c curr s) = target c.
Proof.
  destruct (promote_object c curr s) as [Ho Ht].
  split; [apply promote_trace | auto].
Qed.

(** X11. Every event that is processed either leaves the camera, the
    target and the trace as they are, or emits exactly one change event; the
    one exception is the release that ends a rotate gesture, which lets
    [fixUp] rewrite the up vector without a change event (position and
    target stay). *)
Theorem one_change_event_per_event (c : Controls) (e : Event) (c' : Controls) :
  handle c e = Ok c' ->
  (trace c' = trace c /\ object c' = object c /\ target c' = target c)
  \/ (e = MouseUp /\ state c = ROTATING
      /\ trace c' = FixUpCall :: trace c
      /\ position (object c') = position (object c) /\ target c' = target c)
  \/ changeEvents (trace c') = S (changeEvents (trace c)).
Proof.
  destruct e as [m|m| |w|k|]; cbn [handle].
  - intros E. injection E as <-. left. repeat split.
  - destruct (listening c); [|intros E; injection E as <-; left; auto].
    rewrite onMouseMove_gestureOf.
    destruct (gestureOf c m) as [[| | | |]|];
      try (intros E; injection E as <-; left; auto).
    + intros H. destruct (rotate_effects _ _ _ _ H) as [-> | (_ & _ & Ht & _)];
        [left; auto | right; right; rewrite Ht; reflexivity].
    + intros H. destruct (dolly_effects _ _ _ _ H) as [-> | (_ & Ht & _)];
        [left; apply promote_quiet | right; right; rewrite Ht; reflexivity].
    + intros H. destruct (pan_effects _ _ _ _ H) as [(-> & _) | (_ & Ht & _)];
        [left; apply promote_quiet | right; right; rewrite Ht; reflexivity].
  - destruct (listening c); intros E; injection E as <-; [|left; auto].
    destruct (onMouseUp_fields c) as (_ & _ & _ & Ht & Hp & Htar).
    destruct (State_eq_dec (state c) ROTATING) as [Hs|Hs].
    + right; left. auto.
    + left. split; [exact Ht|]. split; [|exact Htar].
      unfold onMouseUp. destruct (State_eq_dec (state c) ROTATING);
        [contradiction | reflexivity].
  - unfold onMouseWheel. intros H.
    destruct (dolly_effects _ _ _ _ H) as [-> | (_ & Ht & _)].
    + left. apply (promote_quiet (with_prev (with_state c DOLLYING) (Vector2.mk 0 0))).
    + right; right. rewrite Ht. reflexivity.
  - rewrite onKeyDown_keyDelta.
    destruct (keyDelta c (keyCode k)) as [[x y]|];
      [|intros E; injection E as <-; left; auto].
    intros H. destruct (pan_effects _ _ _ _ H) as [(-> & _) | (_ & Ht & _)].
    + left. apply (promote_quiet (keyStart c)).
    + right; right. rewrite Ht. reflexivity.
  - intros E. injection E as <-. left. auto.
Qed.

Lemma one_change_event_per_event_witness :
  exists c',
    handle sample (Wheel (mkWheelEvent 32)) = Ok c'
    /\ ((trace c' = trace sample /\ object c' = object sample
         /\ target c' = target sample)
        \/ (Wheel (mkWheelEvent 32) = MouseUp /\ state sample = ROTATING
            /\ trace c' = FixUpCall :: trace sample
            /\ position (object c') = position (object sample)
            /\ target c' = target sample)
        \/ changeEvents (trace c') = S (changeEvents (trace sample))).
Proof.
  destruct (sample_wheel 32) as [Hw _]; [lra|].
  eexists. split; [exact Hw|].
  apply (one_change_event_per_event sample (Wheel (mkWheelEvent 32))).
  exact Hw.
Defined.

(** ** Where [dolly] moves the camera *)

Lemma dollied_offset (c : Controls) (delta : R) (curr : Vector2.t) :
  distToTarget c <> 0 ->
  Vector3.subVectors (target (dollied c delta curr))
    (position (object (dollied c delta curr)))
  = Vector3.multiplyScalar
      (Vector3.subVectors (target c) (position (object c)))
      ((distToTarget c + delta) / distToTarget c)
  /\ target (dollied c delta curr) = target c.
Proof.
  intros Hd. unfold dollied. cbn [with_prev target object].
  rewrite update_target, update_position.
  cbn [with_position with_object target object position].
  split; [|reflexivity].
  set (l := distToTarget c) in *.
  apply vector3_ext;
    cbn [Vector3.subVectors Vector3.sub Vector3.multiplyScalar
         Vector3.x Vector3.y Vector3.z];
    field; exact Hd.
Qed.

Lemma multiplyScalar_one (v : Vector3.t) : v = Vector3.multiplyScalar v 1.
Proof. apply vector3_ext; cbn; ring. Qed.

(** X12. [dolly] keeps the camera on its line of sight and never takes it
    past the target: with [0 <= minDistance], for a camera away from the
    target, every call returns a controller whose vector from camera to
    target is the old one times a factor [k >= 0], with the target where
    it was. *)
Theorem dolly_stays_on_line_of_sight (c : Controls) (x y : R) :
  clientHeight (domElement c) <> 0 ->
  position (object c) <> target c ->
  0 <= minDistance c ->
  exists c' k,
    dolly c x y = Ok c'
    /\ 0 <= k
    /\ Vector3.subVectors (target c') (position (object c'))
       = Vector3.multiplyScalar
           (Vector3.subVectors (target c) (position (object c))) k
    /\ target c' = target c.
Proof.
  intros Hh Hne Hmin. pose proof (distToTarget_nonzero c Hne) as Hd.
  pose proof (distToTarget_nonneg c) as Hd0.
  destruct (promote_object c (Vector2.mk x y) DOLLYING) as [Ho Ht].
  destruct (dolly_outcome c x y Hh)
    as [(_ & H) | [(_ & _ & H) | [(_ & _ & Hz & _) | (Hs & Ha & _ & H)]]].
  - exists (promote c (Vector2.mk x y) DOLLYING), 1.
    split; [exact H|]. split; [lra|]. rewrite Ho, Ht.
    split; [apply multiplyScalar_one | reflexivity].
  - exists (promote c (Vector2.mk x y) DOLLYING), 1.
    split; [exact H|]. split; [lra|]. rewrite Ho, Ht.
    split; [apply multiplyScalar_one | reflexivity].
  - contradiction.
  - set (delta := scaledDelta c (Vector2.y (prev c) - y)) in *.
    assert (Hd1 : distToTarget (promote c (Vector2.mk x y) DOLLYING) <> 0)
      by (rewrite promote_distToTarget; exact Hd).
    destruct (dollied_offset _ delta (Vector2.mk x y) Hd1) as [Hoff Htar].
    rewrite promote_distToTarget, Ho, Ht in Hoff. rewrite Ht in Htar.
    apply dollyAccepts_true in Ha. destruct Ha as [Hlo _].
    eexists. exists ((distToTarget c + delta) / distToTarget c).
    split; [exact H|]. split; [|split; [exact Hoff | exact Htar]].
    apply Rmult_le_pos; [lra|]. apply Rlt_le, Rinv_0_lt_compat. lra.
Qed.

Lemma dolly_stays_on_line_of_sight_witness :
  exists c' k,
    dolly (wheelStart sample) 0 (-32) = Ok c'
    /\ 0 <= k
    /\ Vector3.subVectors (target c') (position (object c'))
       = Vector3.multiplyScalar
           (Vector3.subVectors (target (wheelStart sample))
              (position (object (wheelStart sample)))) k
    /\ target c' = target (wheelStart sample).
Proof.
  apply (dolly_stays_on_line_of_sight (wheelStart sample) 0 (-32)).
  - apply sample_viewport.
  - apply sample_away.
  - cbn. lra.
Defined.




(** X14. The cap on a dolly step: with a non-negative [zoomSpeed], a
    viewport of positive height and [minDistance <= maxDistance], the
    distance [dolly] asks to add for a pointer travel is at most
    [zoomSpeed] times twice the current distance per viewport height of
    travel; so with [zoomSpeed <= 1] a travel of at most half the viewport
    height never asks to go past the target. *)
Theorem dolly_step_capped (c : Controls) (y : R) :
  0 <= zoomSpeed c ->
  0 < clientHeight (domElement c) ->
  Bound.le (minDistance c) (maxDistance c) ->
  exists delta,
    dollyDelta c y = Ok delta
    /\ Rabs delta
       <= zoomSpeed c * (2 * distToTarget c / clientHeight (domElement c))
          * Rabs (Vector2.y (prev c) - y)
    /\ (zoomSpeed c <= 1 ->
        Rabs (Vector2.y (prev c) - y) <= clientHeight (domElement c) / 2 ->
        0 <= distToTarget c + delta).
Proof.
  intros Hz Hh Hb. pose proof (distToTarget_nonneg c) as Hd.
  assert (Hh' : clientHeight (domElement c) <> 0) by lra.
  rewrite (dollyDelta_ok c y Hh'). eexists. split; [reflexivity|].
  set (px := Vector2.y (prev c) - y).
  set (h := clientHeight (domElement c)) in *.
  set (r := Bound.min (Bound.minus (maxDistance c) (minDistance c))
              (2 * distToTarget c)).
  assert (Hr : 0 <= r <= 2 * distToTarget c).
  { unfold r. destruct (maxDistance c) as [m|]; cbn in *; [|lra].
    split; [apply Rmin_glb; lra | apply Rmin_r]. }
  assert (Hih : 0 < / h) by (apply Rinv_0_lt_compat, Hh).
  assert (Hq : 0 <= r / h <= 2 * distToTarget c / h).
  { unfold Rdiv. split; [apply Rmult_le_pos; lra|].
    apply Rmult_le_compat_r; lra. }
  assert (Habs : Rabs (zoomSpeed c * (r / h) * px)
                 = zoomSpeed c * (r / h) * Rabs px).
  { rewrite Rabs_mult, Rabs_pos_eq; [reflexivity|].
    apply Rmult_le_pos; lra. }
  pose proof (Rabs_pos px) as Hpx.
  assert (Hcap : Rabs (zoomSpeed c * (r / h) * px)
                 <= zoomSpeed c * (2 * distToTarget c / h) * Rabs px).
  { rewrite Habs. apply Rmult_le_compat_r; [exact Hpx|].
    apply Rmult_le_compat_l; lra. }
  split; [exact Hcap|].
  intros Hz1 Hhalf.
  assert (Hdh : 0 <= 2 * distToTarget c / h).
  { unfold Rdiv. apply Rmult_le_pos; lra. }
  assert (Hle : Rabs (zoomSpeed c * (r / h) * px) <= distToTarget c).
  { apply Rle_trans with (1 := Hcap).
    apply Rle_trans with (1 * (2 * distToTarget c / h) * (h / 2)).
    - apply Rmult_le_compat; try lra.
      + apply Rmult_le_pos; lra.
      + apply Rmult_le_compat_r; lra.
    - right. field. lra. }
  pose proof (Rle_abs (- (zoomSpeed c * (r / h) * px))) as Hneg.
  rewrite Rabs_Ropp in Hneg. lra.
Qed.

Lemma dolly_step_capped_witness :
  exists delta,
    dollyDelta (onMouseDown sample pressAt100) 68 = Ok delta
    /\ Rabs delta
       <= zoomSpeed (onMouseDown sample pressAt100)
          * (2 * distToTarget (onMouseDown sample pressAt100)
             / clientHeight (domElement (onMouseDown sample pressAt100)))
          * Rabs (Vector2.y (prev (onMouseDown sample pressAt100)) - 68)
    /\ (zoomSpeed (onMouseDown sample pressAt100) <= 1 ->
        Rabs (Vector2.y (prev (onMouseDown sample pressAt100)) - 68)
        <= clientHeight (domElement (onMouseDown sample pressAt100)) / 2 ->
        0 <= distToTarget (onMouseDown sample pressAt100) + delta).
Proof.
  apply (dolly_step_capped (onMouseDown sample pressAt100) 68).
  - cbn. lra.
  - cbn. lra.
  - cbn. exact I.
Defined.

(** ** What [rotate] never writes *)

Lemma update_prev (c : Controls) : prev (update c) = prev c.
Proof.
  unfold update; simpl. destruct (State_eq_dec (state c) ROTATING); reflexivity.
Qed.

Lemma captureFrame_camera (c c' : Controls) :
  captureFrame c = Ok c' ->
  object c' = object c /\ target c' = target c /\ prev c' = prev c
  /\ state c' = state c.
Proof.
  intros H. destruct (captureFrame_fields c c' H) as (Hs & _ & Ho & Ht & _ & Hp & _).
  auto.
Qed.

(** X15. [rotate] never writes the target, the up vector or [prev]: in
    every controller a call returns, they are the ones before the call.
    The up vector is only recomputed by the release. *)
Theorem rotate_keeps_target_up_prev (c : Controls) (x y : R) (c' : Controls) :
  rotate c x y = Ok c' ->
  target c' = target c /\ up (object c') = up (object c) /\ prev c' = prev c.
Proof.
  unfold rotate.
  assert (Hstep : forall c1,
    (if State_eq_dec (state c1) ROTATING then
       phi <- rotatePhi c1 (Vector2.mk x y) ;;
       theta <- rotateTheta c1 (Vector2.mk x y) ;;
       pos <- Vector3.applyMatrix4 (sphericalPos (radius c1) theta phi)
                (basisMatrix c1) ;;
       Ok (update (with_position c1 pos))
     else Ok c1) = Ok c' ->
    target c' = target c1 /\ up (object c') = up (object c1)
    /\ prev c' = prev c1).
  { intros c1. destruct (State_eq_dec (state c1) ROTATING) as [Hs|Hs].
    - repeat break_if; intros E; try discriminate. injection E as <-.
      rewrite update_target, update_up, update_prev.
      cbn [with_position with_object state target object up prev].
      rewrite Hs. destruct (State_eq_dec ROTATING ROTATING) as [_|N]; [|congruence].
      auto.
    - intros E. injection E as <-. auto. }
  destruct (State_eq_dec (state c) INDETERMINATE).
  - destruct (gtb _ ClickThreshold); cbn [bind]; [|apply Hstep].
    destruct (captureFrame (with_state c ROTATING)) as [c1|err] eqn:Hc;
      cbn [bind]; [|discriminate].
    destruct (captureFrame_camera _ _ Hc) as (Ho & Ht & Hp & _).
    intros E. destruct (Hstep c1 E) as (A & B & C).
    rewrite A, B, C, Ho, Ht, Hp. auto.
  - cbn [bind]. apply Hstep.
Qed.

Lemma rotate_keeps_target_up_prev_witness :
  exists c',
    rotate (onMouseDown sample pressAt100) 150 100 = Ok c'
    /\ target c' = target (onMouseDown sample pressAt100)
    /\ up (object c') = up (object (onMouseDown sample pressAt100))
    /\ prev c' = prev (onMouseDown sample pressAt100).
Proof.
  destruct (rotate_in_gesture sample (onMouseDown sample pressAt100)
              (Vector2.mk 100 100) 150 100)
    as (c' & H & _).
  - apply sample_viewport.
  - apply sample_viewport.
  - apply length_nonzero, sample_away.
  - apply (onMouseDown_rotateGesture sample pressAt100).
  - right. apply gtb_true. unfold Vector2.manhattanDistanceTo, ClickThreshold. cbn.
    unfold Rabs. repeat destruct Rcase_abs; lra.
  - exists c'. split; [exact H|].
    apply (rotate_keeps_target_up_prev _ 150 100 c' H).
Defined.

(** ** The constructor and [reset] *)

(** X16. [reset] on a controller just constructed changes neither the
    camera nor the target, whatever camera it was constructed for: the up
    vector the constructor's [update] wrote is a fixed point of [fixUp]. *)
Theorem reset_of_constructed (o : Camera) (d : DomElement) :
  object (reset (constructor o d)) = object (constructor o d)
  /\ target (reset (constructor o d)) = target (constructor o d)
  /\ state (reset (constructor o d)) = INACTIVE.
Proof.
  assert (Hc : exists c0,
            constructor o d = update c0 /\ state c0 = INACTIVE
            /\ target c0 = Vector3.zero /\ target0 c0 = Vector3.zero
            /\ position0 c0 = position o /\ object c0 = o).
  { eexists. split; [reflexivity|]. repeat split. }
  destruct Hc as (c0 & E & Hs & Ht & Ht0 & Hp0 & Ho). rewrite E.
  destruct (update_sameConfiguration c0) as (_ & _ & _ & Et0 & Ep0 & _).
  unfold reset. cbv zeta.
  rewrite (update_object (with_position _ _)), update_target, update_state.
  cbn [with_position with_target with_object state object target position
       up fov target0 position0].
  rewrite update_state, Hs, Et0, Ep0, Ht0, Hp0, update_target, Ht,
    update_object, Hs, Ho.
  destruct (State_eq_dec INACTIVE ROTATING); [discriminate|].
  cbn [position up fov]. rewrite Ht, stabilized_idempotent. auto.
Qed.

(** ** How pan steps compose *)

Lemma panOffset_add (p d u : Vector3.t) (fovDeg height dx dy dx' dy' : R) :
  Vector3.addVectors
    (Vector3.addVectors p (panOffset d u fovDeg height dx dy))
    (panOffset d u fovDeg height dx' dy')
  = Vector3.addVectors p (panOffset d u fovDeg height (dx + dx') (dy + dy')).
Proof.
  unfold panOffset.
  set (xAxis := Vector3.normalize _). set (s := _ / (height / 2)).
  apply vector3_ext; cbn; ring.
Qed.

(** X17. Pan drags compose: for a camera away from the target whose up
    vector is a unit vector orthogonal to the view vector, a pan step to one
    pointer position followed by a pan step to a second one leaves camera
    position, up vector and target exactly where a single pan step to the
    second position leaves them. *)
Theorem pan_steps_compose (c : Controls) (x1 y1 x2 y2 : R) :
  state c = PANNING ->
  clientHeight (domElement c) <> 0 ->
  position (object c) <> target c ->
  Vector3.length (up (object c)) = 1 ->
  Vector3.dot (up (object c))
    (Vector3.subVectors (target c) (position (object c))) = 0 ->
  exists c1 c2 c3,
    pan c x1 y1 = Ok c1
    /\ pan c1 x2 y2 = Ok c2
    /\ pan c x2 y2 = Ok c3
    /\ position (object c2) = position (object c3)
    /\ up (object c2) = up (object c3)
    /\ target c2 = target c3.
Proof.
  intros Hs Hh Hne Hu Hud.
  pose proof (distToTarget_nonzero c Hne) as Hd.
  set (d := Vector3.subVectors (target c) (position (object c))) in *.
  assert (Hfix : stabilized d (up (object c)) = up (object c))
    by (apply stabilized_fixed; [exact Hd | exact Hu | exact Hud]).
  destruct (panned_facts c (Vector2.mk x1 y1) Hs Hd)
    as (Hv1 & Hp1 & _ & Hs1 & _ & Hdom1 & _).
  destruct (panned_camera c (Vector2.mk x1 y1) Hs Hd) as (Hup1 & Hfov1).
  fold d in Hv1, Hup1. rewrite Hfix in Hup1.
  remember (panned c (Vector2.mk x1 y1)) as c1 eqn:E1.
  assert (Hd1 : distToTarget c1 <> 0) by (unfold distToTarget; rewrite Hv1; exact Hd).
  destruct (panned_camera c1 (Vector2.mk x2 y2) Hs1 Hd1) as (Hup2 & _).
  destruct (panned_camera c (Vector2.mk x2 y2) Hs Hd) as (Hup3 & _).
  fold d in Hup3. rewrite Hv1, Hup1 in Hup2.
  exists c1, (panned c1 (Vector2.mk x2 y2)), (panned c (Vector2.mk x2 y2)).
  split; [rewrite E1; apply pan_panning; assumption|].
  split; [apply pan_panning; [exact Hs1 | exact Hd1 | rewrite Hdom1; exact Hh]|].
  split; [apply pan_panning; assumption|].
  split; [|split; [rewrite Hup2, Hup3; reflexivity|]].
  - rewrite (panned_position c1), (panned_position c), Hv1, Hup1, Hfov1, Hdom1, Hp1.
    rewrite E1, (panned_position c). fold d.
    rewrite panOffset_add. cbn [Vector2.x Vector2.y]. f_equal. f_equal; ring.
  - rewrite (panned_target c1 _ Hs1 Hd1), (panned_target c _ Hs Hd),
      Hv1, Hup1, Hfov1, Hdom1, Hp1.
    rewrite E1, (panned_target c _ Hs Hd). fold d.
    rewrite panOffset_add. cbn [Vector2.x Vector2.y]. f_equal. f_equal; ring.
Qed.

Lemma pan_steps_compose_witness :
  exists c1 c2 c3,
    pan (keyStart sample) 40 25 = Ok c1
    /\ pan c1 (-10) 60 = Ok c2
    /\ pan (keyStart sample) (-10) 60 = Ok c3
    /\ position (object c2) = position (object c3)
    /\ up (object c2) = up (object c3)
    /\ target c2 = target c3.
Proof.
  apply (pan_steps_compose (keyStart sample) 40 25 (-10) 60).
  - reflexivity.
  - apply sample_viewport.
  - apply sample_away.
  - apply sample_up_unit.
  - apply sample_up_orthogonal.
Defined.


(** ** A camera that looks along its up vector *)




